(** * Uptane client: target selection, metadata refresh, installation

    Shallow embedding of the parts of
    [src/libaktualizr/primary/sotauptaneclient.cc] and
    [src/libaktualizr/package_manager/ostreemanager.cc] that decide which
    targets are selected, how the Director and Images metadata are
    refreshed, how a Primary target is installed and finalized, and which
    events the command loop emits. *)

From Stdlib Require Import ZArith Lia.
From stdpp Require Import base option list gmap strings.

Open Scope string_scope.
Open Scope list_scope.
Open Scope Z_scope.

(** ** Data model ([Uptane::Target], [Hash], roles) *)

Module Uptane.

(** [Uptane::EcuSerial] and [Uptane::HardwareIdentifier] wrap a
    [std::string]; both are compared bytewise. *)
Definition EcuSerial := string.
Definition HardwareIdentifier := string.

(** [Uptane::EcuMap] is a [std::map<EcuSerial, HardwareIdentifier>].  The
    code only iterates over it, so it is kept as the list of its entries
    in iteration order, which for [std::map] is ascending key order. *)
Definition EcuMap := list (EcuSerial * HardwareIdentifier).

Fixpoint ecumap_sorted (m : EcuMap) : bool :=
  match m with
  | [] => true
  | (s1, _) :: rest =>
      match rest with
      | [] => true
      | (s2, _) :: _ => String.ltb s1 s2 && ecumap_sorted rest
      end
  end.

Inductive HashType := kSha256 | kSha512 | kUnknownAlgorithm.

Record Hash := mkHash { hash_type : HashType; hash_string : string }.

(** The constructor order follows the brace initializer used by
    [OstreeManager::getCurrent]: filename, ecus, hashes, length, type. *)
Record Target := mkTarget {
  filename : string;
  ecus : EcuMap;
  hashes : list Hash;
  length_ : Z;
  type_ : string
}.

Inductive RepositoryType := Director | Images.
Inductive Role := Root | Timestamp | Snapshot | Targets.

#[global] Instance HashType_eq_dec : EqDecision HashType.
Proof. solve_decision. Defined.
#[global] Instance Hash_eq_dec : EqDecision Hash.
Proof. solve_decision. Defined.
#[global] Instance Target_eq_dec : EqDecision Target.
Proof. solve_decision. Defined.
#[global] Instance RepositoryType_eq_dec : EqDecision RepositoryType.
Proof. solve_decision. Defined.
#[global] Instance Role_eq_dec : EqDecision Role.
Proof. solve_decision. Defined.

End Uptane.
Import Uptane.

(** ** Target selection ([SotaUptaneClient::getNewTargets]) *)

Module TargetSelection.

Section Select.

(** [hw_ids] and [installed_images] are the client's
    [std::map<EcuSerial, ...>] members; the code only calls [find]. *)
Variable hw_ids : gmap string HardwareIdentifier.
Variable installed_images : gmap string string.

(** The inner loop over [targets_it->ecus()].  [is_new] is the loop
    carried flag.  [None] is the [return false] taken on a hardware
    identifier mismatch; [Some b] is the value of [is_new] when the
    loop is left, either at its end or through [break]. *)
Fixpoint scan_ecus (fname : string) (es : EcuMap) (is_new : bool)
  : option bool :=
  match es with
  | [] => Some is_new
  | (ecu_serial, hw_id) :: rest =>
      match hw_ids !! ecu_serial with
      | None => Some false
      | Some known_hw =>
          if decide (known_hw = hw_id) then
            match installed_images !! ecu_serial with
            | None => Some false
            | Some image =>
                if decide (image = fname)
                then scan_ecus fname rest is_new
                else scan_ecus fname rest true
            end
          else None
      end
  end.

(** The outer loop.  [new_targets] is the caller's output vector; the
    pair returned is the [bool] result and the vector's final content.
    Every target starts its scan with [is_new = true]. *)
Fixpoint getNewTargets (targets : list Target) (new_targets : list Target)
  : bool * list Target :=
  match targets with
  | [] => (true, new_targets)
  | t :: rest =>
      match scan_ecus (filename t) (ecus t) true with
      | None => (false, new_targets)
      | Some true => getNewTargets rest (new_targets ++ [t])
      | Some false => getNewTargets rest new_targets
      end
  end.

(** A target is installed everywhere when each of its ECUs is known
    with the declared hardware identifier and already runs the
    target's file. *)
Definition installed_everywhere (t : Target) : Prop :=
  Forall (fun e : EcuSerial * HardwareIdentifier =>
            hw_ids !! e.1 = Some e.2 /\
            installed_images !! e.1 = Some (filename t)) (ecus t).

(** An entry the inner loop steps over without leaving: the serial is
    in the inventory and has a record of its installed image. *)
Definition passable (e : EcuSerial * HardwareIdentifier) : Prop :=
  is_Some (hw_ids !! e.1) /\ is_Some (installed_images !! e.1).

(** A target names a known serial with a hardware identifier other
    than the one the inventory has for it. *)
Definition names_mismatch (t : Target) : Prop :=
  exists s declared known,
    (s, declared) ∈ ecus t /\ hw_ids !! s = Some known /\
    known <> declared.

(** A target names a serial that is not in the inventory. *)
Definition names_unknown (t : Target) : Prop :=
  exists s declared, (s, declared) ∈ ecus t /\ hw_ids !! s = None.

(** An entry that does not trigger the mismatch exit. *)
Definition no_mismatch (e : EcuSerial * HardwareIdentifier) : Prop :=
  forall h, hw_ids !! e.1 = Some h -> h = e.2.

End Select.

End TargetSelection.

(** ** Installation results ([data::InstallOutcome], [data::OperationResult]) *)

Module data.

(** Modelled from the spec: the result codes of §3 (InstallationResult);
    the enumeration itself is declared outside the files at hand. *)
Inductive UpdateResultCode :=
| kOk | kAlreadyProcessed | kNeedCompletion
| kInstallFailed | kValidationFailed | kInProgress.

#[global] Instance UpdateResultCode_eq_dec : EqDecision UpdateResultCode.
Proof. solve_decision. Defined.

(** [data::InstallOutcome] is a pair of a code and a description. *)
Definition InstallOutcome := (UpdateResultCode * string)%type.

Record OperationResult := mkOperationResult {
  id : string;
  result_code : UpdateResultCode;
  result_text : string
}.

Definition fromOutcome (id : string) (outcome : InstallOutcome)
  : OperationResult :=
  mkOperationResult id outcome.1 outcome.2.

End data.

(** ** The client ([SotaUptaneClient]) *)

Module Client.

(** [Uptane::Exception] values kept in [last_exception]. *)
Inductive Exception :=
| NoException
| ExpiredMetadata (reponame role : string)
| RepositoryException (what : string).

(** Outcome of a call that may throw; [what] is [ex.what()]. *)
Inductive Result (A : Type) :=
| Ret (a : A)
| Throw (what : string).
Arguments Ret {A} a.
Arguments Throw {A} what.

(** *** State passing

    A member function that returns [A] and may change the object is a
    function from the state to [A] and the new state.  [STX] is the same
    for code that may also leave through an exception; the state reached
    when the exception is thrown is kept. *)
Definition ST (S A : Type) : Type := S -> A * S.
Definition ret {S A} (a : A) : ST S A := fun s => (a, s).
Definition bind {S A B} (c : ST S A) (k : A -> ST S B) : ST S B :=
  fun s => let '(a, s') := c s in k a s'.

Definition STX (S A : Type) : Type := S -> Result A * S.
Definition retx {S A} (a : A) : STX S A := fun s => (Ret a, s).
Definition bindx {S A B} (c : STX S A) (k : A -> STX S B) : STX S B :=
  fun s =>
    match c s with
    | (Ret a, s') => k a s'
    | (Throw what, s') => (Throw what, s')
    end.
Definition lift {S A} (c : ST S A) : STX S A :=
  fun s => let '(a, s') := c s in (Ret a, s').

Declare Scope st_scope.
Delimit Scope st_scope with st.
Notation "x <- c ;; k" := (bind c (fun x => k))
  (at level 100, c at next level, right associativity) : st_scope.
Notation "c ;; k" := (bind c (fun _ => k))
  (at level 100, right associativity) : st_scope.
Notation "x <~ c ;; k" := (bindx c (fun x => k))
  (at level 100, c at next level, right associativity) : st_scope.
Notation "c ;;; k" := (bindx c (fun _ => k))
  (at level 100, right associativity) : st_scope.

Inductive PackageManagerType := kNone | kOstree | kDebian.

#[global] Instance PackageManagerType_eq_dec : EqDecision PackageManagerType.
Proof. solve_decision. Defined.

(** Modelled from the spec: [Target::IsOstree], from the target type field
    of §3 ([type] is OSTREE or binary); the class [Uptane::Target] is
    declared outside the files at hand. *)
Definition IsOstree (t : Target) : bool := bool_decide (type_ t = "OSTREE").

(** Modelled from the spec: the per-role byte limits of §4.2; the
    constants are declared outside the files at hand. *)
Definition kMaxRootSize : Z := 64 * 1024.
Definition kMaxTimestampSize : Z := 64 * 1024.
Definition kMaxSnapshotSize : Z := 2 * 1024 * 1024.
Definition kMaxImagesTargetsSize : Z := 8 * 1024 * 1024.
Definition kMaxDirectorTargetsSize : Z := 1 * 1024 * 1024.

(** The collaborators the client is built on.  Their code is not part of
    the files at hand, so the client is modelled over any implementation
    of them.

    - [Blob] is the [std::string] holding one signed metadata document;
      the client never looks inside it except through
      [extractVersionUntrusted] and the repository's verification.
    - [Repo] is the state of a [Uptane::DirectorRepository] or
      [Uptane::ImagesRepository]; every operation receives the
      [RepositoryType] it is called for.
    - [Net] is whatever the fetcher talks to; a fetch may change it, so
      a server may answer the same request differently each time.
    - [Env] is the rest of the device: HTTP endpoint, Secondaries,
      package manager, bootloader, report queue, file system.
    - [Manifest] is the [Json::Value] built by [AssembleManifest]. *)
Class Carriers := {
  Blob : Type;
  Repo : Type;
  Net : Type;
  Env : Type;
  Manifest : Type
}.

Section WithCarriers.

Context `{K : Carriers}.

(** Modelled from the spec: the persisted state of §6.  Every stored
    Root is kept with its version, newest first; of the other roles
    only the latest document is kept. *)
Record Storage := mkStorage {
  roots : RepositoryType -> list (Z * Blob);
  non_root : RepositoryType -> Role -> option Blob;
  installation_result : option data.OperationResult;
  installed_versions : list Target
}.

(** Modelled from the spec: the latest Root is the stored one with the
    highest version, the most recently stored one among equals. *)
Fixpoint latest_root (l : list (Z * Blob)) : option (Z * Blob) :=
  match l with
  | [] => None
  | (v, b) :: rest =>
      match latest_root rest with
      | Some (v', b') => if v <? v' then Some (v', b') else Some (v, b)
      | None => Some (v, b)
      end
  end.

End WithCarriers.

Class Collaborators `{K : Carriers} := {
  extractVersionUntrusted : Blob -> Z;

  repo_resetMeta : RepositoryType -> Repo -> Repo;
  repo_initRoot : RepositoryType -> Blob -> Repo -> bool * Repo;
  repo_verifyRoot : RepositoryType -> Blob -> Repo -> bool * Repo;
  repo_verifyTimestamp : RepositoryType -> Blob -> Repo -> bool * Repo;
  repo_verifySnapshot : RepositoryType -> Blob -> Repo -> bool * Repo;
  repo_verifyTargets : RepositoryType -> Blob -> Repo -> bool * Repo;
  repo_rootVersion : RepositoryType -> Repo -> Z;
  repo_rootExpired : RepositoryType -> Repo -> bool;
  repo_timestampExpired : RepositoryType -> Repo -> bool;
  repo_snapshotExpired : RepositoryType -> Repo -> bool;
  repo_targetsExpired : RepositoryType -> Repo -> bool;
  repo_snapshotSize : RepositoryType -> Repo -> Z;
  repo_targetsSize : RepositoryType -> Repo -> Z;
  repo_getLastException : RepositoryType -> Repo -> Exception;
  repo_getTargets : RepositoryType -> Repo -> list Target;
  repo_getTarget : RepositoryType -> Repo -> Target -> option Target;

  fetcher_fetchRole :
    Z -> RepositoryType -> Role -> Z -> Net -> option Blob * Net;
  fetcher_fetchLatestRole :
    Z -> RepositoryType -> Role -> Net -> option Blob * Net;
  fetcher_fetchVerifyTarget : Target -> Net -> Result bool * Net;

  env_reportHwInfo : Env -> Result unit * Env;
  env_reportInstalledPackages : Env -> Result unit * Env;
  env_reportNetworkInfo : Env -> Result unit * Env;
  (** [AssembleManifest] clears and refills [installed_images]; the map
      it leaves behind is returned next to the manifest. *)
  env_AssembleManifest :
    Storage -> Env -> Result Manifest * gmap string string * Env;
  manifest_hasPendingUpdates : Manifest -> bool;
  (** [signManifest] followed by the HTTP PUT; the result is
      [response.isOk()]. *)
  env_putSignedManifest : Manifest -> Env -> Result bool * Env;
  env_sendMetadataToEcus :
    Storage -> list Target -> Env -> Result unit * Env;
  env_sendImagesToEcus :
    Storage -> list Target -> Env -> Result unit * Env;
  (** The tail of [sendDownloadReport]: building the report around the
      stored Director Targets and queueing it. *)
  env_enqueueDownloadReport : Blob -> Env -> Env;
  env_primaryEcuSerial : Env -> EcuSerial;
  (** [target == package_manager_->getCurrent()]. *)
  env_isCurrentOnPrimary : Target -> Env -> Result bool;
  env_updateNotify : Env -> Result unit * Env;
  env_install : Target -> Env -> Result data.InstallOutcome * Env;
  (** The reboot flag file: [boost::filesystem::exists] and
      [boost::filesystem::remove], which throw when the file system
      reports an error, and whether the parent process is [init], in which
      case the process exits. *)
  env_rebootFlagExists : Env -> Result bool;
  env_rebootFlagRemove : Env -> Result unit * Env;
  env_parentIsInit : Env -> bool
}.

Section WithCollaborators.

Context `{C : Collaborators}.

(** What the client does to its collaborators, in call order.  The log
    is not a member of the C++ class; it records the calls so that
    properties about their number and order can be stated. *)
Inductive Call :=
| CFetchRole (repo : RepositoryType) (role : Role) (version : Z) (ok : bool)
| CFetchLatestRole (repo : RepositoryType) (role : Role) (ok : bool)
| CInitRoot (repo : RepositoryType) (ok : bool)
| CVerifyRoot (repo : RepositoryType) (ok : bool)
| CVerifyRole (repo : RepositoryType) (role : Role) (ok : bool)
| CExpired (repo : RepositoryType) (role : Role) (expired : bool)
| CStoreRoot (repo : RepositoryType) (version : Z)
| CClearNonRootMeta (repo : RepositoryType)
| CStoreNonRoot (repo : RepositoryType) (role : Role)
| CInstall (target : Target).

(** [event::*] values written to [events_channel]. *)
Inductive Event :=
| SendDeviceDataComplete
| PutManifestComplete
| FetchMetaComplete
| Error (message : string)
| UpdateAvailable (updates : list Target)
| UptaneTimestampUpdated
| DownloadComplete (updates : list Target)
| InstallComplete.

Record State := mkState {
  storage : Storage;
  director_repo : Repo;
  images_repo : Repo;
  net : Net;
  env : Env;
  pacman_type : PackageManagerType;
  last_exception : Exception;
  hw_ids : gmap string HardwareIdentifier;
  installed_images : gmap string string;
  events_channel : list Event;
  shutdown : bool;
  exited : bool;
  calls : list Call
}.

Definition set_storage (x : Storage) (s : State) : State :=
  mkState x (director_repo s) (images_repo s) (net s) (env s)
    (pacman_type s) (last_exception s) (hw_ids s) (installed_images s)
    (events_channel s) (shutdown s) (exited s) (calls s).
Definition set_director_repo (x : Repo) (s : State) : State :=
  mkState (storage s) x (images_repo s) (net s) (env s)
    (pacman_type s) (last_exception s) (hw_ids s) (installed_images s)
    (events_channel s) (shutdown s) (exited s) (calls s).
Definition set_images_repo (x : Repo) (s : State) : State :=
  mkState (storage s) (director_repo s) x (net s) (env s)
    (pacman_type s) (last_exception s) (hw_ids s) (installed_images s)
    (events_channel s) (shutdown s) (exited s) (calls s).
Definition set_net (x : Net) (s : State) : State :=
  mkState (storage s) (director_repo s) (images_repo s) x (env s)
    (pacman_type s) (last_exception s) (hw_ids s) (installed_images s)
    (events_channel s) (shutdown s) (exited s) (calls s).
Definition set_env (x : Env) (s : State) : State :=
  mkState (storage s) (director_repo s) (images_repo s) (net s) x
    (pacman_type s) (last_exception s) (hw_ids s) (installed_images s)
    (events_channel s) (shutdown s) (exited s) (calls s).
Definition set_last_exception (x : Exception) (s : State) : State :=
  mkState (storage s) (director_repo s) (images_repo s) (net s) (env s)
    (pacman_type s) x (hw_ids s) (installed_images s)
    (events_channel s) (shutdown s) (exited s) (calls s).
Definition set_installed_images (x : gmap string string) (s : State)
  : State :=
  mkState (storage s) (director_repo s) (images_repo s) (net s) (env s)
    (pacman_type s) (last_exception s) (hw_ids s) x
    (events_channel s) (shutdown s) (exited s) (calls s).
Definition set_events_channel (x : list Event) (s : State) : State :=
  mkState (storage s) (director_repo s) (images_repo s) (net s) (env s)
    (pacman_type s) (last_exception s) (hw_ids s) (installed_images s)
    x (shutdown s) (exited s) (calls s).
Definition set_shutdown (x : bool) (s : State) : State :=
  mkState (storage s) (director_repo s) (images_repo s) (net s) (env s)
    (pacman_type s) (last_exception s) (hw_ids s) (installed_images s)
    (events_channel s) x (exited s) (calls s).
Definition set_exited (x : bool) (s : State) : State :=
  mkState (storage s) (director_repo s) (images_repo s) (net s) (env s)
    (pacman_type s) (last_exception s) (hw_ids s) (installed_images s)
    (events_channel s) (shutdown s) x (calls s).
Definition set_calls (x : list Call) (s : State) : State :=
  mkState (storage s) (director_repo s) (images_repo s) (net s) (env s)
    (pacman_type s) (last_exception s) (hw_ids s) (installed_images s)
    (events_channel s) (shutdown s) (exited s) x.

Definition get_repo (r : RepositoryType) (s : State) : Repo :=
  match r with Director => director_repo s | Images => images_repo s end.
Definition set_repo (r : RepositoryType) (x : Repo) (s : State) : State :=
  match r with
  | Director => set_director_repo x s
  | Images => set_images_repo x s
  end.

Definition M (A : Type) : Type := ST State A.
Definition MX (A : Type) : Type := STX State A.

Open Scope st_scope.

(** A block of the source that either leaves the function with
    [return false] or falls through to the next block. *)
Definition proceed_if (c : M bool) (k : M bool) : M bool :=
  ok <- c ;; if ok : bool then k else ret false.

(** *** Calls into the repositories *)

Definition resetMeta (r : RepositoryType) : M unit :=
  fun s => (tt, set_repo r (repo_resetMeta r (get_repo r s)) s).

Definition on_repo (r : RepositoryType) (f : Repo -> bool * Repo)
    (record : bool -> Call) : M bool :=
  fun s =>
    let '(ok, x) := f (get_repo r s) in
    (ok, set_calls (calls s ++ [record ok]) (set_repo r x s)).

Definition initRoot (r : RepositoryType) (root : Blob) : M bool :=
  on_repo r (repo_initRoot r root) (CInitRoot r).
Definition verifyRoot (r : RepositoryType) (root : Blob) : M bool :=
  on_repo r (repo_verifyRoot r root) (CVerifyRoot r).

(** [verifyTimestamp], [verifySnapshot] and [verifyTargets]. *)
Definition verifyRole (r : RepositoryType) (role : Role) (b : Blob)
  : M bool :=
  match role with
  | Root => verifyRoot r b
  | Timestamp => on_repo r (repo_verifyTimestamp r b) (CVerifyRole r Timestamp)
  | Snapshot => on_repo r (repo_verifySnapshot r b) (CVerifyRole r Snapshot)
  | Targets => on_repo r (repo_verifyTargets r b) (CVerifyRole r Targets)
  end.

(** [rootExpired], [timestampExpired], [snapshotExpired] and
    [targetsExpired]. *)
Definition roleExpired (r : RepositoryType) (role : Role) : M bool :=
  fun s =>
    let expired :=
      match role with
      | Root => repo_rootExpired r (get_repo r s)
      | Timestamp => repo_timestampExpired r (get_repo r s)
      | Snapshot => repo_snapshotExpired r (get_repo r s)
      | Targets => repo_targetsExpired r (get_repo r s)
      end in
    (expired, set_calls (calls s ++ [CExpired r role expired]) s).

Definition rootVersion (r : RepositoryType) : M Z :=
  fun s => (repo_rootVersion r (get_repo r s), s).

(** [last_exception = repo.getLastException()]. *)
Definition keepLastException (r : RepositoryType) : M unit :=
  fun s =>
    (tt, set_last_exception (repo_getLastException r (get_repo r s)) s).

Definition setLastException (e : Exception) : M unit :=
  fun s => (tt, set_last_exception e s).

(** *** Calls into the storage *)

Definition loadLatestRoot (r : RepositoryType) : M (option Blob) :=
  fun s => (snd <$> latest_root (roots (storage s) r), s).

Definition storeRoot (root : Blob) (r : RepositoryType) (version : Z)
  : M unit :=
  fun s =>
    let st := storage s in
    let st' :=
      mkStorage
        (fun r' => if decide (r' = r) then (version, root) :: roots st r'
                   else roots st r')
        (non_root st) (installation_result st) (installed_versions st) in
    (tt, set_calls (calls s ++ [CStoreRoot r version]) (set_storage st' s)).

Definition clearNonRootMeta (r : RepositoryType) : M unit :=
  fun s =>
    let st := storage s in
    let st' :=
      mkStorage (roots st)
        (fun r' role => if decide (r' = r) then None
                        else non_root st r' role)
        (installation_result st) (installed_versions st) in
    (tt, set_calls (calls s ++ [CClearNonRootMeta r]) (set_storage st' s)).

Definition loadNonRoot (r : RepositoryType) (role : Role)
  : M (option Blob) :=
  fun s => (non_root (storage s) r role, s).

Definition storeNonRoot (b : Blob) (r : RepositoryType) (role : Role)
  : M unit :=
  fun s =>
    let st := storage s in
    let st' :=
      mkStorage (roots st)
        (fun r' role' =>
           if decide (r' = r /\ role' = role) then Some b
           else non_root st r' role')
        (installation_result st) (installed_versions st) in
    (tt, set_calls (calls s ++ [CStoreNonRoot r role]) (set_storage st' s)).

Definition saveInstalledVersion (t : Target) : M unit :=
  fun s =>
    let st := storage s in
    (tt, set_storage
           (mkStorage (roots st) (non_root st) (installation_result st)
              (installed_versions st ++ [t])) s).

Definition storeInstallationResult (res : data.OperationResult)
  : M unit :=
  fun s =>
    let st := storage s in
    (tt, set_storage
           (mkStorage (roots st) (non_root st) (Some res)
              (installed_versions st)) s).

(** *** Calls into the fetcher *)

Definition fetchRole (maxsize : Z) (r : RepositoryType) (role : Role)
    (version : Z) : M (option Blob) :=
  fun s =>
    let '(res, n) := fetcher_fetchRole maxsize r role version (net s) in
    (res, set_calls
            (calls s ++ [CFetchRole r role version (bool_decide (is_Some res))])
            (set_net n s)).

Definition fetchLatestRole (maxsize : Z) (r : RepositoryType) (role : Role)
  : M (option Blob) :=
  fun s =>
    let '(res, n) := fetcher_fetchLatestRole maxsize r role (net s) in
    (res, set_calls
            (calls s ++ [CFetchLatestRole r role (bool_decide (is_Some res))])
            (set_net n s)).

(** *** Metadata refresh

    [updateDirectorMeta] and [updateImagesMeta] are written in the
    source as a sequence of brace blocks, one per role, and the blocks
    for the same step differ only in the repository, the role and the
    size limit they name.  Each block is one definition below, taking
    what differs as arguments. *)

Definition reponame (r : RepositoryType) : string :=
  match r with Director => "director" | Images => "repo" end.
Definition rolename (role : Role) : string :=
  match role with
  | Root => "root" | Timestamp => "timestamp"
  | Snapshot => "snapshot" | Targets => "targets"
  end.

(** "Load Initial Root Metadata" (lines 199-217 and 289-307). *)
Definition loadInitialRoot (r : RepositoryType) : M bool :=
  stored <- loadLatestRoot r ;;
  match stored with
  | Some root =>
      ok <- initRoot r root ;;
      if ok : bool then ret true
      else (keepLastException r ;; ret false)
  | None =>
      fetched <- fetchRole kMaxRootSize r Root 1 ;;
      match fetched with
      | None => ret false
      | Some root =>
          ok <- initRoot r root ;;
          if ok : bool then (storeRoot root r 1 ;; ret true)
          else (keepLastException r ;; ret false)
      end
  end.

(** The body of [for (int version = local_version + 1;
    version <= remote_version; ++version)] (lines 229-241 and 319-330),
    unrolled [n] times starting at [version].  [int] is taken as [Z]:
    the counter never passes [remote_version + 1], which is an [int]
    unless [remote_version] is the largest one. *)
Fixpoint rootRotation (r : RepositoryType) (n : nat) (version : Z)
  : M bool :=
  match n with
  | O => ret true
  | S n' =>
      fetched <- fetchRole kMaxRootSize r Root version ;;
      match fetched with
      | None => ret false
      | Some root =>
          ok <- verifyRoot r root ;;
          if ok : bool then
            (storeRoot root r version ;;
             clearNonRootMeta r ;;
             rootRotation r n' (version + 1))
          else (keepLastException r ;; ret false)
      end
  end.

(** "Update Root Metadata" (lines 220-247 and 310-336). *)
Definition updateRoot (r : RepositoryType) : M bool :=
  fetched <- fetchLatestRole kMaxRootSize r Root ;;
  match fetched with
  | None => ret false
  | Some root =>
      let remote_version := extractVersionUntrusted root in
      local_version <- rootVersion r ;;
      proceed_if
        (rootRotation r (Z.to_nat (remote_version - local_version))
           (local_version + 1))
        (expired <- roleExpired r Root ;;
         if expired : bool then
           (setLastException (ExpiredMetadata (reponame r) "root") ;;
            ret false)
         else ret true)
  end.

(** "Update Targets/Timestamp/Snapshot Metadata" (lines 249-281,
    339-371, 374-407 and 410-443). *)
Definition updateRole (r : RepositoryType) (role : Role) (maxsize : Z)
  : M bool :=
  fetched <- fetchLatestRole maxsize r role ;;
  match fetched with
  | None => ret false
  | Some meta =>
      let remote_version := extractVersionUntrusted meta in
      stored <- loadNonRoot r role ;;
      let local_version :=
        match stored with
        | Some meta_stored => extractVersionUntrusted meta_stored
        | None => -1
        end in
      ok <- verifyRole r role meta ;;
      if negb ok then (keepLastException r ;; ret false)
      else if local_version >? remote_version then ret false
      else
        ((if local_version <? remote_version
          then storeNonRoot meta r role else ret tt) ;;
         expired <- roleExpired r role ;;
         if expired : bool then
           (setLastException (ExpiredMetadata (reponame r) (rolename role)) ;;
            ret false)
         else ret true)
  end.

Definition updateDirectorMeta : M bool :=
  resetMeta Director ;;
  proceed_if (loadInitialRoot Director)
    (proceed_if (updateRoot Director)
       (updateRole Director Targets kMaxDirectorTargetsSize)).

Definition snapshotSize : M Z :=
  fun s =>
    let size := repo_snapshotSize Images (images_repo s) in
    (if size >? 0 then size else kMaxSnapshotSize, s).
Definition targetsSize : M Z :=
  fun s =>
    let size := repo_targetsSize Images (images_repo s) in
    (if size >? 0 then size else kMaxImagesTargetsSize, s).

Definition updateImagesMeta : M bool :=
  resetMeta Images ;;
  proceed_if (loadInitialRoot Images)
    (proceed_if (updateRoot Images)
       (proceed_if (updateRole Images Timestamp kMaxTimestampSize)
          (proceed_if
             (snapshot_size <- snapshotSize ;;
              updateRole Images Snapshot snapshot_size)
             (targets_size <- targetsSize ;;
              updateRole Images Targets targets_size)))).

(** "Load Root Metadata" of the offline checks (lines 450-465 and
    492-507). *)
Definition checkRootOffline (r : RepositoryType) : M bool :=
  stored <- loadLatestRoot r ;;
  match stored with
  | None => ret false
  | Some root =>
      ok <- initRoot r root ;;
      if negb ok then (keepLastException r ;; ret false)
      else
        (expired <- roleExpired r Root ;;
         if expired : bool then
           (setLastException (ExpiredMetadata (reponame r) "root") ;;
            ret false)
         else ret true)
  end.

(** "Load Targets/Timestamp/Snapshot Metadata" of the offline checks
    (lines 468-484, 510-525, 528-544 and 547-562). *)
Definition checkRoleOffline (r : RepositoryType) (role : Role) : M bool :=
  stored <- loadNonRoot r role ;;
  match stored with
  | None => ret false
  | Some meta =>
      ok <- verifyRole r role meta ;;
      if negb ok then (keepLastException r ;; ret false)
      else
        (expired <- roleExpired r role ;;
         if expired : bool then
           (setLastException (ExpiredMetadata (reponame r) (rolename role)) ;;
            ret false)
         else ret true)
  end.

Definition checkDirectorMetaOffline : M bool :=
  resetMeta Director ;;
  proceed_if (checkRootOffline Director)
    (checkRoleOffline Director Targets).

Definition checkImagesMetaOffline : M bool :=
  resetMeta Images ;;
  proceed_if (checkRootOffline Images)
    (proceed_if (checkRoleOffline Images Timestamp)
       (proceed_if (checkRoleOffline Images Snapshot)
          (checkRoleOffline Images Targets))).

(** [getNewTargets] as a member function: the Director targets come
    from [director_repo], the maps from the client. *)
Definition getNewTargets (new_targets : list Target)
  : M (bool * list Target) :=
  fun s =>
    (TargetSelection.getNewTargets (hw_ids s) (installed_images s)
       (repo_getTargets Director (director_repo s)) new_targets, s).

Definition uptaneIteration : M bool :=
  proceed_if updateDirectorMeta
    (sel <- getNewTargets [] ;;
     let '(ok, targets) := sel in
     if negb ok then ret false
     else match targets with
          | [] => ret true
          | _ :: _ => proceed_if updateImagesMeta (ret true)
          end).

(** The result pairs the [bool] with the content of [*targets] on
    return; [targets] is its content on entry. *)
Definition uptaneOfflineIteration (targets : list Target)
  : M (bool * list Target) :=
  ok <- checkDirectorMetaOffline ;;
  if negb ok then ret (false, targets)
  else
    (sel <- getNewTargets [] ;;
     let '(ok, tmp_targets) := sel in
     if negb ok then ret (false, targets)
     else match tmp_targets with
          | [] => ret (true, tmp_targets)
          | _ :: _ =>
              ok <- checkImagesMetaOffline ;;
              if negb ok then ret (false, targets)
              else ret (true, tmp_targets)
          end).

(** *** Installation on the Primary *)

(** The [try]/[catch] turns an exception of the package manager into
    an [kInstallFailed] outcome, so the call itself cannot throw. *)
Definition PackageInstall (target : Target) : M data.InstallOutcome :=
  fun s =>
    let '(res, e) := env_install target (env s) in
    (match res with
     | Ret outcome => outcome
     | Throw what => (data.kInstallFailed, what)
     end,
     set_calls (calls s ++ [CInstall target]) (set_env e s)).

Definition PackageInstallSetResult (target : Target) : M unit :=
  fun s =>
    if negb (IsOstree target) && bool_decide (pacman_type s = kOstree)
    then
      storeInstallationResult
        (data.fromOutcome (filename target)
           (data.kValidationFailed,
            "Cannot install a non-OSTree package on an OSTree system")) s
    else
      (outcome <- PackageInstall target ;;
       let result := data.fromOutcome (filename target) outcome in
       (if decide (data.result_code result = data.kOk)
        then saveInstalledVersion target else ret tt) ;;
       storeInstallationResult result) s.

(** *** The command loop ([runForever]) *)

Inductive Command :=
| SendDeviceData
| PutManifest
| FetchMeta
| CheckUpdates
| StartDownload (updates : list Target)
| UptaneInstall (packages : list Target)
| Shutdown.

Definition emit (e : Event) : M unit :=
  fun s => (tt, set_events_channel (events_channel s ++ [e]) s).

Definition liftEnv {A} (f : Env -> Result A * Env) : MX A :=
  fun s => let '(res, e) := f (env s) in (res, set_env e s).

Definition reportHwInfo : MX unit := liftEnv env_reportHwInfo.
Definition reportInstalledPackages : MX unit :=
  liftEnv env_reportInstalledPackages.
Definition reportNetworkInfo : MX unit := liftEnv env_reportNetworkInfo.

Definition AssembleManifest : MX Manifest :=
  fun s =>
    let '(res, images, e) := env_AssembleManifest (storage s) (env s) in
    (res, set_installed_images images (set_env e s)).

Definition putManifest : MX bool :=
  manifest <~ AssembleManifest ;;
  if negb (manifest_hasPendingUpdates manifest)
  then liftEnv (env_putSignedManifest manifest)
  else retx false.

Definition updateMeta : MX bool :=
  reportNetworkInfo ;;;
  ok <~ putManifest ;;
  if negb ok then retx false else lift uptaneIteration.

Definition sendDownloadReport : M unit :=
  stored <- loadNonRoot Director Targets ;;
  match stored with
  | None => ret tt
  | Some director_targets =>
      fun s =>
        (tt, set_env (env_enqueueDownloadReport director_targets (env s)) s)
  end.

(** The loop of [downloadImages]; [downloaded_targets] is the vector
    filled on the way. *)
Fixpoint downloadEach (targets downloaded_targets : list Target)
  : MX (list Target) :=
  match targets with
  | [] => retx downloaded_targets
  | t :: rest =>
      fun s =>
        match repo_getTarget Images (images_repo s) t with
        | None => downloadEach rest downloaded_targets s
        | Some images_target =>
            let '(res, n) := fetcher_fetchVerifyTarget images_target (net s) in
            match res with
            | Ret _ => downloadEach rest (downloaded_targets ++ [t]) (set_net n s)
            | Throw what => (Throw what, set_net n s)
            end
        end
  end.

Definition downloadImages (targets : list Target) : MX bool :=
  downloaded_targets <~ downloadEach targets [] ;;
  match targets with
  | _ :: _ =>
      if (length targets =? length downloaded_targets)%nat
      then lift (emit (DownloadComplete downloaded_targets) ;;
                 sendDownloadReport ;; ret true)
      else retx true
  | [] => lift (emit UptaneTimestampUpdated ;; ret true)
  end.

Definition findForEcu (targets : list Target) (ecu_id : EcuSerial)
  : list Target :=
  filter (fun t => ecu_id ∈ (ecus t).*1) targets.

Definition isInstalledOnPrimary (target : Target) : MX bool :=
  fun s =>
    if bool_decide (env_primaryEcuSerial (env s) ∈ (ecus target).*1)
    then (env_isCurrentOnPrimary target (env s), s)
    else (Ret false, s).

(** The statements after [InstallComplete], still inside the [try]: the
    reboot flag file is removed when present, and the process exits when
    it runs under [init].  Both file system calls may throw. *)
Definition handleRebootFlag : MX unit :=
  fun s =>
    match env_rebootFlagExists (env s) with
    | Throw what => (Throw what, s)
    | Ret false => (Ret tt, s)
    | Ret true =>
        let '(res, e) := env_rebootFlagRemove (env s) in
        let s' := set_env e s in
        match res with
        | Throw what => (Throw what, s')
        | Ret _ =>
            (Ret tt, if env_parentIsInit (env s') then set_exited true s' else s')
        end
    end.

(** The [try] block of the loop body. *)
Definition runCommand (command : Command) : MX unit :=
  match command with
  | SendDeviceData =>
      reportHwInfo ;;;
      reportInstalledPackages ;;;
      reportNetworkInfo ;;;
      putManifest ;;;
      lift (emit SendDeviceDataComplete)
  | PutManifest =>
      ok <~ putManifest ;;
      if negb ok then lift (emit (Error "Could not put manifest."))
      else lift (emit PutManifestComplete)
  | FetchMeta =>
      ok <~ updateMeta ;;
      if ok : bool then lift (emit FetchMetaComplete)
      else lift (emit (Error "Could not update metadata."))
  | CheckUpdates =>
      AssembleManifest ;;;
      res <~ lift (uptaneOfflineIteration []) ;;
      let '(ok, updates) := res in
      if negb ok then retx tt
      else match updates with
           | _ :: _ => lift (emit (UpdateAvailable updates))
           | [] => lift (emit UptaneTimestampUpdated)
           end
  | StartDownload updates =>
      downloadImages updates ;;; retx tt
  | UptaneInstall updates =>
      primary <~ (fun s => (Ret (env_primaryEcuSerial (env s)), s)) ;;
      let primary_updates := findForEcu updates primary in
      (fun s => liftEnv (env_sendMetadataToEcus (storage s) updates) s) ;;;
      match primary_updates with
      | it :: _ =>
          installed <~ isInstalledOnPrimary it ;;
          if negb installed then
            (liftEnv env_updateNotify ;;;
             lift (PackageInstallSetResult it))
          else
            lift (storeInstallationResult
                    (data.fromOutcome (filename it)
                       (data.kAlreadyProcessed, "Package already installed")))
      | [] => retx tt
      end ;;;
      (fun s => liftEnv (env_sendImagesToEcus (storage s) updates) s) ;;;
      lift (emit InstallComplete) ;;;
      handleRebootFlag
  | Shutdown =>
      fun s => (Ret tt, set_shutdown true s)
  end.

(** The loop body with its two [catch] clauses, which both write an
    [Error] carrying [ex.what()]. *)
Definition processCommand (command : Command) : M unit :=
  fun s =>
    match runCommand command s with
    | (Ret _, s') => (tt, s')
    | (Throw what, s') => emit (Error what) s'
    end.

(** The [while] loop reading [commands_channel], over the commands the
    channel delivers; the loop is left on [Shutdown] and when the
    process exits. *)
Fixpoint runForever (commands : list Command) : M unit :=
  match commands with
  | [] => ret tt
  | command :: rest =>
      processCommand command ;;
      fun s => if shutdown s || exited s then (tt, s) else runForever rest s
  end.

(** The terminal events: the [*Complete] events and [Error]. *)
Definition is_terminal (e : Event) : bool :=
  match e with
  | SendDeviceDataComplete | PutManifestComplete | FetchMetaComplete
  | DownloadComplete _ | InstallComplete | Error _ => true
  | UpdateAvailable _ | UptaneTimestampUpdated => false
  end.

(** What a command run adds to the events channel, and to the call
    log. *)
Definition emitted_by {A} (c : M A) (s : State) : list Event :=
  drop (length (events_channel s)) (events_channel (c s).2).
Definition called_by {A} (c : M A) (s : State) : list Call :=
  drop (length (calls s)) (calls (c s).2).

(** Counting and classifying the calls of a run. *)
Definition is_root_fetch (r : RepositoryType) (c : Call) : bool :=
  match c with
  | CFetchRole r' Root _ _ => bool_decide (r' = r)
  | _ => false
  end.
Definition is_root_verify (r : RepositoryType) (c : Call) : bool :=
  match c with
  | CVerifyRoot r' _ => bool_decide (r' = r)
  | _ => false
  end.
Definition root_fetches (r : RepositoryType) (cs : list Call) : nat :=
  length (List.filter (is_root_fetch r) cs).
Definition root_verifications (r : RepositoryType) (cs : list Call) : nat :=
  length (List.filter (is_root_verify r) cs).

(** The calls made while a Root is loaded, fetched, verified and stored:
    none of them verifies or stores another role, checks an expiry or
    installs anything. *)
Definition root_only (c : Call) : bool :=
  match c with
  | CFetchRole _ Root _ _ | CFetchLatestRole _ Root _
  | CInitRoot _ _ | CVerifyRoot _ _ | CStoreRoot _ _ | CClearNonRootMeta _ => true
  | _ => false
  end.

(** The same with the expiry check of the Root that ends the Root step. *)
Definition root_phase (c : Call) : bool :=
  match c with
  | CExpired _ Root _ => true
  | _ => root_only c
  end.

(** How far the Root walk can go from state [s]: the distance between the
    version read from the latest Root the server hands out and the version
    of the Root the repository holds; nothing when the fetch fails. *)
Definition advertised_distance (r : RepositoryType) (s : State) : nat :=
  match (fetcher_fetchLatestRole kMaxRootSize r Root (net s)).1 with
  | Some root =>
      Z.to_nat (extractVersionUntrusted root - repo_rootVersion r (get_repo r s))
  | None => 0%nat
  end.

(** The calls made while one of Timestamp, Snapshot and Targets is
    refreshed or checked. *)
Definition role_only (c : Call) : bool :=
  match c with
  | CFetchLatestRole _ (Timestamp | Snapshot | Targets) _
  | CVerifyRole _ _ _ | CStoreNonRoot _ _
  | CExpired _ (Timestamp | Snapshot | Targets) _ => true
  | _ => false
  end.

(** The four metadata checks: the online refresh and the offline check of
    each repository. *)
Inductive MetaCheck :=
| OnlineDirector | OnlineImages | OfflineDirector | OfflineImages.

Definition check_repo (k : MetaCheck) : RepositoryType :=
  match k with
  | OnlineDirector | OfflineDirector => Director
  | OnlineImages | OfflineImages => Images
  end.

Definition run_check (k : MetaCheck) : M bool :=
  match k with
  | OnlineDirector => updateDirectorMeta
  | OnlineImages => updateImagesMeta
  | OfflineDirector => checkDirectorMetaOffline
  | OfflineImages => checkImagesMetaOffline
  end.

(** The statements of "Update Root Metadata" that come before the expiry
    check of the Root (lines 222-241 and 312-330): the latest Root is
    fetched and the Roots up to its version are verified and stored. *)
Definition walkRoots (r : RepositoryType) : M bool :=
  fetched <- fetchLatestRole kMaxRootSize r Root ;;
  match fetched with
  | None => ret false
  | Some root =>
      let remote_version := extractVersionUntrusted root in
      local_version <- rootVersion r ;;
      rootRotation r (Z.to_nat (remote_version - local_version))
        (local_version + 1)
  end.

(** The statements of "Load Root Metadata" of the offline checks that come
    before the expiry check of the Root (lines 451-459 and 493-501). *)
Definition initStoredRoot (r : RepositoryType) : M bool :=
  stored <- loadLatestRoot r ;;
  match stored with
  | None => ret false
  | Some root =>
      ok <- initRoot r root ;;
      if negb ok then (keepLastException r ;; ret false) else ret true
  end.


(** A check run up to the expiry check of its Root: the answer is [true]
    when that check is reached, and the state is the one it is made in. *)
Definition before_root_check (k : MetaCheck) : M bool :=
  match k with
  | OnlineDirector | OnlineImages =>
      resetMeta (check_repo k) ;;
      proceed_if (loadInitialRoot (check_repo k)) (walkRoots (check_repo k))
  | OfflineDirector | OfflineImages =>
      resetMeta (check_repo k) ;; initStoredRoot (check_repo k)
  end.

(** Whether the Root the repository of check [k] holds has expired when
    the check looks at it. *)
Definition root_expired_at_check (k : MetaCheck) (s : State) : bool :=
  repo_rootExpired (check_repo k)
    (get_repo (check_repo k) (snd (before_root_check k s))).

(** The state in which the Root walk of the online refresh of [r] starts:
    after [resetMeta] and the initial Root. *)
Definition before_walk (r : RepositoryType) (s : State) : State :=
  snd (loadInitialRoot r (snd (resetMeta r s))).

(** The state in which the Director Targets are fetched: after the Root
    steps of [updateDirectorMeta]. *)
Definition before_targets (s : State) : State :=
  snd (proceed_if (loadInitialRoot Director) (updateRoot Director)
         (snd (resetMeta Director s))).

(** The events each command can leave on the channel. *)
Definition command_events (command : Command) (ev : list Event) : Prop :=
  match command with
  | SendDeviceData =>
      ev = [SendDeviceDataComplete] \/ exists what, ev = [Error what]
  | PutManifest =>
      ev = [PutManifestComplete] \/ exists what, ev = [Error what]
  | FetchMeta =>
      ev = [FetchMetaComplete] \/ exists what, ev = [Error what]
  | UptaneInstall _ =>
      ev = [InstallComplete] \/ (exists what, ev = [Error what]) \/
      (exists what, ev = [InstallComplete; Error what])
  | CheckUpdates =>
      ev = [] \/ ev = [UptaneTimestampUpdated] \/
      (exists updates, updates <> [] /\ ev = [UpdateAvailable updates]) \/
      (exists what, ev = [Error what])
  | StartDownload updates =>
      match updates with
      | [] => ev = [UptaneTimestampUpdated]
      | _ :: _ =>
          ev = [] \/ (exists downloaded, ev = [DownloadComplete downloaded]) \/
          (exists what, ev = [Error what])
      end
  | Shutdown => ev = []
  end.

(** The events the [try] block of a command has written when an exception
    leaves it: only [UptaneInstall] has statements that may throw after an
    event is written. *)
Definition thrown_events (command : Command) (ev : list Event) : Prop :=
  match command with
  | UptaneInstall _ => ev = [] \/ ev = [InstallComplete]
  | _ => ev = []
  end.

(** The most events one command can leave on the channel. *)
Definition max_events (command : Command) : nat :=
  match command with
  | UptaneInstall _ => 2
  | _ => 1
  end.

(** What a computation that may throw adds to the events channel: [Q] of
    the added events when it returns, nothing when it throws. *)
Definition outcome {A} (c : MX A) (Q : list Event -> Prop) : Prop :=
  forall s, exists ev,
    events_channel (snd (c s)) = events_channel s ++ ev /\
    match fst (c s) with
    | Ret _ => Q ev
    | Throw _ => ev = []
    end.

(** The same for a computation that may throw after it has written: [T]
    of the added events when it throws. *)
Definition outcome_or {A} (c : MX A) (Q T : list Event -> Prop) : Prop :=
  forall s, exists ev,
    events_channel (snd (c s)) = events_channel s ++ ev /\
    match fst (c s) with
    | Ret _ => Q ev
    | Throw _ => T ev
    end.

(** A computation whose calls are all of one kind. *)
Definition logs_only (p : Call -> bool) {A} (c : M A) : Prop :=
  forall s, exists d, calls (snd (c s)) = calls s ++ d /\ forallb p d = true.

(** A computation that writes nothing to the events channel. *)
Definition silent {A} (c : M A) : Prop :=
  forall s, events_channel (snd (c s)) = events_channel s.
Definition silentx {A} (c : MX A) : Prop :=
  forall s, events_channel (snd (c s)) = events_channel s.

End WithCollaborators.

End Client.

(** ** The OSTree package manager ([OstreeManager]) *)

Module Ostree.

Import Client.

(** [data::InstallationResult] as built in [ostreemanager.cc]: a result
    code and a description. *)
Record InstallationResult := mkInstallationResult {
  result_code : data.UpdateResultCode;
  description : string
}.

(** Modelled from the spec: [Target::sha256Hash].  A [Hash] is an
    algorithm with a hex digest (§3); the SHA-256 hash of a target is the
    digest of its first SHA-256 entry, and empty when there is none.  The
    classes [Uptane::Target] and [Hash] are declared outside the files at
    hand. *)
Fixpoint sha256_of (hs : list Hash) : string :=
  match hs with
  | [] => ""
  | h :: rest =>
      match hash_type h with
      | kSha256 => hash_string h
      | _ => sha256_of rest
      end
  end.
Definition sha256Hash (t : Target) : string := sha256_of (hashes t).

(** What the code reads from libostree: a deployment's checksum
    ([ostree_deployment_get_csum]), the booted deployment and the list of
    deployments of a sysroot. *)
Record Deployment := mkDeployment { csum : string }.
Record Sysroot := mkSysroot {
  booted_deployment : option Deployment;
  deployments : list Deployment
}.

Inductive BootedType := kBooted | kStaged.

(** Modelled from the spec: the bootloader interface of §4.4 and §6,
    [reboot_detected()] and the reboot flag; the class [Bootloader] is
    declared outside the files at hand. *)
Record Bootloader := mkBootloader {
  reboot_detected : bool;
  reboot_flag : bool
}.
Definition rebootDetected (b : Bootloader) : bool := reboot_detected b.
Definition rebootFlagClear (b : Bootloader) : Bootloader :=
  mkBootloader (reboot_detected b) false.

(** The manager with what it reaches through its members:
    [config.booted], [config.sysroot] and what [LoadSysroot] finds there
    (it throws when the sysroot cannot be loaded), the bootloader, and
    the two storage tables read by [getCurrent]
    ([loadPrimaryInstalledVersions], [loadPrimaryInstallationLog]).
    [booted_text] is what streaming [config.booted] prints. *)
Record OstreeManager := mkOstreeManager {
  booted : BootedType;
  booted_text : string;
  sysroot_path : string;
  sysroot : Result Sysroot;
  bootloader_ : Bootloader;
  current_version : option Target;
  installed_versions : list Target
}.

Definition set_bootloader (b : Bootloader) (m : OstreeManager)
  : OstreeManager :=
  mkOstreeManager (booted m) (booted_text m) (sysroot_path m) (sysroot m) b
    (current_version m) (installed_versions m).

Definition getCurrentHash (m : OstreeManager) : Result string :=
  match sysroot m with
  | Throw what => Throw what
  | Ret sysroot_smart =>
      let deployment :=
        match booted m with
        | kBooted => booted_deployment sysroot_smart
        | kStaged => head (deployments sysroot_smart)
        end in
      match deployment with
      | None =>
          Throw ("Could not get " +:+ booted_text m +:+
                 " deployment in " +:+ sysroot_path m)
      | Some d => Ret (csum d)
      end
  end.

Definition finalizeInstall (target : Target)
  : STX OstreeManager InstallationResult :=
  fun m =>
    if negb (rebootDetected (bootloader_ m)) then
      (Ret (mkInstallationResult data.kNeedCompletion
              "Reboot is required for the pending update application"), m)
    else
      match getCurrentHash m with
      | Throw what => (Throw what, m)
      | Ret current_hash =>
          let install_result :=
            if decide (current_hash <> sha256Hash target)
            then mkInstallationResult data.kInstallFailed "Wrong version booted"
            else mkInstallationResult data.kOk "Successfully booted on new version" in
          (Ret install_result,
           set_bootloader (rebootFlagClear (bootloader_ m)) m)
      end.



End Ostree.

(** ** A reference implementation of the collaborators

    Used to run the client on concrete inputs. *)

Module Reference.

Import Client.

(** Modelled from the spec: a signed metadata document, by what §3 and §6
    say the client reads from it: its role, version, whether it has expired
    when it is checked, whether its signatures meet the thresholds it is
    checked against, and for a Targets document its targets.  Parsing and
    cryptography are outside the files at hand. *)
Record Meta := mkMeta {
  meta_role : Role;
  meta_version : Z;
  meta_expired : bool;
  meta_signed : bool;
  meta_targets : list Target
}.

(** Modelled from the spec: the repository state of §3, a trusted Root and
    the optional Timestamp, Snapshot and Targets. *)
Record Repository := mkRepository {
  current_root : option Meta;
  timestamp : option Meta;
  snapshot : option Meta;
  targets : option Meta;
  last_error : Exception
}.

Definition failed (what : string) (x : Repository) : bool * Repository :=
  (false, mkRepository (current_root x) (timestamp x) (snapshot x) (targets x)
            (RepositoryException what)).

(** Modelled from the spec: [reset_meta] of §4.1 drops all non-Root state. *)
Definition reset_meta (x : Repository) : Repository :=
  mkRepository (current_root x) None None None (last_error x).

(** Modelled from the spec: [init_root] of §4.1 requires a self-consistent
    Root, sets it as the current Root and drops any non-Root state; it does
    not check the expiry. *)
Definition init_root (b : Meta) (x : Repository) : bool * Repository :=
  if bool_decide (meta_role b = Root) && meta_signed b
  then (true, mkRepository (Some b) None None None (last_error x))
  else failed "BadSignature" x.

(** Modelled from the spec: [verify_root] of §4.1 requires type Root,
    version [current + 1], the signatures of both key sets and no expiry;
    it then replaces the current Root and invalidates the other roles. *)
Definition verify_root (b : Meta) (x : Repository) : bool * Repository :=
  match current_root x with
  | None => failed "NotFound" x
  | Some cur =>
      if negb (bool_decide (meta_role b = Root)) then failed "RoleMismatch" x
      else if negb (bool_decide (meta_version b = meta_version cur + 1))
      then failed "VersionOutOfOrder" x
      else if negb (meta_signed b) then failed "BadSignature" x
      else if meta_expired b then failed "ExpiredMetadata" x
      else (true, mkRepository (Some b) None None None (last_error x))
  end.

(** Modelled from the spec: [verify_timestamp], [verify_snapshot] and
    [verify_targets] of §4.1 validate a document against the current Root's
    keys for its role. *)
Definition verify_role (role : Role) (b : Meta) (x : Repository)
  : bool * Repository :=
  match current_root x with
  | None => failed "NotFound" x
  | Some _ =>
      if negb (bool_decide (meta_role b = role)) then failed "RoleMismatch" x
      else if negb (meta_signed b) then failed "BadSignature" x
      else
        (true,
         match role with
         | Root => x
         | Timestamp =>
             mkRepository (current_root x) (Some b) (snapshot x) (targets x) (last_error x)
         | Snapshot =>
             mkRepository (current_root x) (timestamp x) (Some b) (targets x) (last_error x)
         | Targets =>
             mkRepository (current_root x) (timestamp x) (snapshot x) (Some b) (last_error x)
         end)
  end.

Definition expired (m : option Meta) : bool :=
  match m with Some b => meta_expired b | None => false end.

(** Modelled from the spec: [targets()] of §4.1 returns the trusted Targets
    list, empty if none is trusted. *)
Definition trusted_targets (x : Repository) : list Target :=
  match targets x with Some b => meta_targets b | None => [] end.

(** Modelled from the spec: rule 4 of §4.3, a Director target is matched by
    an Image target of the same name with identical length and hashes. *)
Definition matching_target (x : Repository) (t : Target) : option Target :=
  find (fun t' => bool_decide (filename t' = filename t /\ length_ t' = length_ t /\
                                hashes t' = hashes t))
       (trusted_targets x).

(** A server that answers every request the same way each time: the Root
    it serves for a version, and the latest document of each role. *)
Record Server := mkServer {
  served_root : RepositoryType -> Z -> option Meta;
  served_latest : RepositoryType -> Role -> option Meta
}.

(** The rest of the device, by the answers it gives; [flag_removal] is
    the answer to the removal of the reboot flag file. *)
Record Device := mkDevice {
  primary_serial : EcuSerial;
  reported_images : gmap string string;
  put_ok : Result bool;
  running : option Target;
  install_outcome : Result data.InstallOutcome;
  reboot_flag_present : bool;
  under_init : bool;
  report_queue : list Meta;
  flag_removal : Result unit
}.

#[global] Instance carriers : Carriers := {|
  Blob := Meta;
  Repo := Repository;
  Net := Server;
  Env := Device;
  Manifest := unit
|}.

#[global] Instance collaborators : Collaborators := {|
  extractVersionUntrusted := meta_version;
  repo_resetMeta := fun _ => reset_meta;
  repo_initRoot := fun _ => init_root;
  repo_verifyRoot := fun _ => verify_root;
  repo_verifyTimestamp := fun _ => verify_role Timestamp;
  repo_verifySnapshot := fun _ => verify_role Snapshot;
  repo_verifyTargets := fun _ => verify_role Targets;
  repo_rootVersion := fun _ x =>
    match current_root x with Some b => meta_version b | None => -1 end;
  repo_rootExpired := fun _ x => expired (current_root x);
  repo_timestampExpired := fun _ x => expired (timestamp x);
  repo_snapshotExpired := fun _ x => expired (snapshot x);
  repo_targetsExpired := fun _ x => expired (targets x);
  repo_snapshotSize := fun _ _ => 0;
  repo_targetsSize := fun _ _ => 0;
  repo_getLastException := fun _ => last_error;
  repo_getTargets := fun _ => trusted_targets;
  repo_getTarget := fun _ => matching_target;
  fetcher_fetchRole := fun _ r role version n =>
    (match role with
     | Root => served_root n r version
     | _ => served_latest n r role
     end, n);
  fetcher_fetchLatestRole := fun _ r role n => (served_latest n r role, n);
  fetcher_fetchVerifyTarget := fun _ n => (Ret true, n);
  env_reportHwInfo := fun e => (Ret tt, e);
  env_reportInstalledPackages := fun e => (Ret tt, e);
  env_reportNetworkInfo := fun e => (Ret tt, e);
  env_AssembleManifest := fun _ e => (Ret tt, reported_images e, e);
  manifest_hasPendingUpdates := fun _ => false;
  env_putSignedManifest := fun _ e => (put_ok e, e);
  env_sendMetadataToEcus := fun _ _ e => (Ret tt, e);
  env_sendImagesToEcus := fun _ _ e => (Ret tt, e);
  env_enqueueDownloadReport := fun b e =>
    mkDevice (primary_serial e) (reported_images e) (put_ok e) (running e)
      (install_outcome e) (reboot_flag_present e) (under_init e)
      (report_queue e ++ [b]) (flag_removal e);
  env_primaryEcuSerial := primary_serial;
  env_isCurrentOnPrimary := fun t e => Ret (bool_decide (running e = Some t));
  env_updateNotify := fun e => (Ret tt, e);
  env_install := fun _ e => (install_outcome e, e);
  env_rebootFlagExists := fun e => Ret (reboot_flag_present e);
  env_rebootFlagRemove := fun e =>
    match flag_removal e with
    | Ret _ =>
        (Ret tt,
         mkDevice (primary_serial e) (reported_images e) (put_ok e) (running e)
           (install_outcome e) false (under_init e) (report_queue e)
           (flag_removal e))
    | Throw what => (Throw what, e)
    end;
  env_parentIsInit := under_init
|}.

(** A device with nothing stored and nothing trusted yet. *)
Definition empty_storage : Storage :=
  mkStorage (fun _ => []) (fun _ _ => None) None [].
Definition empty_repository : Repository :=
  mkRepository None None None None NoException.
Definition quiet_device : Device :=
  mkDevice "primary" ∅ (Ret true) None (Ret (data.kOk, "installed"))
    false false [] (Ret tt).

Definition initial_state (st : Storage) (n : Server) (e : Device)
    (pm : PackageManagerType) (hw : gmap string HardwareIdentifier) : State :=
  mkState st empty_repository empty_repository n e pm NoException hw ∅
    [] false false [].

(** *** Scenarios *)

(** A valid Root and a valid Targets document of a given version. *)
Definition root_v (version : Z) : Meta := mkMeta Root version false true [].
Definition targets_v (version : Z) : Meta := mkMeta Targets version false true [].

(** Scenario S4: Root 1 and Director Targets 7 are stored. *)
Definition storage_targets_7 : Storage :=
  mkStorage
    (fun r => match r with Director => [(1, root_v 1)] | Images => [] end)
    (fun r role =>
       match r, role with
       | Director, Targets => Some (targets_v 7)
       | _, _ => None
       end)
    None [].

(** A server whose latest Root is version [latest], which serves a valid
    Root for every version asked for and Targets 6 as the latest Director
    Targets. *)
Definition server_with_root (latest : Z) : Server :=
  mkServer (fun _ version => Some (root_v version))
    (fun _ role =>
       match role with
       | Root => Some (root_v latest)
       | Targets => Some (targets_v 6)
       | _ => None
       end).

(** S4 with the Root unchanged on the server, with a new Root 2 on the
    server, and with Root 1026 on the server. *)
Definition state_with_server_root (latest : Z) : State :=
  initial_state storage_targets_7 (server_with_root latest) quiet_device kOstree ∅.
Definition rollback_state : State := state_with_server_root 1.
Definition rollback_after_rotation_state : State := state_with_server_root 2.
Definition long_rotation_state : State := state_with_server_root 1026.

(** Scenario S7: the stored Director Root has expired and the server has
    no newer one. *)
Definition expired_root : Meta := mkMeta Root 1 true true [].
Definition expired_root_state : State :=
  initial_state
    (mkStorage
       (fun r => match r with Director => [(1, expired_root)] | Images => [] end)
       (fun _ _ => None) None [])
    (mkServer (fun _ _ => None)
       (fun _ role => match role with Root => Some expired_root | _ => None end))
    quiet_device kOstree ∅.


(** A device that was never provisioned with metadata. *)
Definition blank_state : State :=
  initial_state empty_storage (mkServer (fun _ _ => None) (fun _ _ => None))
    quiet_device kOstree ∅.

(** An OSTree target for the Primary, a binary target for the Primary, and
    a device whose package manager is not the OSTree one. *)
Definition ostree_target : Target :=
  mkTarget "os-2.0" [("primary", "hw")] [mkHash kSha256 "C0FFEE"] 0 "OSTREE".
Definition binary_target : Target :=
  mkTarget "app-2.0.bin" [("primary", "hw")] [mkHash kSha256 "BEEF"] 4096 "binary".
Definition debian_state : State :=
  initial_state empty_storage (mkServer (fun _ _ => None) (fun _ _ => None))
    quiet_device kDebian ∅.

End Reference.

(** ** What a selected target can rely on *)

Module Authorisation.

Section Authorised.

Variable hw_ids : gmap string HardwareIdentifier.
Variable installed_images : gmap string string.

(** An ECU entry of a target that the scan of [getNewTargets] walks past:
    the serial is in the inventory with the declared hardware identifier
    and an installed image is on record for it. *)
Definition entry_authorised (e : EcuSerial * HardwareIdentifier) : Prop :=
  hw_ids !! e.1 = Some e.2 /\ is_Some (installed_images !! e.1).

Definition authorised (t : Target) : Prop :=
  Forall entry_authorised (ecus t).

#[global] Instance entry_authorised_dec e : Decision (entry_authorised e).
Proof. unfold entry_authorised. apply _. Defined.

#[global] Instance authorised_dec t : Decision (authorised t).
Proof. unfold authorised. apply _. Defined.

End Authorised.

End Authorisation.

(** ** Reading the call log *)

Module CallLog.

Import Client.

Section WithCollaborators.

Context `{C : Collaborators}.

(** The repository a call is made for; [None] for the install call. *)
Definition call_repo (c : Call) : option RepositoryType :=
  match c with
  | CFetchRole r _ _ _ | CFetchLatestRole r _ _ | CInitRoot r _
  | CVerifyRoot r _ | CVerifyRole r _ _ | CExpired r _ _
  | CStoreRoot r _ | CClearNonRootMeta r | CStoreNonRoot r _ => Some r
  | CInstall _ => None
  end.

Definition for_repo (r : RepositoryType) (c : Call) : bool :=
  bool_decide (call_repo c = Some r).

(** The calls that go to the network. *)
Definition is_fetch (c : Call) : bool :=
  match c with
  | CFetchRole _ _ _ _ | CFetchLatestRole _ _ _ => true
  | _ => false
  end.

(** The verifications of Timestamp, Snapshot and Targets and the expiry
    checks, which decide whether a metadata check passes. *)
Definition is_check (c : Call) : bool :=
  match c with
  | CVerifyRole _ _ _ | CExpired _ _ _ => true
  | _ => false
  end.

(** The roles other than Root that a metadata check goes through, in the
    order of the source. *)
Definition roles_of (k : MetaCheck) : list Role :=
  match k with
  | OnlineDirector | OfflineDirector => [Targets]
  | OnlineImages | OfflineImages => [Timestamp; Snapshot; Targets]
  end.

(** The verifications and expiry checks of a metadata check that passes. *)
Definition passing_checks (k : MetaCheck) : list Call :=
  CExpired (check_repo k) Root false ::
  flat_map (fun role => [CVerifyRole (check_repo k) role true;
                         CExpired (check_repo k) role false])
           (roles_of k).

(** The versions under which Roots of [r] were stored, and the number of
    Roots of [r] accepted by [verifyRoot], in a list of calls. *)
Fixpoint stored_root_versions (r : RepositoryType) (d : list Call) : list Z :=
  match d with
  | [] => []
  | CStoreRoot r' version :: rest =>
      if decide (r' = r) then version :: stored_root_versions r rest
      else stored_root_versions r rest
  | _ :: rest => stored_root_versions r rest
  end.

Definition accepts_root (r : RepositoryType) (c : Call) : bool :=
  match c with
  | CVerifyRoot r' true => bool_decide (r' = r)
  | _ => false
  end.

(** A computation that passes only after exactly the checks [l]. *)
Definition passes_after (c : M bool) (l : list Call) : Prop :=
  forall s, fst (c s) = true ->
    exists d, calls (snd (c s)) = calls s ++ d /\ List.filter is_check d = l.

(** A computation that leaves network and storage alone and makes no
    fetch. *)
Definition offline {A} (c : M A) : Prop :=
  forall s,
    net (snd (c s)) = net s /\ storage (snd (c s)) = storage s /\
    exists d, calls (snd (c s)) = calls s ++ d /\
              forallb (fun c => negb (is_fetch c)) d = true.

(** The versions [first], [first + 1], ... ([n] of them). *)
Fixpoint versions_from (first : Z) (n : nat) : list Z :=
  match n with
  | O => []
  | S n' => first :: versions_from (first + 1) n'
  end.

End WithCollaborators.

End CallLog.

(** ** What a run reads and leaves behind *)

Module Observed.

Import Client.

Section WithCollaborators.

Context `{C : Collaborators}.

(** [local_version] of the blocks that refresh Timestamp, Snapshot and
    Targets: the version read from the stored document of the role, [-1]
    when none is stored. *)
Definition stored_version (r : RepositoryType) (role : Role) (st : Storage)
  : Z :=
  match non_root st r role with
  | Some meta_stored => extractVersionUntrusted meta_stored
  | None => -1
  end.

(** [images_repo.getTarget(t) != nullptr] in [downloadImages]. *)
Definition has_image (s : State) (t : Target) : bool :=
  bool_decide (is_Some (repo_getTarget Images (images_repo s) t)).

(** A computation that leaves the [shutdown] member alone. *)
Definition keeps_running {A} (c : M A) : Prop :=
  forall s, shutdown (snd (c s)) = shutdown s.
Definition keeps_runningx {A} (c : MX A) : Prop :=
  forall s, shutdown (snd (c s)) = shutdown s.

End WithCollaborators.

End Observed.

(** ** The packages file ([OstreeManager::getInstalledPackages]) *)

Module Packages.

Import Client.

(** One element of the array returned by [getInstalledPackages]: an
    object with the members [name] and [version]. *)
Record Package := mkPackage { name : string; version : string }.

(** The line feed, the one delimiter given to [boost::is_any_of]. *)
Definition line_feed : Ascii.ascii := Eval cbv in Ascii.ascii_of_nat 10.

(** The space that [find] looks for. *)
Definition space : Ascii.ascii := Eval cbv in Ascii.ascii_of_nat 32.

(** [boost::split(package_lines, packages_str, boost::is_any_of("\n"))]:
    the pieces between the line feeds, empty pieces included; a string
    without line feed is one piece. *)
Fixpoint split_lines (s : string) : list string :=
  match s with
  | EmptyString => [EmptyString]
  | String c rest =>
      if Ascii.eqb c line_feed then EmptyString :: split_lines rest
      else match split_lines rest with
           | piece :: pieces => String c piece :: pieces
           | [] => [String c EmptyString]
           end
  end.

(** [std::string::find] for a string of one character: the position of
    its first occurrence, [None] for [npos]. *)
Fixpoint find_char (c : Ascii.ascii) (s : string) : option nat :=
  match s with
  | EmptyString => None
  | String a rest =>
      if Ascii.eqb a c then Some 0%nat else S <$> find_char c rest
  end.

(** [s.substr(pos)]: from [pos] to the end. *)
Definition substr_from (pos : nat) (s : string) : string :=
  String.substring pos (String.length s - pos) s.

(** The loop over [package_lines]; [packages] is the array built so
    far. *)
Fixpoint parse_lines (package_lines : list string) (packages : list Package)
  : Result (list Package) :=
  match package_lines with
  | [] => Ret packages
  | it :: rest =>
      if decide (it = EmptyString) then parse_lines rest packages
      else
        match find_char space it with
        | None => Throw "Wrong packages file format"
        | Some pos =>
            parse_lines rest
              (packages
               ++ [mkPackage (String.substring 0 pos it)
                     (substr_from (pos + 1) it)])
        end
  end.

(** [packages_str] is the content of [config.packages_file]. *)
Definition getInstalledPackages (packages_str : string)
  : Result (list Package) :=
  parse_lines (split_lines packages_str) [].

(** A packages file with one line per package: name, a space, version,
    line feed. *)
Definition package_line (p : Package) : string :=
  name p +:+ " " +:+ version p.
Fixpoint packages_file (packages : list Package) : string :=
  match packages with
  | [] => EmptyString
  | p :: rest => package_line p +:+ String line_feed (packages_file rest)
  end.

(** A package that can be written on one line and read back: no space
    and no line feed in its name, no line feed in its version. *)
Definition writable (p : Package) : Prop :=
  find_char space (name p) = None /\
  find_char line_feed (name p) = None /\
  find_char line_feed (version p) = None.

End Packages.

(** ** Secondaries ([initSecondaries], [verifySecondaries],
    [rotateSecondaryRoot], [sendMetadataToEcus]) *)

Module Secondaries.

Import Client CallLog.

(** [EcuState] and [MisconfiguredEcu], by the constructor calls
    [emplace_back(serial, hardware_id, state)]. *)
Inductive EcuState := kOld | kNotRegistered.

Record MisconfiguredEcu := mkMisconfiguredEcu {
  serial : EcuSerial;
  hardware_id : HardwareIdentifier;
  state : EcuState
}.

(** [EcuSerials]: the vector of (serial, hardware identifier) pairs read
    by [loadEcuSerials]. *)
Definition EcuSerials := list (EcuSerial * HardwareIdentifier).

(** [Uptane::RawMetaPack] with the six members filled by
    [sendMetadataToEcus]. *)
Record RawMetaPack `{K : Carriers} := mkRawMetaPack {
  director_root : Blob;
  director_targets : Blob;
  image_root : Blob;
  image_timestamp : Blob;
  image_snapshot : Blob;
  image_targets : Blob
}.
Arguments mkRawMetaPack {K} _ _ _ _ _ _.

(** [Uptane::SecondaryInterface], by the member functions the client
    calls.  The interface is declared outside the files at hand, so the
    client is modelled over any implementation.  [Secondary] is the state
    of one Secondary object; [putRoot] and [putMetadata] may change it.
    [makeSecondary] is [Uptane::SecondaryFactory::makeSecondary]. *)
Class SecondaryInterface `{K : Carriers} := {
  Secondary : Type;
  SecondaryConfig : Type;
  makeSecondary : SecondaryConfig -> Secondary;
  getSerial : Secondary -> EcuSerial;
  getHwId : Secondary -> HardwareIdentifier;
  getRootVersion : bool -> Secondary -> Z;
  putRoot : Blob -> bool -> Secondary -> bool * Secondary;
  putMetadata : RawMetaPack -> Secondary -> bool * Secondary
}.

Section WithSecondaries.

Context `{C : Collaborators} `{!SecondaryInterface}.

Open Scope st_scope.

(** *** [initSecondaries] *)

(** [std::map::insert]: the entry is added unless the key is there. *)
Definition map_insert {V} (k : string) (v : V) (m : gmap string V)
  : gmap string V :=
  match m !! k with
  | Some _ => m
  | None => <[k := v]> m
  end.

(** The members [secondaries] and [hw_ids]. *)
Definition Inventory : Type :=
  gmap string Secondary * gmap string HardwareIdentifier.

(** The loop over [config.uptane.secondary_configs]. *)
Fixpoint initSecondaries (secondary_configs : list SecondaryConfig)
    (inv : Inventory) : Inventory :=
  match secondary_configs with
  | [] => inv
  | it :: rest =>
      let sec := makeSecondary it in
      let sec_serial := getSerial sec in
      let sec_hw_id := getHwId sec in
      match inv.1 !! sec_serial with
      | Some _ => initSecondaries rest inv
      | None =>
          initSecondaries rest
            (<[sec_serial := sec]> inv.1, map_insert sec_serial sec_hw_id inv.2)
      end
  end.

(** The first of the configured Secondaries that reports a serial. *)
Definition first_with_serial (secondary_configs : list SecondaryConfig)
    (sec_serial : EcuSerial) : option Secondary :=
  find (fun sec => bool_decide (getSerial sec = sec_serial))
       (makeSecondary <$> secondary_configs).

(** *** [verifySecondaries] *)

Section Verify.

(** [SerialCompare] is declared outside the files at hand: a predicate
    on the entries of [EcuSerials] built from a serial. *)
Variable SerialCompare : EcuSerial -> EcuSerial * HardwareIdentifier -> bool.

(** How [verifySecondaries] ends: it returns before
    [storeMisconfiguredEcus] when no serials are stored; it reads through
    the end iterator when the Primary is not among the stored serials;
    otherwise it stores the list. *)
Inductive Verified :=
| NothingStored
| ReadsPastTheEnd
| StoreMisconfiguredEcus (misconfigured_ecus : list MisconfiguredEcu).

(** The body of the loop over [secondaries]: [misconfigured_ecus] and
    [found] are the two vectors it updates. *)
Definition check_secondary (serials : EcuSerials)
    (acc : list MisconfiguredEcu * list bool) (sec : Secondary)
  : list MisconfiguredEcu * list bool :=
  let '(misconfigured_ecus, found) := acc in
  match list_find (fun e => SerialCompare (getSerial sec) e = true) serials with
  | None =>
      (misconfigured_ecus
       ++ [mkMisconfiguredEcu (getSerial sec) (getHwId sec) kNotRegistered],
       found)
  | Some (i, _) =>
      if default false (found !! i) then (misconfigured_ecus, found)
      else (misconfigured_ecus, <[i := true]> found)
  end.

(** The loop over [found]: [found] has the length of [serials], and the
    entry of [serials] at the same distance is reported when the flag is
    not set. *)
Fixpoint not_reported (serials : EcuSerials) (found : list bool)
  : list MisconfiguredEcu :=
  match found, serials with
  | flag :: found', not_registered :: serials' =>
      (if flag : bool then []
       else [mkMisconfiguredEcu not_registered.1 not_registered.2 kOld])
      ++ not_reported serials' found'
  | _, _ => []
  end.

(** [loaded] is what [loadEcuSerials] gives, [None] when it returns
    [false]; [secondaries] are the values of the member map in its
    iteration order. *)
Definition verifySecondaries (loaded : option EcuSerials)
    (primary : EcuSerial) (secondaries : list Secondary) : Verified :=
  match loaded with
  | None | Some [] => NothingStored
  | Some serials =>
      let found := replicate (length serials) false in
      match list_find (fun e => SerialCompare primary e = true) serials with
      | None => ReadsPastTheEnd
      | Some (i, _) =>
          let found := <[i := true]> found in
          let '(misconfigured_ecus, found) :=
            foldl (check_secondary serials) ([], found) secondaries in
          StoreMisconfiguredEcus
            (misconfigured_ecus ++ not_reported serials found)
      end
  end.

End Verify.

(** The [found] flags of the stored entries [l] once the serials [seen]
    have been looked up. *)
Definition found_in (seen : list EcuSerial) (l : EcuSerials) : list bool :=
  (fun e => bool_decide (e.1 ∈ seen)) <$> l.

(** *** [rotateSecondaryRoot] and [sendMetadataToEcus] *)

(** What is sent to a Secondary, in order, with the answer it gave.  The
    log is not a member of the C++ class. *)
Inductive Sent :=
| SentRoot (repo : RepositoryType) (version : Z) (root : Blob) (ok : bool)
| SentMetadata (meta : RawMetaPack) (ok : bool).

(** One Secondary with the fetcher's side and what was sent to it. *)
Record Link := mkLink {
  secondary : Secondary;
  link_net : Net;
  sent : list Sent
}.

(** Modelled from the spec: [loadRoot], the stored Root of a given
    version ([roots/(director|image)/v<N>.json] of §6). *)
Definition loadRoot (st : Storage) (repo : RepositoryType) (version : Z)
  : option Blob :=
  snd <$> find (fun e : Z * Blob => bool_decide (e.1 = version)) (roots st repo).

(** The body of [for (int v = sec_root_version + 1;
    v <= last_root_version; v++)], unrolled [n] times starting at [v]. *)
Fixpoint rotateLoop (st : Storage) (repo : RepositoryType) (n : nat) (v : Z)
  : ST Link unit :=
  match n with
  | O => ret tt
  | S n' =>
      fun l =>
        let '(found, net') :=
          match loadRoot st repo v with
          | Some root => (Some root, link_net l)
          | None => fetcher_fetchRole kMaxRootSize repo Root v (link_net l)
          end in
        match found with
        | None => (tt, mkLink (secondary l) net' (sent l))
        | Some root =>
            let '(ok, sec') :=
              putRoot root (bool_decide (repo = Director)) (secondary l) in
            rotateLoop st repo n' (v + 1)
              (mkLink sec' net' (sent l ++ [SentRoot repo v root ok]))
        end
  end.

Definition rotateSecondaryRoot (st : Storage) (repo : RepositoryType)
  : ST Link unit :=
  fun l =>
    match latest_root (roots st repo) with
    | None => (tt, l)
    | Some (_, latest) =>
        let last_root_version := extractVersionUntrusted latest in
        let sec_root_version :=
          getRootVersion (bool_decide (repo = Director)) (secondary l) in
        if 0 <=? sec_root_version then
          rotateLoop st repo (Z.to_nat (last_root_version - sec_root_version))
            (sec_root_version + 1) l
        else (tt, l)
    end.

(** The six loads at the head of [sendMetadataToEcus]; [None] when one
    of them fails. *)
Definition loadMetaPack (st : Storage) : option RawMetaPack :=
  match latest_root (roots st Director), non_root st Director Targets,
        latest_root (roots st Images), non_root st Images Timestamp,
        non_root st Images Snapshot, non_root st Images Targets with
  | Some (_, dr), Some dt, Some (_, ir), Some its, Some isn, Some it =>
      Some (mkRawMetaPack dr dt ir its isn it)
  | _, _, _, _, _, _ => None
  end.

(** The member map [secondaries] with the fetcher's side and what was
    sent to each serial. *)
Record Fleet := mkFleet {
  secondaries : gmap string Secondary;
  fleet_net : Net;
  fleet_sent : list (EcuSerial * Sent)
}.

(** The body of the inner loop, for one entry of [targets_it->ecus()]. *)
Definition sendToEcu (st : Storage) (meta : RawMetaPack)
    (ecu_serial : EcuSerial) : ST Fleet unit :=
  fun f =>
    match secondaries f !! ecu_serial with
    | None => (tt, f)
    | Some sec =>
        let l :=
          snd ((rotateSecondaryRoot st Director ;;
                rotateSecondaryRoot st Images) (mkLink sec (fleet_net f) [])) in
        let '(ok, sec') := putMetadata meta (secondary l) in
        (tt, mkFleet (<[ecu_serial := sec']> (secondaries f)) (link_net l)
               (fleet_sent f
                ++ ((fun x => (ecu_serial, x)) <$> sent l)
                ++ [(ecu_serial, SentMetadata meta ok)]))
    end.

Fixpoint for_each {S A} (body : A -> ST S unit) (l : list A) : ST S unit :=
  match l with
  | [] => ret tt
  | a :: rest => body a ;; for_each body rest
  end.

Definition sendMetadataToEcus (st : Storage) (targets : list Target)
  : ST Fleet unit :=
  match loadMetaPack st with
  | None => ret tt
  | Some meta =>
      for_each
        (fun t => for_each (fun e => sendToEcu st meta e.1) (ecus t))
        targets
  end.

(** The serials to which metadata goes: the entries of the targets' ECU
    maps, in order, that are keys of [secondaries]. *)
Definition recipients (known : gmap string Secondary) (targets : list Target)
  : list EcuSerial :=
  filter (fun ecu_serial => is_Some (known !! ecu_serial))
         (flat_map (fun t => (ecus t).*1) targets).

Definition is_root_of (ecu_serial : EcuSerial) (x : EcuSerial * Sent) : Prop :=
  exists repo version root ok, x = (ecu_serial, SentRoot repo version root ok).

(** What one recipient is sent: Roots, then the metadata pack. *)
Definition transmission (meta : RawMetaPack) (ecu_serial : EcuSerial)
    (chunk : list (EcuSerial * Sent)) : Prop :=
  exists roots ok,
    chunk = roots ++ [(ecu_serial, SentMetadata meta ok)] /\
    Forall (is_root_of ecu_serial) roots.

Definition sent_version (x : Sent) : option Z :=
  match x with
  | SentRoot _ version _ _ => Some version
  | SentMetadata _ _ => None
  end.

(** What a rotation adds to the log of a Secondary: [k] Roots of [repo]
    under the versions [v], [v + 1], ..., each the stored Root of its
    version when there is one. *)
Definition roots_from (st : Storage) (repo : RepositoryType) (v : Z) (k : nat)
    (new : list Sent) : Prop :=
  omap sent_version new = versions_from v k /\
  Forall (fun x =>
            exists version root ok,
              x = SentRoot repo version root ok /\
              forall stored, loadRoot st repo version = Some stored -> root = stored)
         new.

End WithSecondaries.

End Secondaries.

(** ** Network telemetry ([SotaUptaneClient::reportNetworkInfo]) *)

Module Telemetry.

Section Report.

(** [Json::Value], of which the code only uses the comparison [!=]. *)
Context {Json : Type} `{EqDecision Json}.

(** What [reportNetworkInfo] reads and writes: the switch
    [config.telemetry.report_network], the member
    [last_network_info_reported], and the bodies PUT to
    [/system_info/network] so far.  The list of bodies is not a member of
    the C++ class. *)
Record Reporter := mkReporter {
  report_network : bool;
  last_network_info_reported : Json;
  network_puts : list Json
}.

(** [network_info] is what [Utils::getNetworkInfo] returns;
    [response_ok] is [response.isOk()] of the PUT, when one is made. *)
Definition reportNetworkInfo (network_info : Json) (response_ok : bool)
    (r : Reporter) : Reporter :=
  if report_network r then
    if decide (network_info <> last_network_info_reported r) then
      mkReporter (report_network r)
        (if response_ok then network_info else last_network_info_reported r)
        (network_puts r ++ [network_info])
    else r
  else r.

(** Successive calls while the network information stays the same;
    [responses] are the answers the server would give to each. *)
Definition report_each (network_info : Json) (responses : list bool)
    (r : Reporter) : Reporter :=
  foldl (fun r response_ok => reportNetworkInfo network_info response_ok r)
        r responses.

(** The calls up to and including the first that is answered well. *)
Fixpoint attempts (responses : list bool) : nat :=
  match responses with
  | [] => 0
  | response_ok :: rest => S (if response_ok : bool then 0 else attempts rest)
  end.

End Report.

Arguments Reporter Json : clear implicits.

End Telemetry.

(** ** Further scenarios *)

Module Scenarios.

Import Client Secondaries.

(** A device whose manifest the Director refuses. *)
Definition refused_state : @State Reference.carriers :=
  Reference.initial_state Reference.storage_targets_7
    (Reference.server_with_root 2)
    (Reference.mkDevice "primary" ∅ (Ret false) None
       (Ret (data.kOk, "installed")) false false [] (Ret tt))
    kOstree ∅.

(** A device that has just been updated: the reboot flag file is there
    and cannot be removed. *)
Definition stuck_flag_state : @State Reference.carriers :=
  Reference.initial_state Reference.empty_storage
    (Reference.mkServer (fun _ _ => None) (fun _ _ => None))
    (Reference.mkDevice "primary" ∅ (Ret true) None
       (Ret (data.kOk, "installed")) true false []
       (Throw "remove: Operation not permitted"))
    kOstree ∅.

(** A provisioned device: Root 1 of both repositories is stored with
    the other documents of each, the Director Targets assign an OSTree
    target to the Primary, and the Primary reports another image. *)
Definition provisioned_storage : @Storage Reference.carriers :=
  mkStorage
    (fun _ => [(1, Reference.root_v 1)])
    (fun r role =>
       match r, role with
       | _, Targets =>
           Some (Reference.mkMeta Targets 3 false true [Reference.ostree_target])
       | Images, Timestamp => Some (Reference.mkMeta Timestamp 5 false true [])
       | Images, Snapshot => Some (Reference.mkMeta Snapshot 4 false true [])
       | _, _ => None
       end)
    None [].
Definition provisioned_state : @State Reference.carriers :=
  Reference.initial_state provisioned_storage
    (Reference.mkServer (fun _ _ => None) (fun _ _ => None))
    (Reference.mkDevice "primary" {["primary" := "os-1.0"]} (Ret true) None
       (Ret (data.kOk, "installed")) false false [] (Ret tt))
    kOstree {["primary" := "hw"]}.

(** Modelled from the spec: a Secondary of §4.5, by what it answers: its
    serial and hardware identifier, the Root version it holds for each
    repository, and whether it accepts what it is sent; a Root it accepts
    becomes the Root it holds. *)
Record VirtualSecondary := mkVirtualSecondary {
  virtual_serial : EcuSerial;
  virtual_hw_id : HardwareIdentifier;
  director_version : Z;
  images_version : Z;
  accepting : bool
}.

#[global] Instance virtual_secondary
  : SecondaryInterface (K := Reference.carriers) := {|
  Secondary := VirtualSecondary;
  SecondaryConfig := VirtualSecondary;
  makeSecondary := fun config => config;
  getSerial := virtual_serial;
  getHwId := virtual_hw_id;
  getRootVersion := fun director sec =>
    if director : bool then director_version sec else images_version sec;
  putRoot := fun root director sec =>
    if accepting sec then
      (true,
       if director : bool then
         mkVirtualSecondary (virtual_serial sec) (virtual_hw_id sec)
           (Reference.meta_version root) (images_version sec) true
       else
         mkVirtualSecondary (virtual_serial sec) (virtual_hw_id sec)
           (director_version sec) (Reference.meta_version root) true)
    else (false, sec);
  putMetadata := fun _ sec => (accepting sec, sec)
|}.

(** A comparison of the serial of a stored entry with a given one, for
    [SerialCompare]. *)
Definition serial_equal (sec_serial : EcuSerial)
    (e : EcuSerial * HardwareIdentifier) : bool :=
  bool_decide (e.1 = sec_serial).

(** Stored serials and configured Secondaries that disagree: [S_gone] is
    stored but not configured, [S_new] is configured but not stored. *)
Definition stored_serials : EcuSerials :=
  [("primary", "hw-p"); ("S1", "hw-1"); ("S_gone", "hw-g")].
Definition configured_secondaries
  : list (Secondary (SecondaryInterface := virtual_secondary)) :=
  [mkVirtualSecondary "S1" "hw-1" 1 1 true;
   mkVirtualSecondary "S_new" "hw-n" 1 1 true].

End Scenarios.

(** * Properties *)

(** ** Target selection *)

Module TargetSelectionFacts.

Import TargetSelection.

Section Facts.

Variable hw_ids : gmap string HardwareIdentifier.
Variable installed_images : gmap string string.

Local Abbreviation scan := (scan_ecus hw_ids installed_images).
Local Abbreviation select := (getNewTargets hw_ids installed_images).

Lemma scan_app_passable fname before rest is_new :
  Forall (passable hw_ids installed_images) before ->
  scan fname (before ++ rest) is_new = None \/
  exists b, scan fname (before ++ rest) is_new = scan fname rest b.
Proof.
  intros Hall. revert is_new.
  induction Hall as [| [s d] before [[h Hh] [img Himg]] _ IH]; intros is_new.
  - right. by exists is_new.
  - simpl in *. rewrite Hh, Himg.
    destruct (decide (h = d)); [| by left].
    destruct (decide (img = fname)); apply IH.
Qed.

Lemma scan_mismatch_reached fname before s declared known after is_new :
  Forall (passable hw_ids installed_images) before ->
  hw_ids !! s = Some known -> known <> declared ->
  scan fname (before ++ (s, declared) :: after) is_new = None.
Proof.
  intros Hall Hs Hne.
  destruct (scan_app_passable fname before ((s, declared) :: after) is_new Hall)
    as [-> | [b ->]]; [done |].
  simpl. rewrite Hs. by destruct (decide (known = declared)).
Qed.

Lemma scan_unknown_reached fname before s declared after is_new :
  Forall (no_mismatch hw_ids) before ->
  hw_ids !! s = None ->
  scan fname (before ++ (s, declared) :: after) is_new = Some false.
Proof.
  intros Hall Hs. revert is_new.
  induction Hall as [| [s' d'] before Hok _ IH]; intros is_new; simpl.
  - by rewrite Hs.
  - destruct (hw_ids !! s') as [h |] eqn:Hh; [| done].
    rewrite (Hok h Hh). simpl.
    destruct (decide (d' = d')); [| done].
    destruct (installed_images !! s'); [| done].
    destruct (decide (_ = fname)); apply IH.
Qed.

Lemma select_aborts pre t post acc :
  scan (filename t) (ecus t) true = None ->
  select (pre ++ t :: post) acc = (false, (select pre acc).2).
Proof.
  intros Ht. revert acc.
  induction pre as [| t' pre IH]; intros acc; simpl.
  - by rewrite Ht.
  - destruct (scan (filename t') (ecus t') true) as [[] |]; [apply IH.. | done].
Qed.

Lemma select_skips pre t post acc :
  scan (filename t) (ecus t) true = Some false ->
  select (pre ++ t :: post) acc = select (pre ++ post) acc.
Proof.
  intros Ht. revert acc.
  induction pre as [| t' pre IH]; intros acc; simpl.
  - by rewrite Ht.
  - destruct (scan (filename t') (ecus t') true) as [[] |]; [apply IH.. | done].
Qed.

Lemma select_output targets acc x :
  x ∈ (select targets acc).2 ->
  x ∈ acc \/ (x ∈ targets /\ scan (filename x) (ecus x) true = Some true).
Proof.
  revert acc. induction targets as [| t rest IH]; intros acc; simpl.
  - by left.
  - destruct (scan (filename t) (ecus t) true) as [[] |] eqn:Ht; intros Hx.
    + apply IH in Hx as [Hx | [Hx Hs]].
      * apply elem_of_app in Hx as [Hx | Hx]; [by left |].
        apply list_elem_of_singleton in Hx as ->.
        right. split; [left | done].
      * right. split; [by right | done].
    + apply IH in Hx as [Hx | [Hx Hs]]; [by left |].
      right. split; [by right | done].
    + by left.
Qed.

Lemma scan_installed_everywhere t :
  installed_everywhere hw_ids installed_images t ->
  scan (filename t) (ecus t) true = Some true.
Proof.
  unfold installed_everywhere. generalize (filename t) as fname.
  intros fname Hall.
  induction Hall as [| [s d] es [Hh Himg] _ IH]; simpl in *; [done |].
  rewrite Hh, Himg.
  destruct (decide (d = d)); [| done].
  by destruct (decide (fname = fname)).
Qed.

(** A target that is installed on all its ECUs is appended to the output
    all the same. *)
Lemma select_installed_everywhere t acc :
  installed_everywhere hw_ids installed_images t ->
  select [t] acc = (true, acc ++ [t]).
Proof. intros Ht. simpl. by rewrite scan_installed_everywhere. Qed.

End Facts.

End TargetSelectionFacts.

Module TargetSelectionClaims.

Import TargetSelection TargetSelectionFacts.

(** C1, as the code has it: a Director target that is already installed
    on its only ECU (serial known, hardware identifier matching, installed
    file name equal to the target's) is not omitted; [getNewTargets]
    returns it as a new target.  The scan of a target starts with
    [is_new = true] and an ECU that already runs the file only
    [continue]s, so nothing ever clears the flag for such a target. *)
Theorem getNewTargets_keeps_installed_target :
  let hw_ids : gmap string HardwareIdentifier := {["S1" := "H1"]} in
  let installed_images : gmap string string := {["S1" := "image-1.0"]} in
  let t := mkTarget "image-1.0" [("S1", "H1")] [mkHash kSha256 "AB12"] 1024 "binary" in
  installed_everywhere hw_ids installed_images t /\
  getNewTargets hw_ids installed_images [t] [] = (true, [t]).
Proof.
  intros hw_ids installed_images t. split.
  - repeat constructor.
  - apply (f_equal (fun b => (true, b))). reflexivity.
Qed.

(** C2, as stated, fails: a list whose only target names the known serial
    "B" with a wrong hardware identifier, after the unknown serial "A",
    is not aborted; the target is skipped at "A" and the selection
    succeeds. *)
Lemma getNewTargets_mismatch_behind_unknown_serial :
  ~ (forall (hw_ids : gmap string HardwareIdentifier)
            (installed_images : gmap string string)
            (targets : list Target) (t : Target),
        t ∈ targets -> names_mismatch hw_ids t ->
        (getNewTargets hw_ids installed_images targets []).1 = false).
Proof.
  intros H.
  pose (t := mkTarget "new.img" [("A", "H_a"); ("B", "H_wrong")] [] 0 "binary").
  assert (Hfalse : (getNewTargets {["B" := "H_real"]} {["B" := "old.img"]} [t] []).1
                   = false).
  { apply (H _ _ _ t); [by left |].
    exists "B", "H_wrong", "H_real". split; [| split].
    - right. left.
    - reflexivity.
    - discriminate. }
  vm_compute in Hfalse. discriminate.
Qed.

(** C2, amended: when some target names a known serial with a hardware
    identifier other than the inventory's, and every entry before it in
    that target's ECU map (ascending serials) is a serial that is in the
    inventory and has a recorded installed image, [getNewTargets] returns
    [false], whatever the other targets are.  The output vector then holds
    what the targets before that one added to it. *)
Theorem getNewTargets_aborts_on_reached_mismatch
    (hw_ids : gmap string HardwareIdentifier)
    (installed_images : gmap string string)
    (pre post new_targets : list Target) (t : Target)
    (before after : EcuMap) (s : EcuSerial)
    (declared known : HardwareIdentifier) :
  ecus t = before ++ (s, declared) :: after ->
  Forall (passable hw_ids installed_images) before ->
  hw_ids !! s = Some known ->
  known <> declared ->
  getNewTargets hw_ids installed_images (pre ++ t :: post) new_targets
  = (false, snd (getNewTargets hw_ids installed_images pre new_targets)).
Proof.
  intros Hecus Hbefore Hs Hne.
  apply select_aborts. rewrite Hecus.
  by eapply scan_mismatch_reached.
Qed.

Lemma getNewTargets_aborts_on_reached_mismatch_witness :
  let hw_ids : gmap string HardwareIdentifier := {["S0" := "H0"; "S1" := "H_real"]} in
  let installed_images : gmap string string := {["S0" := "a.img"; "S1" := "a.img"]} in
  let a := mkTarget "a.img" [("S0", "H0")] [] 0 "binary" in
  let b := mkTarget "b.img" [("S0", "H0"); ("S1", "H_wrong")] [] 0 "binary" in
  getNewTargets hw_ids installed_images ([a] ++ b :: []) []
  = (false, snd (getNewTargets hw_ids installed_images [a] [])).
Proof.
  intros hw_ids installed_images a b.
  apply (getNewTargets_aborts_on_reached_mismatch
           hw_ids installed_images [a] [] [] b
           [("S0", "H0")] [] "S1" "H_wrong" "H_real").
  - reflexivity.
  - constructor; [| constructor].
    split; eexists; reflexivity.
  - reflexivity.
  - discriminate.
Defined.

(** The ECU maps used in the examples for C1, C2 and C3 are in ascending
    serial order, as the entries of a [std::map] are. *)
Lemma example_ecu_maps_sorted :
  ecumap_sorted [("S1", "H1")] = true /\
  ecumap_sorted [("A", "H_a"); ("B", "H_wrong")] = true /\
  ecumap_sorted [("A", "H_wrong"); ("B", "H_b")] = true /\
  ecumap_sorted [("S0", "H0"); ("S1", "H_wrong")] = true /\
  ecumap_sorted [("S1", "H1"); ("S_unknown", "H9")] = true.
Proof. repeat split. Qed.

(** C3, as stated, fails: a list whose only target names the unknown
    serial "B", after the known serial "A" with a wrong hardware
    identifier, is aborted at "A". *)
Lemma getNewTargets_unknown_serial_behind_mismatch :
  ~ (forall (hw_ids : gmap string HardwareIdentifier)
            (installed_images : gmap string string)
            (targets : list Target) (t : Target),
        t ∈ targets -> names_unknown hw_ids t ->
        (getNewTargets hw_ids installed_images targets []).1 = true /\
        t ∉ (getNewTargets hw_ids installed_images targets []).2).
Proof.
  intros H.
  pose (t := mkTarget "new.img" [("A", "H_wrong"); ("B", "H_b")] [] 0 "binary").
  assert (Hok : (getNewTargets {["A" := "H_real"]} {["A" := "old.img"]} [t] []).1
                = true).
  { apply (H _ _ _ t); [by left |].
    exists "B", "H_b". split; [right; left | reflexivity]. }
  vm_compute in Hok. discriminate.
Qed.

(** C3, amended: when a target names a serial that is not in the
    inventory and no entry before it in that target's ECU map (ascending
    serials) is a known serial with a differing hardware identifier, the
    target is skipped: it is never in the output, and the selection
    returns exactly what it returns for the list without that target, so
    that it succeeds whenever the selection over the remaining targets
    does. *)
Theorem getNewTargets_skips_unknown_serial
    (hw_ids : gmap string HardwareIdentifier)
    (installed_images : gmap string string)
    (pre post new_targets : list Target) (t : Target)
    (before after : EcuMap) (s : EcuSerial) (declared : HardwareIdentifier) :
  ecus t = before ++ (s, declared) :: after ->
  Forall (no_mismatch hw_ids) before ->
  hw_ids !! s = None ->
  getNewTargets hw_ids installed_images (pre ++ t :: post) new_targets
  = getNewTargets hw_ids installed_images (pre ++ post) new_targets /\
  (t ∉ new_targets ->
   t ∉ (getNewTargets hw_ids installed_images (pre ++ t :: post) new_targets).2).
Proof.
  intros Hecus Hbefore Hs.
  assert (Hscan : scan_ecus hw_ids installed_images (filename t) (ecus t) true
                  = Some false).
  { rewrite Hecus. by apply scan_unknown_reached. }
  split.
  - by apply select_skips.
  - intros Hnew Hin. apply select_output in Hin as [Hin | [_ Hin]]; [done |].
    rewrite Hscan in Hin. discriminate.
Qed.

Lemma getNewTargets_skips_unknown_serial_witness :
  let hw_ids : gmap string HardwareIdentifier := {["S1" := "H1"]} in
  let installed_images : gmap string string := {["S1" := "old.img"]} in
  let x := mkTarget "x.img" [("S1", "H1"); ("S_unknown", "H9")] [] 0 "binary" in
  let new := mkTarget "new.img" [("S1", "H1")] [] 0 "binary" in
  getNewTargets hw_ids installed_images ([] ++ x :: [new]) []
  = getNewTargets hw_ids installed_images ([] ++ [new]) [] /\
  (x ∉ [] -> x ∉ (getNewTargets hw_ids installed_images ([] ++ x :: [new]) []).2).
Proof.
  intros hw_ids installed_images x new.
  apply (getNewTargets_skips_unknown_serial
           hw_ids installed_images [] [new] [] x
           [("S1", "H1")] [] "S_unknown" "H9").
  - reflexivity.
  - constructor; [| constructor].
    intros h Hh. vm_compute in Hh. injection Hh as <-. reflexivity.
  - reflexivity.
Defined.

End TargetSelectionClaims.

(** ** Metadata refresh *)

Module ClientFacts.

Import Client.

Lemma forallb_elem {A} (p : A -> bool) (d : list A) (c : A) :
  forallb p d = true -> c ∈ d -> p c = true.
Proof.
  intros Hall Hin. rewrite forallb_forall in Hall.
  apply Hall. by apply list_elem_of_In.
Qed.

(** Unfolds one block of the refresh into its calls, splitting on the
    answer of every collaborator on the way. *)
Ltac run_block :=
  unfold proceed_if, bind, ret, loadLatestRoot, loadNonRoot, verifyRole, initRoot,
    verifyRoot, on_repo, roleExpired, rootVersion, fetchRole, fetchLatestRole,
    keepLastException, setLastException, storeRoot, storeNonRoot,
    clearNonRootMeta, resetMeta;
  simpl;
  repeat match goal with
         | |- context [match ?e with (_, _) => _ end] =>
             lazymatch e with
             | context [match _ with (_, _) => _ end] => fail
             | context [if _ then _ else _] => fail
             | _ => destruct e eqn:?; simpl
             end
         | |- context [match ?e with Some _ => _ | None => _ end] =>
             lazymatch e with
             | context [match _ with (_, _) => _ end] => fail
             | _ => destruct e eqn:?; simpl
             end
         | |- context [if ?e then _ else _] =>
             lazymatch e with
             | context [match _ with (_, _) => _ end] => fail
             | _ => destruct e eqn:?; simpl
             end
         end.

(** Closes the goal that the call log grew by a given list. *)
Ltac grown :=
  rewrite <- ?app_assoc; try reflexivity.

(** Finds the list by which the call log grew and leaves what is to be
    shown about it. *)
Ltac log_delta :=
  first [ exists []; split; [by rewrite app_nil_r |]
        | eexists; split; [simpl; rewrite <- ?app_assoc; reflexivity |] ].

(** Closes a bound on the Root fetches or verifications of an explicit
    list of calls. *)
Ltac count := unfold root_fetches, root_verifications in *; simpl in *; lia.

(** Closes the goal that a call is in a list of calls when it can be seen
    there. *)
Ltac is_among :=
  repeat (rewrite elem_of_app || rewrite elem_of_cons);
  intuition (auto; congruence).

(** Closes a goal with a hypothesis that puts a call in an explicit list
    of calls that does not have it. *)
Ltac absurd_member :=
  match goal with
  | H : _ ∈ _ |- _ =>
      exfalso;
      repeat (apply elem_of_cons in H as [H | H]; [discriminate H |]);
      by apply elem_of_nil in H
  end.

(** Closes a goal with a hypothesis that puts a call in a list of calls
    where it cannot be: each part of the list is either explicit or known
    to hold calls of another kind only. *)
Ltac member_cases :=
  match goal with
  | H : _ ∈ _ |- _ =>
      exfalso;
      repeat (rewrite elem_of_app in H || rewrite elem_of_cons in H);
      rewrite ?elem_of_nil in H;
      repeat match goal with
             | H' : _ \/ _ |- _ => destruct H' as [H' | H']
             | H' : False |- _ => destruct H'
             | H' : _ = _ |- _ => discriminate H'
             | H' : ?c ∈ ?d, Hall : forallb _ ?d = true |- _ =>
                 apply (forallb_elem _ _ _ Hall) in H'
             end
  end.

(** Closes the goal that a call is not in an explicit list of calls. *)
Ltac not_among :=
  let H := fresh in
  intros H;
  repeat (apply elem_of_cons in H as [H | H]; [discriminate H |]);
  by apply elem_of_nil in H.

Section Facts.

Context `{C : Collaborators}.

Lemma bind_run {A B} (c : M A) (k : A -> M B) s :
  bind c k s = k (c s).1 (c s).2.
Proof. unfold bind. by destruct (c s). Qed.

Lemma proceed_if_run (c k : M bool) s :
  proceed_if c k s = if (c s).1 then k (c s).2 else (false, (c s).2).
Proof. unfold proceed_if. rewrite bind_run. by destruct (c s).1. Qed.

Lemma called_by_steps {A} (c : M A) s d :
  calls (c s).2 = calls s ++ d -> called_by c s = d.
Proof. intros H. unfold called_by. rewrite H. apply drop_app_length. Qed.

Lemma root_fetches_app r d1 d2 :
  root_fetches r (d1 ++ d2) = (root_fetches r d1 + root_fetches r d2)%nat.
Proof. unfold root_fetches. by rewrite List.filter_app, length_app. Qed.

Lemma root_verifications_app r d1 d2 :
  root_verifications r (d1 ++ d2)
  = (root_verifications r d1 + root_verifications r d2)%nat.
Proof. unfold root_verifications. by rewrite List.filter_app, length_app. Qed.

Lemma root_only_phase d : forallb root_only d = true -> forallb root_phase d = true.
Proof.
  rewrite !forallb_forall. intros H c Hc. specialize (H c Hc).
  destruct c as [| | | | | ? [] ? | | | |]; done.
Qed.

Lemma role_only_fetches r d : forallb role_only d = true -> root_fetches r d = 0%nat.
Proof.
  induction d as [| c d IH]; [done |]. simpl.
  intros [Hc Hd]%andb_prop. unfold root_fetches in *. simpl.
  destruct c as [? [] | | | | | | | | |]; try done; by apply IH.
Qed.

Lemma loadInitialRoot_spec r s ok s' :
  loadInitialRoot r s = (ok, s') ->
  exists d,
    calls s' = calls s ++ d /\
    forallb root_only d = true /\
    (root_fetches r d <= 1)%nat /\
    root_verifications r d = 0%nat /\
    (CVerifyRoot r true ∉ d) /\
    non_root (storage s') = non_root (storage s).
Proof.
  unfold loadInitialRoot. destruct r; run_block; intros [= <- <-];
    (eexists; split; [simpl; grown |]);
    (repeat split; try reflexivity; try count; try not_among).
Qed.

Lemma rootRotation_spec r n version s ok s' :
  rootRotation r n version s = (ok, s') ->
  exists d,
    calls s' = calls s ++ d /\
    forallb root_only d = true /\
    (root_fetches r d <= n)%nat /\
    (root_verifications r d <= n)%nat /\
    (CVerifyRoot r true ∉ d -> storage s' = storage s).
Proof.
  revert version s. induction n as [| n IH]; intros version s; simpl.
  - intros [= <- <-]. exists []. rewrite app_nil_r. repeat split; count.
  - destruct r; run_block;
      try (intros [= <- <-]; eexists; split; [simpl; grown |];
           repeat split; try (intros; reflexivity); try count; fail).
    all: intros (d & Hd & Hall & Hf & Hv & _)%IH.
    all: eexists; split; [rewrite Hd; simpl; grown |].
    all: rewrite ?forallb_app, ?root_fetches_app, ?root_verifications_app.
    all: repeat split; [by rewrite Hall | count | count |].
    all: intros Hno; exfalso; apply Hno; is_among.
Qed.

Lemma updateRoot_spec r s ok s' :
  updateRoot r s = (ok, s') ->
  exists d,
    calls s' = calls s ++ d /\
    forallb root_phase d = true /\
    (root_fetches r d <= advertised_distance r s)%nat /\
    (root_verifications r d <= advertised_distance r s)%nat /\
    (CVerifyRoot r true ∉ d -> storage s' = storage s) /\
    (CExpired r Root true ∈ d ->
     ok = false /\ last_exception s' = ExpiredMetadata (reponame r) "root") /\
    (ok = true -> CExpired r Root false ∈ d).
Proof.
  unfold updateRoot, advertised_distance.
  rewrite bind_run. unfold fetchLatestRole.
  destruct (fetcher_fetchLatestRole kMaxRootSize r Root (net s)) as [[root |] n'] eqn:Hfetch;
    simpl.
  2: { intros [= <- <-]. eexists; split; [reflexivity |].
       repeat split; try (intros; reflexivity); try count; try done.
       all: absurd_member. }
  rewrite bind_run. unfold rootVersion. simpl.
  rewrite proceed_if_run.
  assert (Hsame : get_repo r
                    (set_calls (calls s ++ [CFetchLatestRole r Root true]) (set_net n' s))
                  = get_repo r s) by (by destruct r).
  rewrite Hsame. clear Hsame.
  match goal with
  | |- context [rootRotation _ ?k ?v ?s1] =>
      destruct (rootRotation r k v s1) as [walked s2] eqn:Hrot
  end.
  apply rootRotation_spec in Hrot as (d & Hd & Hall & Hf & Hv & Hst).
  simpl in Hd, Hst. destruct walked; simpl.
  - unfold bind, roleExpired, setLastException, ret. simpl.
    destruct (repo_rootExpired r (get_repo r s2)) eqn:Hexp; simpl.
    all: intros [= <- <-]; simpl.
    all: eexists; split; [rewrite Hd; grown |].
    all: rewrite ?forallb_app, ?root_fetches_app, ?root_verifications_app.
    all: repeat split; try reflexivity; try count; try done.
    all: try (simpl; by rewrite (root_only_phase _ Hall)).
    all: try (intros Hno; rewrite <- Hst; [done |];
              intros Hin; apply Hno; is_among).
    all: try (intros _; is_among).
    all: member_cases.
  - intros [= <- <-]. eexists; split; [rewrite Hd; grown |].
    rewrite ?forallb_app, ?root_fetches_app, ?root_verifications_app.
    repeat split; try count; try done.
    all: try (simpl; by apply root_only_phase).
    all: try (intros Hno; rewrite <- Hst; [done |];
              intros Hin; apply Hno; is_among).
    all: member_cases.
Qed.

Lemma logs_only_ret p {A} (a : A) : logs_only p (ret a).
Proof. intros s. exists []. by rewrite app_nil_r. Qed.

Lemma logs_only_bind p {A B} (c : M A) (k : A -> M B) :
  logs_only p c -> (forall a, logs_only p (k a)) -> logs_only p (bind c k).
Proof.
  intros Hc Hk s. rewrite bind_run.
  destruct (Hc s) as (d1 & Hd1 & Hp1).
  destruct (Hk (fst (c s)) (snd (c s))) as (d2 & Hd2 & Hp2).
  exists (d1 ++ d2). split.
  - by rewrite Hd2, Hd1, app_assoc.
  - by rewrite forallb_app, Hp1, Hp2.
Qed.

Lemma logs_only_proceed_if p (c k : M bool) :
  logs_only p c -> logs_only p k -> logs_only p (proceed_if c k).
Proof.
  intros Hc Hk. apply logs_only_bind; [done |].
  intros []; [done | apply logs_only_ret].
Qed.

Lemma logs_only_run p {A} (c : M A) s a s' :
  logs_only p c -> c s = (a, s') ->
  exists d, calls s' = calls s ++ d /\ forallb p d = true.
Proof. intros Hc Hrun. specialize (Hc s). by rewrite Hrun in Hc. Qed.

Lemma updateRole_logs r role maxsize :
  role <> Root -> logs_only role_only (updateRole r role maxsize).
Proof.
  intros Hrole s. unfold updateRole.
  destruct r, role; try done; run_block; log_delta; reflexivity.
Qed.

Lemma checkRoleOffline_logs r role :
  role <> Root -> logs_only role_only (checkRoleOffline r role).
Proof.
  intros Hrole s. unfold checkRoleOffline.
  destruct r, role; try done; run_block; log_delta; reflexivity.
Qed.

Lemma checkRootOffline_spec r s ok s' :
  checkRootOffline r s = (ok, s') ->
  exists d,
    calls s' = calls s ++ d /\
    forallb root_phase d = true /\
    (CExpired r Root true ∈ d ->
     ok = false /\ last_exception s' = ExpiredMetadata (reponame r) "root") /\
    (ok = true -> CExpired r Root false ∈ d).
Proof.
  unfold checkRootOffline. destruct r; run_block; intros [= <- <-];
    log_delta;
    repeat split; try done; try absurd_member; try (intros _; is_among).
Qed.

(** The Root step of the online refresh: the initial Root followed by the
    walk and the expiry check. *)
Lemma online_roots_spec r s ok s' :
  proceed_if (loadInitialRoot r) (updateRoot r) s = (ok, s') ->
  exists d,
    calls s' = calls s ++ d /\
    forallb root_phase d = true /\
    (CExpired r Root true ∈ d ->
     ok = false /\ last_exception s' = ExpiredMetadata (reponame r) "root") /\
    (ok = true -> CExpired r Root false ∈ d).
Proof.
  rewrite proceed_if_run.
  destruct (loadInitialRoot r s) as [ok1 s1] eqn:H1.
  apply loadInitialRoot_spec in H1 as (d1 & Hd1 & Hp1 & _).
  simpl. destruct ok1.
  - intros (d2 & Hd2 & Hp2 & _ & _ & _ & Hexp & Hok)%updateRoot_spec.
    exists (d1 ++ d2). split; [by rewrite Hd2, Hd1, app_assoc |].
    split; [by rewrite forallb_app, (root_only_phase _ Hp1), Hp2 |].
    split.
    + intros [Hin | Hin]%elem_of_app; [| by apply Hexp].
      apply (forallb_elem _ _ _ Hp1) in Hin. discriminate.
    + intros Htrue. apply elem_of_app. right. by apply Hok.
  - intros [= <- <-]. exists d1. split; [done |].
    split; [by apply root_only_phase |]. split; [| done].
    intros Hin. apply (forallb_elem _ _ _ Hp1) in Hin. discriminate.
Qed.

Lemma proceed_if_assoc (a b c : M bool) s :
  proceed_if (proceed_if a b) c s = proceed_if a (proceed_if b c) s.
Proof.
  rewrite (proceed_if_run (proceed_if a b)), (proceed_if_run a), (proceed_if_run a).
  destruct (a s) as [[] s1]; simpl; [| done].
  by rewrite proceed_if_run.
Qed.

Lemma resetMeta_run r s :
  calls (snd (resetMeta r s)) = calls s /\
  storage (snd (resetMeta r s)) = storage s /\
  net (snd (resetMeta r s)) = net s.
Proof. by destruct r. Qed.

(** Every check is [resetMeta], a Root step and a step for the other
    roles. *)
Lemma run_check_shape k :
  exists roots roles : M bool,
    (forall s, run_check k s
               = bind (resetMeta (check_repo k)) (fun _ => proceed_if roots roles) s) /\
    (forall s ok s', roots s = (ok, s') ->
       exists d,
         calls s' = calls s ++ d /\
         forallb root_phase d = true /\
         (CExpired (check_repo k) Root true ∈ d ->
          ok = false /\
          last_exception s' = ExpiredMetadata (reponame (check_repo k)) "root") /\
         (ok = true -> CExpired (check_repo k) Root false ∈ d)) /\
    logs_only role_only roles.
Proof.
  destruct k; simpl.
  - exists (proceed_if (loadInitialRoot Director) (updateRoot Director)),
           (updateRole Director Targets kMaxDirectorTargetsSize).
    split; [| split].
    + intros s. unfold updateDirectorMeta. rewrite !bind_run.
      by rewrite proceed_if_assoc.
    + apply online_roots_spec.
    + by apply updateRole_logs.
  - exists (proceed_if (loadInitialRoot Images) (updateRoot Images)),
           (proceed_if (updateRole Images Timestamp kMaxTimestampSize)
              (proceed_if
                 (bind snapshotSize (fun size => updateRole Images Snapshot size))
                 (bind targetsSize (fun size => updateRole Images Targets size)))).
    split; [| split].
    + intros s. unfold updateImagesMeta. rewrite !bind_run.
      by rewrite proceed_if_assoc.
    + apply online_roots_spec.
    + repeat apply logs_only_proceed_if.
      * by apply updateRole_logs.
      * apply logs_only_bind; [| intros; by apply updateRole_logs].
        intros s. exists []. by rewrite app_nil_r.
      * apply logs_only_bind; [| intros; by apply updateRole_logs].
        intros s. exists []. by rewrite app_nil_r.
  - exists (checkRootOffline Director), (checkRoleOffline Director Targets).
    split; [done |]. split; [apply checkRootOffline_spec |].
    by apply checkRoleOffline_logs.
  - exists (checkRootOffline Images),
           (proceed_if (checkRoleOffline Images Timestamp)
              (proceed_if (checkRoleOffline Images Snapshot)
                 (checkRoleOffline Images Targets))).
    split; [done |]. split; [apply checkRootOffline_spec |].
    repeat apply logs_only_proceed_if; by apply checkRoleOffline_logs.
Qed.

Lemma rooted_check k s :
  (CExpired (check_repo k) Root true ∈ called_by (run_check k) s ->
   fst (run_check k s) = false /\
   last_exception (snd (run_check k s))
   = ExpiredMetadata (reponame (check_repo k)) "root" /\
   forall c, c ∈ called_by (run_check k) s -> root_phase c = true) /\
  (forall role ok,
     CVerifyRole (check_repo k) role ok ∈ called_by (run_check k) s ->
     CExpired (check_repo k) Root false ∈ called_by (run_check k) s).
Proof.
  destruct (run_check_shape k) as (roots & roles & Hshape & Hroots & Hroles).
  unfold called_by. rewrite Hshape, bind_run, proceed_if_run.
  destruct (resetMeta_run (check_repo k) s) as (Hcalls & _).
  set (s0 := snd (resetMeta (check_repo k) s)) in *.
  destruct (roots s0) as [ok s1] eqn:H1.
  destruct (Hroots _ _ _ H1) as (d1 & Hd1 & Hp1 & Hexp & Hok).
  simpl. destruct ok; simpl.
  - destruct (roles s1) as [ok2 s2] eqn:H2.
    destruct (logs_only_run _ _ _ _ _ Hroles H2) as (d2 & Hd2 & Hp2).
    simpl. rewrite Hd2, Hd1, Hcalls, <- app_assoc, drop_app_length.
    split.
    + intros [Hin | Hin]%elem_of_app.
      * by destruct (Hexp Hin).
      * apply (forallb_elem _ _ _ Hp2) in Hin. discriminate.
    + intros role okv _. apply elem_of_app. left. by apply Hok.
  - rewrite Hd1, Hcalls, drop_app_length. split.
    + intros Hin. destruct (Hexp Hin) as [_ Hlast]. repeat split; [done |].
      intros c Hc. by apply (forallb_elem _ _ _ Hp1).
    + intros role okv Hin. apply (forallb_elem _ _ _ Hp1) in Hin. discriminate.
Qed.









Lemma role_only_verifications r d :
  forallb role_only d = true -> root_verifications r d = 0%nat.
Proof.
  induction d as [| c d IH]; [done |]. simpl.
  intros [Hc Hd]%andb_prop. unfold root_verifications in *. simpl.
  destruct c; try done; by apply IH.
Qed.

Lemma online_root_steps r (roles : M bool) s :
  logs_only role_only roles ->
  let run :=
    bind (resetMeta r)
      (fun _ => proceed_if (loadInitialRoot r) (proceed_if (updateRoot r) roles)) in
  (root_fetches r (called_by run s) <= 1 + advertised_distance r (before_walk r s))%nat /\
  (root_verifications r (called_by run s) <= advertised_distance r (before_walk r s))%nat.
Proof.
  intros Hroles run. unfold called_by, run, before_walk.
  rewrite bind_run, proceed_if_run.
  destruct (resetMeta_run r s) as (Hcalls & _).
  set (s0 := snd (resetMeta r s)) in *.
  destruct (loadInitialRoot r s0) as [ok1 s1] eqn:H1.
  apply loadInitialRoot_spec in H1 as (d1 & Hd1 & _ & Hf1 & Hv1 & _).
  simpl. destruct ok1; simpl.
  - rewrite proceed_if_run.
    destruct (updateRoot r s1) as [ok2 s2] eqn:H2.
    apply updateRoot_spec in H2 as (d2 & Hd2 & _ & Hf2 & Hv2 & _).
    simpl. destruct ok2; simpl.
    + destruct (roles s2) as [ok3 s3] eqn:H3.
      destruct (logs_only_run _ _ _ _ _ Hroles H3) as (d3 & Hd3 & Hp3).
      simpl. rewrite Hd3, Hd2, Hd1, Hcalls, <- !app_assoc, drop_app_length.
      rewrite !root_fetches_app, !root_verifications_app.
      rewrite (role_only_fetches _ _ Hp3), (role_only_verifications _ _ Hp3).
      lia.
    + rewrite Hd2, Hd1, Hcalls, <- !app_assoc, drop_app_length.
      rewrite !root_fetches_app, !root_verifications_app. lia.
  - rewrite Hd1, Hcalls, drop_app_length. lia.
Qed.

Lemma updateRole_rollback r role maxsize s ok s' stored :
  role <> Root ->
  updateRole r role maxsize s = (ok, s') ->
  non_root (storage s) r role = Some stored ->
  (forall meta,
     fst (fetcher_fetchLatestRole maxsize r role (net s)) = Some meta ->
     extractVersionUntrusted meta < extractVersionUntrusted stored) ->
  ok = false /\ storage s' = storage s /\
  exists d, calls s' = calls s ++ d /\
            forall r' role', CStoreNonRoot r' role' ∉ d.
Proof.
  intros Hrole Hrun Hstored Hlow. revert Hrun. unfold updateRole.
  rewrite bind_run. unfold fetchLatestRole.
  destruct (fetcher_fetchLatestRole maxsize r role (net s)) as [[meta |] n'];
    simpl in *.
  2: { intros [= <- <-]. repeat split. eexists. split; [reflexivity |].
       intros r' role'. not_among. }
  specialize (Hlow meta eq_refl).
  rewrite bind_run. unfold loadNonRoot at 1 2. simpl. rewrite Hstored.
  rewrite bind_run.
  destruct (verifyRole r role meta _) as [verified s1] eqn:Hver. simpl.
  assert (Hs1 : storage s1 = storage s /\
                calls s1 = calls s ++ [CFetchLatestRole r role true;
                                       CVerifyRole r role verified]).
  { revert Hver. destruct r, role; try done; run_block; intros [= <- <-];
      (split; [reflexivity | simpl; grown]). }
  destruct Hs1 as [Hst1 Hc1].
  destruct verified; simpl.
  - destruct (Z.gtb_spec (extractVersionUntrusted stored) (extractVersionUntrusted meta));
      [| lia].
    intros [= <- <-]. repeat split; [done |]. eexists. split; [done |].
    intros r' role'. not_among.
  - unfold bind, keepLastException, ret. simpl. intros [= <- <-].
    repeat split; [done |]. eexists. split; [done |].
    intros r' role'. not_among.
Qed.

(** *** What is written to the events channel *)

Lemma silent_ret {A} (a : A) : silent (ret a).
Proof. by intros s. Qed.

Lemma silent_bind {A B} (c : M A) (k : A -> M B) :
  silent c -> (forall a, silent (k a)) -> silent (bind c k).
Proof.
  intros Hc Hk s. rewrite bind_run. by rewrite Hk, Hc.
Qed.

Lemma silent_proceed_if (c k : M bool) :
  silent c -> silent k -> silent (proceed_if c k).
Proof.
  intros Hc Hk. apply silent_bind; [done |].
  intros []; [done | apply silent_ret].
Qed.

Lemma silent_loadInitialRoot r : silent (loadInitialRoot r).
Proof. intros s. unfold loadInitialRoot. destruct r; run_block; reflexivity. Qed.

Lemma silent_rootRotation r n version : silent (rootRotation r n version).
Proof.
  revert version. induction n as [| n IH]; intros version s; simpl; [done |].
  destruct r; run_block; try reflexivity; by rewrite IH.
Qed.

Lemma silent_updateRoot r : silent (updateRoot r).
Proof.
  unfold updateRoot. apply silent_bind.
  { intros s. unfold fetchLatestRole. by destruct (fetcher_fetchLatestRole _ _ _ _). }
  intros [root |]; [| apply silent_ret].
  apply silent_bind; [by intros s |]. intros local_version.
  apply silent_proceed_if; [apply silent_rootRotation |].
  intros s. destruct r; run_block; reflexivity.
Qed.

Lemma silent_updateRole r role maxsize : silent (updateRole r role maxsize).
Proof.
  intros s. unfold updateRole. destruct r, role; run_block; reflexivity.
Qed.

Lemma silent_checkRootOffline r : silent (checkRootOffline r).
Proof. intros s. unfold checkRootOffline. destruct r; run_block; reflexivity. Qed.

Lemma silent_checkRoleOffline r role : silent (checkRoleOffline r role).
Proof.
  intros s. unfold checkRoleOffline. destruct r, role; run_block; reflexivity.
Qed.

Lemma silent_resetMeta r : silent (resetMeta r).
Proof. intros s. by destruct r. Qed.

Lemma silent_run_check k : silent (run_check k).
Proof.
  destruct k; simpl.
  - unfold updateDirectorMeta.
    apply silent_bind; [apply silent_resetMeta | intros _].
    apply silent_proceed_if; [apply silent_loadInitialRoot |].
    apply silent_proceed_if; [apply silent_updateRoot | apply silent_updateRole].
  - unfold updateImagesMeta.
    apply silent_bind; [apply silent_resetMeta | intros _].
    apply silent_proceed_if; [apply silent_loadInitialRoot |].
    apply silent_proceed_if; [apply silent_updateRoot |].
    apply silent_proceed_if; [apply silent_updateRole |].
    apply silent_proceed_if.
    + apply silent_bind; [by intros s | intros size; apply silent_updateRole].
    + apply silent_bind; [by intros s | intros size; apply silent_updateRole].
  - unfold checkDirectorMetaOffline.
    apply silent_bind; [apply silent_resetMeta | intros _].
    apply silent_proceed_if; [apply silent_checkRootOffline |].
    apply silent_checkRoleOffline.
  - unfold checkImagesMetaOffline.
    apply silent_bind; [apply silent_resetMeta | intros _].
    apply silent_proceed_if; [apply silent_checkRootOffline |].
    repeat (apply silent_proceed_if; [apply silent_checkRoleOffline |]).
    apply silent_checkRoleOffline.
Qed.

Lemma silent_uptaneIteration : silent uptaneIteration.
Proof.
  unfold uptaneIteration.
  apply silent_proceed_if; [apply (silent_run_check OnlineDirector) |].
  apply silent_bind; [by intros s |]. intros [[] targets]; simpl.
  - destruct targets; [apply silent_ret |].
    apply silent_proceed_if; [apply (silent_run_check OnlineImages) | apply silent_ret].
  - apply silent_ret.
Qed.

Lemma silent_uptaneOfflineIteration targets :
  silent (uptaneOfflineIteration targets).
Proof.
  unfold uptaneOfflineIteration.
  apply silent_bind; [apply (silent_run_check OfflineDirector) |].
  intros []; simpl; [| apply silent_ret].
  apply silent_bind; [by intros s |]. intros [[] tmp_targets]; simpl.
  - destruct tmp_targets; [apply silent_ret |].
    apply silent_bind; [apply (silent_run_check OfflineImages) |].
    intros []; apply silent_ret.
  - apply silent_ret.
Qed.

Lemma silent_PackageInstallSetResult target :
  silent (PackageInstallSetResult target).
Proof.
  intros s. unfold PackageInstallSetResult, PackageInstall, bind, ret,
    storeInstallationResult, saveInstalledVersion.
  destruct (negb (IsOstree target) && bool_decide (pacman_type s = kOstree));
    [done |].
  destruct (env_install target (env s)) as [[outcome | what] e]; simpl;
    try case_decide; reflexivity.
Qed.

Lemma silentx_retx {A} (a : A) : silentx (retx a).
Proof. by intros s. Qed.

Lemma silentx_bindx {A B} (c : MX A) (k : A -> MX B) :
  silentx c -> (forall a, silentx (k a)) -> silentx (bindx c k).
Proof.
  intros Hc Hk s. unfold bindx. specialize (Hc s).
  destruct (c s) as [[a | what] s1]; simpl in *; [| done].
  by rewrite Hk.
Qed.

Lemma silentx_lift {A} (c : M A) : silent c -> silentx (lift c).
Proof. intros Hc s. unfold lift. specialize (Hc s). by destruct (c s). Qed.

Lemma silentx_liftEnv {A} (f : Env -> Result A * Env) : silentx (liftEnv f).
Proof. intros s. unfold liftEnv. by destruct (f (env s)). Qed.

Lemma silentx_AssembleManifest : silentx AssembleManifest.
Proof.
  intros s. unfold AssembleManifest.
  by destruct (env_AssembleManifest (storage s) (env s)) as [[res images] e].
Qed.

Lemma silentx_putManifest : silentx putManifest.
Proof.
  unfold putManifest. apply silentx_bindx; [apply silentx_AssembleManifest |].
  intros manifest. destruct (negb _); [apply silentx_liftEnv | apply silentx_retx].
Qed.

Lemma silentx_updateMeta : silentx updateMeta.
Proof.
  unfold updateMeta, reportNetworkInfo.
  apply silentx_bindx; [apply silentx_liftEnv |]. intros _.
  apply silentx_bindx; [apply silentx_putManifest |].
  intros []; simpl; [| apply silentx_retx].
  apply silentx_lift, silent_uptaneIteration.
Qed.

Lemma silentx_downloadEach targets downloaded : silentx (downloadEach targets downloaded).
Proof.
  revert downloaded. induction targets as [| t rest IH]; intros downloaded s;
    simpl; [done |].
  destruct (repo_getTarget Images (images_repo s) t); [| apply IH].
  destruct (fetcher_fetchVerifyTarget _ _) as [[ok | what] n]; [| done].
  by rewrite IH.
Qed.

(** A computation that may throw and is silent leaves the channel as it
    was, whichever way it ends. *)
Lemma bindx_silent_run {A B} (c : MX A) (k : A -> MX B) s :
  silentx c ->
  (exists a s1, c s = (Ret a, s1) /\ bindx c k s = k a s1 /\
                events_channel s1 = events_channel s) \/
  (exists what s1, bindx c k s = (Throw what, s1) /\
                   events_channel s1 = events_channel s).
Proof.
  intros Hc. unfold bindx. specialize (Hc s).
  destruct (c s) as [[a | what] s1]; simpl in *; [left | right]; eauto.
Qed.

Lemma outcome_weaken {A} (c : MX A) (Q Q' : list Event -> Prop) :
  (forall ev, Q ev -> Q' ev) -> outcome c Q -> outcome c Q'.
Proof.
  intros HQ Hc s. destruct (Hc s) as (ev & Hev & Hres).
  exists ev. split; [done |]. destruct (fst (c s)); auto.
Qed.

Lemma outcome_retx {A} (a : A) : outcome (retx a) (fun ev => ev = []).
Proof. intros s. exists []. by rewrite app_nil_r. Qed.

Lemma outcome_bindx {A B} (c : MX A) (k : A -> MX B) Q :
  silentx c -> (forall a, outcome (k a) Q) -> outcome (bindx c k) Q.
Proof.
  intros Hc Hk s. unfold bindx. specialize (Hc s).
  destruct (c s) as [[a | what] s1]; simpl in *.
  - destruct (Hk a s1) as (ev & Hev & Hres). exists ev. by rewrite Hev, Hc.
  - exists []. by rewrite app_nil_r.
Qed.

Lemma outcome_emit e : outcome (lift (emit e)) (fun ev => ev = [e]).
Proof. intros s. by exists [e]. Qed.

(** An event followed by statements that neither throw nor write to the
    channel. *)
Lemma outcome_emit_then {A} e (c : M A) :
  silent c -> outcome (lift (bind (emit e) (fun _ => c))) (fun ev => ev = [e]).
Proof.
  intros Hc s. exists [e]. unfold lift, bind, emit. simpl.
  specialize (Hc (set_events_channel (events_channel s ++ [e]) s)).
  by destruct (c _).
Qed.

Lemma silent_sendDownloadReport : silent sendDownloadReport.
Proof.
  intros s. unfold sendDownloadReport, bind, loadNonRoot.
  by destruct (non_root (storage s) Director Targets).
Qed.

Lemma silentx_handleRebootFlag : silentx handleRebootFlag.
Proof.
  intros s. unfold handleRebootFlag.
  destruct (env_rebootFlagExists (env s)) as [[] | what]; [| done..].
  destruct (env_rebootFlagRemove (env s)) as [[[] | what] e]; simpl; [| done].
  by destruct (env_parentIsInit _).
Qed.

Lemma silentx_isInstalledOnPrimary target : silentx (isInstalledOnPrimary target).
Proof. intros s. unfold isInstalledOnPrimary. by destruct (bool_decide _). Qed.

Lemma outcome_downloadImages targets :
  outcome (downloadImages targets)
    (fun ev =>
       match targets with
       | [] => ev = [UptaneTimestampUpdated]
       | _ :: _ => ev = [] \/ exists downloaded, ev = [DownloadComplete downloaded]
       end).
Proof.
  unfold downloadImages. apply outcome_bindx; [apply silentx_downloadEach |].
  intros downloaded. destruct targets as [| t rest].
  - apply (outcome_emit_then UptaneTimestampUpdated (ret true)), silent_ret.
  - destruct (_ =? _)%nat.
    + eapply outcome_weaken;
        [| apply (outcome_emit_then (DownloadComplete downloaded)
                    (bind sendDownloadReport (fun _ => ret true)))].
      * intros ev ->. right. by exists downloaded.
      * apply silent_bind; [apply silent_sendDownloadReport | intros; apply silent_ret].
    + eapply outcome_weaken; [| apply outcome_retx]. intros ev ->. by left.
Qed.

Lemma outcome_then {A B} (c : MX A) (b : B) Q :
  outcome c Q -> outcome (bindx c (fun _ => retx b)) Q.
Proof.
  intros Hc s. destruct (Hc s) as (ev & Hev & Hres). exists ev.
  unfold bindx, retx. by destruct (c s) as [[a | what] s1].
Qed.

Lemma outcome_emit_lift {A} e (c : M A) :
  silent c ->
  outcome (bindx (lift (emit e)) (fun _ => lift c)) (fun ev => ev = [e]).
Proof.
  intros Hc s. exists [e]. unfold bindx, lift, emit. simpl.
  specialize (Hc (set_events_channel (events_channel s ++ [e]) s)).
  by destruct (c _).
Qed.

Lemma silentx_installOnPrimary primary_updates :
  silentx
    match primary_updates with
    | it :: _ =>
        bindx (isInstalledOnPrimary it)
          (fun installed =>
             if negb installed then
               bindx (liftEnv env_updateNotify)
                 (fun _ => lift (PackageInstallSetResult it))
             else
               lift (storeInstallationResult
                       (data.fromOutcome (filename it)
                          (data.kAlreadyProcessed, "Package already installed"))))
    | [] => retx tt
    end.
Proof.
  destruct primary_updates as [| it rest]; [apply silentx_retx |].
  apply silentx_bindx; [apply silentx_isInstalledOnPrimary |].
  intros []; simpl.
  - apply silentx_lift. by intros s.
  - apply silentx_bindx; [apply silentx_liftEnv | intros _].
    apply silentx_lift, silent_PackageInstallSetResult.
Qed.

Lemma outcome_or_weaken {A} (c : MX A) (Q Q' T T' : list Event -> Prop) :
  (forall ev, Q ev -> Q' ev) -> (forall ev, T ev -> T' ev) ->
  outcome_or c Q T -> outcome_or c Q' T'.
Proof.
  intros HQ HT Hc s. destruct (Hc s) as (ev & Hev & Hres).
  exists ev. split; [done |]. destruct (fst (c s)); auto.
Qed.

Lemma outcome_or_nothing {A} (c : MX A) Q :
  outcome c Q -> outcome_or c Q (fun ev => ev = []).
Proof. intros Hc s. apply Hc. Qed.

Lemma outcome_or_bindx {A B} (c : MX A) (k : A -> MX B) Q T :
  silentx c -> T [] -> (forall a, outcome_or (k a) Q T) ->
  outcome_or (bindx c k) Q T.
Proof.
  intros Hc Hnil Hk s. unfold bindx. specialize (Hc s).
  destruct (c s) as [[a | what] s1]; simpl in *.
  - destruct (Hk a s1) as (ev & Hev & Hres). exists ev. by rewrite Hev, Hc.
  - exists []. by rewrite app_nil_r.
Qed.

(** An event followed by statements that write nothing but may throw: the
    event is on the channel whichever way they end. *)
Lemma outcome_or_emit_then {A} e (c : MX A) :
  silentx c ->
  outcome_or (bindx (lift (emit e)) (fun _ => c))
    (fun ev => ev = [e]) (fun ev => ev = [e]).
Proof.
  intros Hc s. exists [e]. unfold bindx, lift, emit. simpl.
  specialize (Hc (set_events_channel (events_channel s ++ [e]) s)).
  destruct (c _) as [[a | what] s1]; simpl in *; by rewrite Hc.
Qed.

Lemma outcome_runCommand command :
  outcome_or (runCommand command) (command_events command) (thrown_events command).
Proof.
  destruct command as [| | | | updates | updates |]; simpl.
  6: { apply outcome_or_bindx; [by intros s | by left | intros primary].
       apply outcome_or_bindx; [intros s; apply silentx_liftEnv | by left | intros _].
       apply outcome_or_bindx; [apply silentx_installOnPrimary | by left | intros _].
       apply outcome_or_bindx; [intros s; apply silentx_liftEnv | by left | intros _].
       eapply outcome_or_weaken;
         [| | apply outcome_or_emit_then, silentx_handleRebootFlag].
       - intros ev ->. by left.
       - intros ev ->. by right. }
  all: apply outcome_or_nothing.
  - repeat (apply outcome_bindx;
            [first [apply silentx_liftEnv | apply silentx_putManifest] | intros ?]).
    eapply outcome_weaken; [| apply outcome_emit]. intros ev ->. by left.
  - apply outcome_bindx; [apply silentx_putManifest |].
    intros []; simpl; (eapply outcome_weaken; [| apply outcome_emit]); intros ev ->;
      [by left | right; by eexists].
  - apply outcome_bindx; [apply silentx_updateMeta |].
    intros []; simpl; (eapply outcome_weaken; [| apply outcome_emit]); intros ev ->;
      [by left | right; by eexists].
  - apply outcome_bindx; [apply silentx_AssembleManifest | intros _].
    apply outcome_bindx; [apply silentx_lift, silent_uptaneOfflineIteration |].
    intros [[] updates]; simpl.
    + destruct updates as [| u rest];
        (eapply outcome_weaken; [| apply outcome_emit]); intros ev ->.
      * right. by left.
      * right. right. left. by eexists (_ :: _).
    + eapply outcome_weaken; [| apply outcome_retx]. intros ev ->. by left.
  - apply outcome_then.
    eapply outcome_weaken; [| apply outcome_downloadImages].
    destruct updates; [done |]. intros ev [-> | Hev]; [by left | right; by left].
  - intros s. exists []. by rewrite app_nil_r.
Qed.

Lemma command_events_short command ev :
  command_events command ev -> (length ev <= max_events command)%nat.
Proof.
  destruct command as [| | | | updates | updates |]; simpl.
  all: try destruct updates.
  all: intros H;
    repeat match goal with
           | H : _ \/ _ |- _ => destruct H as [H | H]
           | H : exists _, _ |- _ => destruct H as [? H]
           | H : _ /\ _ |- _ => destruct H as [_ H]
           end;
    subst; simpl; lia.
Qed.

(** The loop body: what the [try] block wrote, followed by the [Error] of
    the [catch] clause when it threw. *)
Lemma processCommand_events command s :
  exists ev,
    events_channel (snd (processCommand command s)) = events_channel s ++ ev /\
    command_events command ev.
Proof.
  destruct (outcome_runCommand command s) as (ev & Hev & Hres).
  unfold processCommand.
  destruct (runCommand command s) as [[[] | what] s'] eqn:Hrun; simpl in *.
  - by exists ev.
  - exists (ev ++ [Error what]). rewrite Hev, app_assoc. split; [done |].
    destruct command as [| | | | [| u updates] | updates |]; simpl in *.
    all: try (subst ev; simpl).
    all: try (right; by eexists); try (right; right; right; by eexists);
      try (right; right; by eexists); try discriminate Hrun.
    destruct Hres as [-> | ->]; simpl; right; [left | right]; by eexists.
Qed.

(** Both callers of [getNewTargets] drop its output vector when it
    returns [false]. *)
Lemma uptaneOfflineIteration_discards targets s :
  let s1 := snd (checkDirectorMetaOffline s) in
  fst (fst (getNewTargets [] s1)) = false ->
  fst (uptaneOfflineIteration targets s) = (false, targets).
Proof.
  intros s1 Hsel. unfold uptaneOfflineIteration. rewrite bind_run.
  destruct (fst (checkDirectorMetaOffline s)); simpl; [| done].
  rewrite bind_run. fold s1.
  destruct (fst (getNewTargets [] s1)) as [ok tmp] eqn:Hres.
  simpl in Hsel. by subst ok.
Qed.

Lemma uptaneIteration_fails_on_abort s :
  let s1 := snd (updateDirectorMeta s) in
  fst (fst (getNewTargets [] s1)) = false ->
  fst (uptaneIteration s) = false.
Proof.
  intros s1 Hsel. unfold uptaneIteration. rewrite proceed_if_run.
  destruct (fst (updateDirectorMeta s)); simpl; [| done].
  rewrite bind_run. fold s1.
  destruct (fst (getNewTargets [] s1)) as [ok tmp] eqn:Hres.
  simpl in Hsel. by subst ok.
Qed.

End Facts.

End ClientFacts.

(** ** The Root walk against the reference server *)

Module ReferenceFacts.

Import Client ClientFacts Reference.

(** Against a server that serves a valid Root for every version, each of
    the [n] rounds of the walk fetches, verifies and stores its Root. *)
Lemma rotation_follows_server n :
  forall version (s : State),
    (forall r v, served_root (net s) r v = Some (root_v v)) ->
    (exists cur, current_root (director_repo s) = Some cur /\
                 meta_version cur = version - 1) ->
    exists s',
      rootRotation Director n version s = (true, s') /\
      root_fetches Director (calls s') = (root_fetches Director (calls s) + n)%nat.
Proof.
  induction n as [| n IH]; intros version s Hserved (cur & Hcur & Hversion); simpl.
  - exists s. split; [done | lia].
  - unfold bind, fetchRole, verifyRoot, on_repo, storeRoot, clearNonRootMeta. simpl.
    rewrite Hserved. simpl. unfold verify_root. rewrite Hcur. simpl.
    rewrite bool_decide_true by lia. simpl.
    match goal with
    | |- context [rootRotation Director n ?v ?s1] =>
        destruct (IH v s1) as (s' & Hrun & Hcount)
    end.
    + done.
    + exists (root_v version). split; [done | simpl; lia].
    + exists s'. split; [done |]. rewrite Hcount. simpl.
      rewrite !root_fetches_app. unfold root_fetches. simpl. lia.
Qed.

(** With Root 1 stored and Root [1 + n] advertised, one run of
    [updateDirectorMeta] fetches exactly [n] Roots. *)
Lemma walk_of_any_length (n : nat) :
  root_fetches Director
    (called_by updateDirectorMeta (state_with_server_root (1 + Z.of_nat n))) = n.
Proof.
  unfold called_by, updateDirectorMeta, state_with_server_root.
  rewrite bind_run, proceed_if_run. simpl.
  rewrite proceed_if_run.
  unfold updateRoot. rewrite bind_run. simpl. rewrite bind_run. simpl.
  rewrite proceed_if_run.
  replace (Z.to_nat (1 + Z.of_nat n - 1)) with n by lia.
  match goal with
  | |- context [rootRotation Director n ?v ?s1] =>
      destruct (rotation_follows_server n v s1) as (s2 & Hrun & Hcount)
  end.
  - done.
  - by exists (root_v 1).
  - rewrite Hrun. simpl in *.
    unfold bind, roleExpired. simpl.
    destruct (expired (current_root (director_repo s2))); simpl.
    + rewrite drop_0, root_fetches_app, Hcount. unfold root_fetches. simpl. lia.
    + match goal with
      | |- context [updateRole Director Targets ?m ?s3] =>
          destruct (updateRole_logs Director Targets m ltac:(done) s3)
            as (d3 & Hd3 & Hp3)
      end.
      rewrite Hd3. simpl.
      rewrite drop_0, !root_fetches_app, Hcount, (role_only_fetches _ _ Hp3).
      unfold root_fetches. simpl. lia.
Qed.

(** Whatever the constant, some server makes the walk longer (versions are
    unbounded integers here). *)
Lemma no_constant_bounds_the_walk (bound : nat) :
  exists s : @State carriers,
    (bound < root_fetches Director (called_by updateDirectorMeta s))%nat.
Proof.
  exists (state_with_server_root (1 + Z.of_nat (S bound))).
  rewrite (walk_of_any_length (S bound)). lia.
Qed.

End ReferenceFacts.

Module ClientClaims.

Import Client ClientFacts.

(** C4, as stated, fails: with Director Targets 7 stored, a server that
    has a new Root 2 and Targets 6 makes [updateDirectorMeta] succeed and
    store Targets 6, because accepting Root 2 clears the stored Targets
    before they are compared. *)
Lemma updateDirectorMeta_stores_lower_targets_after_rotation :
  ~ (forall (s : @State Reference.carriers) (stored : Reference.Meta),
       non_root (storage s) Director Targets = Some stored ->
       (forall meta,
          fst (fetcher_fetchLatestRole kMaxDirectorTargetsSize Director Targets
                 (net (before_targets s))) = Some meta ->
          extractVersionUntrusted meta < extractVersionUntrusted stored) ->
       fst (updateDirectorMeta s) = false /\
       non_root (storage (snd (updateDirectorMeta s))) Director Targets
       = Some stored).
Proof.
  intros H.
  destruct (H Reference.rollback_after_rotation_state (Reference.targets_v 7))
    as [Hfail _].
  - reflexivity.
  - intros meta [= <-]. reflexivity.
  - vm_compute in Hfail. discriminate.
Qed.

(** C4, amended: when a Director Targets document is stored, the Targets
    the fetcher hands out has a lower version, and the iteration accepts
    no new Root (which would clear the stored Targets), [updateDirectorMeta]
    returns [false], the stored Director Targets are the same afterwards,
    and nothing is stored as a non-Root role. *)
Theorem updateDirectorMeta_rejects_lower_targets
    `{C : Collaborators} (s : State) (stored : Blob) :
  non_root (storage s) Director Targets = Some stored ->
  (forall meta,
     fst (fetcher_fetchLatestRole kMaxDirectorTargetsSize Director Targets
            (net (before_targets s))) = Some meta ->
     extractVersionUntrusted meta < extractVersionUntrusted stored) ->
  CVerifyRoot Director true ∉ called_by updateDirectorMeta s ->
  fst (updateDirectorMeta s) = false /\
  non_root (storage (snd (updateDirectorMeta s))) Director Targets = Some stored /\
  (forall r role, CStoreNonRoot r role ∉ called_by updateDirectorMeta s).
Proof.
  intros Hstored Hlow. unfold called_by, updateDirectorMeta, before_targets in *.
  rewrite bind_run, proceed_if_run. rewrite proceed_if_run in Hlow.
  destruct (resetMeta_run Director s) as (Hcalls & Hst0 & _).
  set (s0 := snd (resetMeta Director s)) in *.
  destruct (loadInitialRoot Director s0) as [ok1 s1] eqn:H1.
  apply loadInitialRoot_spec in H1 as (d1 & Hd1 & Hp1 & _ & _ & _ & Hnr1).
  simpl in *. destruct ok1; simpl.
  - rewrite proceed_if_run.
    destruct (updateRoot Director s1) as [ok2 s2] eqn:H2.
    apply updateRoot_spec in H2 as (d2 & Hd2 & Hp2 & _ & _ & Hst2 & _).
    simpl in *. destruct ok2; simpl.
    + destruct (updateRole Director Targets kMaxDirectorTargetsSize s2)
        as [ok3 s3] eqn:H3.
      simpl. intros Hno.
      assert (Hsame : storage s2 = storage s1).
      { apply Hst2. intros Hin. apply Hno.
        assert (Hd3 : exists d3, calls s3 = calls s2 ++ d3).
        { destruct (updateRole_logs Director Targets kMaxDirectorTargetsSize
                      ltac:(done) s2) as (d3 & Hd3 & _).
          rewrite H3 in Hd3. by exists d3. }
        destruct Hd3 as [d3 Hd3].
        rewrite Hd3, Hd2, Hd1, <- !app_assoc, drop_app_length.
        is_among. }
      apply updateRole_rollback with (stored := stored) in H3
          as (-> & Hst3 & d3 & Hd3 & Hnostore); [| done | |].
      * rewrite Hst3, Hsame, Hnr1. repeat split; [done |].
        intros r role.
        rewrite Hd3, Hd2, Hd1, <- !app_assoc, drop_app_length.
        intros [Hin | [Hin | Hin]%elem_of_app]%elem_of_app.
        -- apply (forallb_elem _ _ _ Hp1) in Hin. discriminate.
        -- apply (forallb_elem _ _ _ Hp2) in Hin. discriminate.
        -- by apply (Hnostore r role).
      * by rewrite Hsame, Hnr1.
      * done.
    + intros Hno. rewrite Hd2, Hd1, <- !app_assoc, drop_app_length in *.
      rewrite Hst2, Hnr1; [| intros Hin; apply Hno; is_among].
      repeat split; [done |]. intros r role.
      intros [Hin | Hin]%elem_of_app.
      * apply (forallb_elem _ _ _ Hp1) in Hin. discriminate.
      * apply (forallb_elem _ _ _ Hp2) in Hin. discriminate.
  - intros _. rewrite Hnr1, Hd1, drop_app_length.
    repeat split; [done |]. intros r role Hin.
    apply (forallb_elem _ _ _ Hp1) in Hin. discriminate.
Qed.

Lemma updateDirectorMeta_rejects_lower_targets_witness :
  fst (updateDirectorMeta Reference.rollback_state) = false /\
  non_root (storage (snd (updateDirectorMeta Reference.rollback_state)))
    Director Targets = Some (Reference.targets_v 7) /\
  (forall r role,
     CStoreNonRoot r role ∉ called_by updateDirectorMeta Reference.rollback_state).
Proof.
  apply (updateDirectorMeta_rejects_lower_targets
           Reference.rollback_state (Reference.targets_v 7)).
  - reflexivity.
  - intros meta [= <-]. reflexivity.
  - vm_compute. not_among.
Defined.

(** C5, as stated, fails: nothing in the walk stops it before the version
    the server advertises.  With Root 1 stored and a server that advertises
    Root 1026 and serves a valid Root for every version, one run of
    [updateDirectorMeta] fetches 1025 Roots. *)
Lemma root_walk_exceeds_1024_steps :
  ~ (forall s : @State Reference.carriers,
       (root_fetches Director (called_by updateDirectorMeta s) <= 1024)%nat).
Proof.
  intros H. specialize (H Reference.long_rotation_state).
  assert (Hsteps : root_fetches Director
                     (called_by updateDirectorMeta Reference.long_rotation_state)
                   = 1025%nat) by (vm_compute; reflexivity).
  rewrite Hsteps in H. lia.
Qed.

(** C5, amended: in one run of [updateDirectorMeta] or [updateImagesMeta]
    the Roots verified by the walk are at most as many as the version read
    from the server's latest Root exceeds the version of the Root the
    repository holds when the walk starts, and the Roots fetched are at
    most one more (the initial Root, when none is stored).  The bound
    depends on the advertised version; no constant enters it. *)
Theorem root_walk_bounded_by_advertised_version
    `{C : Collaborators} (s : State) :
  ((root_fetches Director (called_by updateDirectorMeta s)
    <= 1 + advertised_distance Director (before_walk Director s))%nat /\
   (root_verifications Director (called_by updateDirectorMeta s)
    <= advertised_distance Director (before_walk Director s))%nat) /\
  ((root_fetches Images (called_by updateImagesMeta s)
    <= 1 + advertised_distance Images (before_walk Images s))%nat /\
   (root_verifications Images (called_by updateImagesMeta s)
    <= advertised_distance Images (before_walk Images s))%nat).
Proof.
  split.
  - apply (online_root_steps Director
             (updateRole Director Targets kMaxDirectorTargetsSize)).
    by apply updateRole_logs.
  - apply (online_root_steps Images
             (proceed_if (updateRole Images Timestamp kMaxTimestampSize)
                (proceed_if
                   (bind snapshotSize (fun size => updateRole Images Snapshot size))
                   (bind targetsSize (fun size => updateRole Images Targets size))))).
    repeat apply logs_only_proceed_if.
    + by apply updateRole_logs.
    + apply logs_only_bind; [| intros; by apply updateRole_logs].
      intros s'. exists []. by rewrite app_nil_r.
    + apply logs_only_bind; [| intros; by apply updateRole_logs].
      intros s'. exists []. by rewrite app_nil_r.
Qed.



(** With the reference repositories, the premise in terms of the storage:
    an offline check of a device whose latest stored Root is a signed Root
    document that has expired reaches the expiry test with that Root. *)
Lemma offline_check_of_stored_expired_root
    (s : @State Reference.carriers) (k : MetaCheck) (root : Reference.Meta) :
  k = OfflineDirector \/ k = OfflineImages ->
  fst (loadLatestRoot (check_repo k) s) = Some root ->
  Reference.meta_role root = Root ->
  Reference.meta_signed root = true ->
  Reference.meta_expired root = true ->
  fst (before_root_check k s) = true /\ root_expired_at_check k s = true.
Proof.
  intros Hk Hstored Hrole Hsigned Hexpired.
  unfold root_expired_at_check.
  destruct Hk as [-> | ->]; unfold before_root_check, check_repo in *;
    rewrite bind_run; unfold initStoredRoot; rewrite bind_run;
    unfold loadLatestRoot in *; simpl in *; rewrite Hstored;
    unfold initRoot, on_repo, bind; simpl; unfold Reference.init_root;
    rewrite Hrole, Hsigned; simpl; by rewrite Hexpired.
Qed.

(** A Timestamp, Snapshot or Targets document is verified only in a run
    whose Root expiry check answered that the Root has not expired. *)
Lemma dependent_role_verified_after_root_check
    `{C : Collaborators} (k : MetaCheck) (s : State) role ok :
  CVerifyRole (check_repo k) role ok ∈ called_by (run_check k) s ->
  CExpired (check_repo k) Root false ∈ called_by (run_check k) s.
Proof. apply rooted_check. Qed.

(** C6, as stated, fails in its second half: an OSTree target on a device
    whose package manager is not the OSTree one passes the guard, the
    package manager's install is called on it, and the result recorded is
    the one the package manager returns. *)
Lemma PackageInstallSetResult_installs_ostree_target_on_other_driver :
  ~ (forall (s : @State Reference.carriers) (target : Target),
       IsOstree target <> bool_decide (pacman_type s = kOstree) ->
       (exists res,
          installation_result (storage (snd (PackageInstallSetResult target s)))
          = Some res /\
          data.id res = filename target /\
          data.result_code res = data.kValidationFailed) /\
       CInstall target ∉ called_by (PackageInstallSetResult target) s).
Proof.
  intros H.
  destruct (H Reference.debian_state Reference.ostree_target) as [_ Hno].
  - discriminate.
  - apply Hno. vm_compute. repeat constructor.
Qed.

(** C6, amended: for a target that is not an OSTree target on a device whose
    package manager is the OSTree one, [PackageInstallSetResult] records a
    [kValidationFailed] result under the target's file name, makes no call
    to the package manager's install, and leaves the device and the list of
    installed versions as they were. *)
Theorem PackageInstallSetResult_rejects_non_ostree_target
    `{C : Collaborators} (s : State) (target : Target) :
  IsOstree target = false ->
  pacman_type s = kOstree ->
  installation_result (storage (snd (PackageInstallSetResult target s)))
  = Some (data.mkOperationResult (filename target) data.kValidationFailed
            "Cannot install a non-OSTree package on an OSTree system") /\
  called_by (PackageInstallSetResult target) s = [] /\
  env (snd (PackageInstallSetResult target s)) = env s /\
  installed_versions (storage (snd (PackageInstallSetResult target s)))
  = installed_versions (storage s).
Proof.
  intros Htype Hpm. unfold called_by, PackageInstallSetResult.
  rewrite Htype, Hpm. simpl. by rewrite drop_all.
Qed.

Lemma PackageInstallSetResult_rejects_non_ostree_target_witness :
  installation_result
    (storage (snd (PackageInstallSetResult Reference.binary_target
                     Reference.blank_state)))
  = Some (data.mkOperationResult "app-2.0.bin" data.kValidationFailed
            "Cannot install a non-OSTree package on an OSTree system") /\
  called_by (PackageInstallSetResult Reference.binary_target)
    Reference.blank_state = [] /\
  env (snd (PackageInstallSetResult Reference.binary_target Reference.blank_state))
  = env Reference.blank_state /\
  installed_versions
    (storage (snd (PackageInstallSetResult Reference.binary_target
                     Reference.blank_state)))
  = installed_versions (storage Reference.blank_state).
Proof.
  apply (PackageInstallSetResult_rejects_non_ostree_target
           Reference.blank_state Reference.binary_target); reflexivity.
Defined.

(** C7, as stated, fails: [CheckUpdates] on a device with no stored
    metadata makes the offline check fail, which is only logged; no event
    is written. *)
Lemma CheckUpdates_failure_emits_nothing :
  ~ (forall (s : @State Reference.carriers) (command : Command),
       command <> Shutdown ->
       length (List.filter is_terminal (emitted_by (processCommand command) s))
       = 1%nat).
Proof.
  intros H. specialize (H Reference.blank_state CheckUpdates).
  vm_compute in H. discriminate H. discriminate.
Qed.

(** C7, amended: a command leaves at most one event on the channel, except
    [UptaneInstall], which can leave two.  [SendDeviceData], [PutManifest]
    and [FetchMeta] write exactly one, their [*Complete] event or an
    [Error].  [UptaneInstall] writes [InstallComplete], or an [Error], or
    [InstallComplete] followed by an [Error] when the handling of the
    reboot flag file throws after the event was written.  [CheckUpdates]
    writes [UpdateAvailable] with a non-empty list,
    [UptaneTimestampUpdated], an [Error], or nothing.  [StartDownload] with
    an empty list writes [UptaneTimestampUpdated]; with a non-empty list it
    writes [DownloadComplete], an [Error], or nothing.  This takes
    [sendDownloadReport], the one other call made after an event inside the
    [try] block, to return normally, as [Client.sendDownloadReport] does. *)
Theorem every_command_writes_one_of_its_event_lists
    `{C : Collaborators} (command : Command) (s : State) :
  command_events command (emitted_by (processCommand command) s) /\
  (length (emitted_by (processCommand command) s) <= max_events command)%nat.
Proof.
  unfold emitted_by.
  destruct (processCommand_events command s) as (ev & -> & Hev).
  rewrite drop_app_length. split; [done |]. by apply command_events_short.
Qed.

(** The second event of [UptaneInstall] does occur: the flag file is there
    and its removal throws after [InstallComplete] was written. *)
Lemma UptaneInstall_flag_failure_writes_two_events :
  emitted_by (processCommand (UptaneInstall [])) Scenarios.stuck_flag_state
  = [InstallComplete; Error "remove: Operation not permitted"].
Proof. reflexivity. Qed.

(** The two paths that write no event at all.  A failed offline check in
    [CheckUpdates] is only logged. *)
Lemma CheckUpdates_failed_check_writes_nothing
    `{C : Collaborators} (s s1 : State) (manifest : Manifest) :
  AssembleManifest s = (Ret manifest, s1) ->
  fst (fst (uptaneOfflineIteration [] s1)) = false ->
  emitted_by (processCommand CheckUpdates) s = [].
Proof.
  intros Hmanifest Hcheck.
  unfold emitted_by, processCommand, runCommand, bindx, lift.
  rewrite Hmanifest.
  pose proof (silent_uptaneOfflineIteration [] s1) as Hsilent.
  pose proof (silentx_AssembleManifest s) as Hsilent0.
  rewrite Hmanifest in Hsilent0. simpl in Hsilent0.
  destruct (uptaneOfflineIteration [] s1) as [[ok updates] s2].
  simpl in *. subst ok. simpl.
  by rewrite Hsilent, Hsilent0, drop_all.
Qed.

(** A successful offline check in [CheckUpdates] writes exactly one
    event, [UpdateAvailable] or [UptaneTimestampUpdated]. *)
Lemma CheckUpdates_successful_check_writes_one
    `{C : Collaborators} (s s1 : State) (manifest : Manifest) :
  AssembleManifest s = (Ret manifest, s1) ->
  fst (fst (uptaneOfflineIteration [] s1)) = true ->
  emitted_by (processCommand CheckUpdates) s = [UptaneTimestampUpdated] \/
  exists updates,
    updates <> [] /\
    emitted_by (processCommand CheckUpdates) s = [UpdateAvailable updates].
Proof.
  intros Hmanifest Hcheck.
  unfold emitted_by, processCommand, runCommand, bindx, lift.
  rewrite Hmanifest.
  pose proof (silent_uptaneOfflineIteration [] s1) as Hsilent.
  pose proof (silentx_AssembleManifest s) as Hsilent0.
  rewrite Hmanifest in Hsilent0. simpl in Hsilent0.
  destruct (uptaneOfflineIteration [] s1) as [[ok updates] s2].
  simpl in *. subst ok. simpl.
  destruct updates as [| u rest]; simpl; rewrite Hsilent, Hsilent0, drop_app_length.
  - by left.
  - right. by exists (u :: rest).
Qed.

(** A download in which a target has no match in the Images targets is
    only logged as well. *)
Lemma StartDownload_unmatched_target_writes_nothing
    `{C : Collaborators} (s : State) (t : Target) :
  repo_getTarget Images (images_repo s) t = None ->
  emitted_by (processCommand (StartDownload [t])) s = [].
Proof.
  intros Hmatch.
  unfold emitted_by, processCommand, runCommand, downloadImages, bindx, retx.
  simpl. rewrite Hmatch. simpl. by rewrite drop_all.
Qed.

End ClientClaims.

(** ** The OSTree package manager *)

Module OstreeClaims.

Import Client Ostree.



(** C9, as stated, fails: on a sysroot with no booted deployment
    [getCurrentHash] throws, so a [finalizeInstall] made after a detected
    reboot returns no result at all, neither [kOk] nor [kInstallFailed],
    and the reboot flag stays set. *)
Lemma finalizeInstall_unreadable_hash_keeps_flag :
  ~ (forall (m : OstreeManager) (target : Target),
       rebootDetected (bootloader_ m) = true ->
       (exists res,
          fst (finalizeInstall target m) = Ret res /\
          (result_code res = data.kOk \/
           res = mkInstallationResult data.kInstallFailed "Wrong version booted")) /\
       reboot_flag (bootloader_ (snd (finalizeInstall target m))) = false).
Proof.
  intros H.
  destruct (H (mkOstreeManager kBooted "BOOTED" "/sysroot"
                 (Ret (mkSysroot None [])) (mkBootloader true true) None [])
              Reference.ostree_target eq_refl) as [_ Hflag].
  vm_compute in Hflag. discriminate Hflag.
Qed.

(** C9, amended: when [rebootDetected()] is true, [finalizeInstall] first
    reads the current hash.  If that read returns a hash, the result is
    [kOk] when the hash equals the target's SHA-256 hash and
    [kInstallFailed] with the description "Wrong version booted" otherwise,
    and in both cases [rebootFlagClear] has been called on the bootloader,
    so that the reboot flag is cleared.  If the read throws, the exception
    leaves [finalizeInstall]: no result is returned and the bootloader,
    with its reboot flag, is left as it was. *)
Theorem finalizeInstall_after_reboot (m : OstreeManager) (target : Target) :
  rebootDetected (bootloader_ m) = true ->
  match getCurrentHash m with
  | Ret current_hash =>
      exists res,
        fst (finalizeInstall target m) = Ret res /\
        (current_hash = sha256Hash target -> result_code res = data.kOk) /\
        (current_hash <> sha256Hash target ->
         res = mkInstallationResult data.kInstallFailed "Wrong version booted") /\
        bootloader_ (snd (finalizeInstall target m))
        = rebootFlagClear (bootloader_ m) /\
        reboot_flag (bootloader_ (snd (finalizeInstall target m))) = false
  | Throw what => finalizeInstall target m = (Throw what, m)
  end.
Proof.
  intros Hreboot. unfold finalizeInstall. rewrite Hreboot.
  destruct (getCurrentHash m) as [current_hash | what]; [| done]. simpl.
  eexists. split; [reflexivity |].
  destruct (decide (current_hash <> sha256Hash target)) as [Hne | Heq];
    repeat split; done.
Qed.

Lemma finalizeInstall_after_reboot_witness :
  let m :=
    mkOstreeManager kBooted "BOOTED" "/sysroot"
      (Ret (mkSysroot (Some (mkDeployment "0ddba11")) []))
      (mkBootloader true true) None [] in
  exists res,
    fst (finalizeInstall Reference.ostree_target m) = Ret res /\
    ("0ddba11" = sha256Hash Reference.ostree_target -> result_code res = data.kOk) /\
    ("0ddba11" <> sha256Hash Reference.ostree_target ->
     res = mkInstallationResult data.kInstallFailed "Wrong version booted") /\
    bootloader_ (snd (finalizeInstall Reference.ostree_target m))
    = rebootFlagClear (bootloader_ m) /\
    reboot_flag (bootloader_ (snd (finalizeInstall Reference.ostree_target m)))
    = false.
Proof.
  intros m.
  exact (finalizeInstall_after_reboot m Reference.ostree_target eq_refl).
Defined.

(** Without a detected reboot nothing is compared and the bootloader is
    left alone. *)
Lemma finalizeInstall_without_reboot (m : OstreeManager) (target : Target) :
  rebootDetected (bootloader_ m) = false ->
  finalizeInstall target m
  = (Ret (mkInstallationResult data.kNeedCompletion
            "Reboot is required for the pending update application"), m).
Proof. intros Hreboot. unfold finalizeInstall. by rewrite Hreboot. Qed.

(** When the current hash cannot be read the exception leaves
    [finalizeInstall] before the reboot flag is touched. *)
Lemma finalizeInstall_hash_unreadable (m : OstreeManager) (target : Target) what :
  rebootDetected (bootloader_ m) = true ->
  getCurrentHash m = Throw what ->
  finalizeInstall target m = (Throw what, m).
Proof.
  intros Hreboot Hhash. unfold finalizeInstall. by rewrite Hreboot, Hhash.
Qed.


End OstreeClaims.

(** * Further properties *)

(** ** Target selection: what is selected and when it fails *)

Module TargetSelectionMore.

Import TargetSelection TargetSelectionFacts Authorisation.

Section Facts.

Variable hw_ids : gmap string HardwareIdentifier.
Variable installed_images : gmap string string.

Local Abbreviation scan := (scan_ecus hw_ids installed_images).
Local Abbreviation select := (getNewTargets hw_ids installed_images).
Local Abbreviation ok := (authorised hw_ids installed_images).

Lemma scan_true_authorised fname es is_new :
  scan fname es is_new = Some true ->
  Forall (entry_authorised hw_ids installed_images) es.
Proof.
  revert is_new. induction es as [| [s d] es IH]; intros is_new; simpl; [done |].
  destruct (hw_ids !! s) as [h |] eqn:Hh; [| done].
  destruct (decide (h = d)) as [-> |]; [| done].
  destruct (installed_images !! s) as [img |] eqn:Himg; [| done].
  intros Hscan. constructor.
  - split; [done | by exists img].
  - destruct (decide (img = fname)); by eapply IH.
Qed.

Lemma scan_authorised fname es :
  Forall (entry_authorised hw_ids installed_images) es ->
  scan fname es true = Some true.
Proof.
  induction 1 as [| [s d] es [Hh [img Himg]] _ IH]; simpl in *; [done |].
  rewrite Hh, Himg. destruct (decide (d = d)); [| done].
  by destruct (decide (img = fname)).
Qed.

Lemma scan_none_mismatch fname es is_new :
  scan fname es is_new = None ->
  exists s declared known,
    (s, declared) ∈ es /\ hw_ids !! s = Some known /\ known <> declared.
Proof.
  revert is_new. induction es as [| [s d] es IH]; intros is_new; simpl; [done |].
  destruct (hw_ids !! s) as [h |] eqn:Hh; [| done].
  destruct (decide (h = d)) as [-> | Hne].
  - destruct (installed_images !! s) as [img |]; [| done].
    intros Hscan.
    assert (Hrest : exists b, scan fname es b = None)
      by (destruct (decide (img = fname)); eauto).
    destruct Hrest as [b Hb].
    destruct (IH b Hb) as (s' & d' & k' & Hin & Hk & Hneq).
    exists s', d', k'. split; [by right | done].
  - intros _. exists s, d, h. split; [left | done].
Qed.

Lemma select_added targets acc :
  exists added,
    snd (select targets acc) = acc ++ added /\
    added `sublist_of` targets /\
    Forall ok added /\
    (fst (select targets acc) = true -> added = filter ok targets).
Proof.
  revert acc. induction targets as [| t rest IH]; intros acc; simpl.
  - exists []. by rewrite app_nil_r.
  - destruct (scan (filename t) (ecus t) true) as [[] |] eqn:Ht.
    + destruct (IH (acc ++ [t])) as (added & Hout & Hsub & Hok & Hexact).
      pose proof (scan_true_authorised _ _ _ Ht) as Hauth.
      exists (t :: added). rewrite Hout, <- app_assoc. split; [done |].
      split; [by apply sublist_skip |]. split; [by constructor |].
      intros Htrue. rewrite filter_cons_True by done. f_equal. by apply Hexact.
    + destruct (IH acc) as (added & Hout & Hsub & Hok & Hexact).
      exists added. split; [done |]. split; [by apply sublist_cons |].
      split; [done |]. intros Htrue.
      rewrite filter_cons_False; [by apply Hexact |].
      intros Hauth. apply scan_authorised with (fname := filename t) in Hauth.
      rewrite Hauth in Ht. discriminate.
    + exists []. rewrite app_nil_r. split; [done |].
      split; [apply sublist_nil_l |]. split; [constructor | done].
Qed.

End Facts.

(** X1: whatever [getNewTargets] appends to its output vector, on success
    or on failure, is a subsequence of the Director targets in their
    order, and every appended target has all its ECUs in the inventory with
    the declared hardware identifier and an installed image on record. *)
Theorem getNewTargets_appends_authorised_targets_in_order
    (hw_ids : gmap string HardwareIdentifier)
    (installed_images : gmap string string)
    (targets new_targets : list Target) :
  exists added,
    snd (getNewTargets hw_ids installed_images targets new_targets)
    = new_targets ++ added /\
    added `sublist_of` targets /\
    Forall (authorised hw_ids installed_images) added.
Proof.
  destruct (select_added hw_ids installed_images targets new_targets)
    as (added & Hout & Hsub & Hok & _).
  by exists added.
Qed.

(** X2: when [getNewTargets] returns [true], the targets it appended are
    exactly the Director targets all of whose ECUs are in the inventory
    with the declared hardware identifier and an installed image on
    record, duplicates included; a target is left out exactly when one of
    its ECUs is unknown or has no installed image on record. *)
Theorem getNewTargets_selects_exactly_the_authorised
    (hw_ids : gmap string HardwareIdentifier)
    (installed_images : gmap string string)
    (targets new_targets : list Target) :
  fst (getNewTargets hw_ids installed_images targets new_targets) = true ->
  snd (getNewTargets hw_ids installed_images targets new_targets)
  = new_targets ++ filter (authorised hw_ids installed_images) targets.
Proof.
  intros Htrue.
  destruct (select_added hw_ids installed_images targets new_targets)
    as (added & Hout & _ & _ & Hexact).
  by rewrite Hout, Hexact.
Qed.

Lemma getNewTargets_selects_exactly_the_authorised_witness :
  let hw_ids : gmap string HardwareIdentifier := {["S1" := "H1"]} in
  let installed_images : gmap string string := {["S1" := "old.img"]} in
  let x := mkTarget "x.img" [("S1", "H1"); ("S_unknown", "H9")] [] 0 "binary" in
  let new := mkTarget "new.img" [("S1", "H1")] [] 0 "binary" in
  snd (getNewTargets hw_ids installed_images [x; new; new] [])
  = [] ++ filter (authorised hw_ids installed_images) [x; new; new].
Proof.
  intros hw_ids installed_images x new.
  apply (getNewTargets_selects_exactly_the_authorised
           hw_ids installed_images [x; new; new] []).
  reflexivity.
Defined.

(** X3: [getNewTargets] returns [false] only when some Director target
    names a serial of the inventory with a hardware identifier other than
    the inventory's; unknown serials and missing image records never make
    it fail. *)
Theorem getNewTargets_fails_only_on_mismatch
    (hw_ids : gmap string HardwareIdentifier)
    (installed_images : gmap string string)
    (targets new_targets : list Target) :
  fst (getNewTargets hw_ids installed_images targets new_targets) = false ->
  exists t, t ∈ targets /\ names_mismatch hw_ids t.
Proof.
  revert new_targets. induction targets as [| t rest IH]; intros acc; simpl; [done |].
  destruct (scan_ecus hw_ids installed_images (filename t) (ecus t) true)
    as [[] |] eqn:Ht.
  - intros (t' & Hin & Hm)%IH. exists t'. split; [by right | done].
  - intros (t' & Hin & Hm)%IH. exists t'. split; [by right | done].
  - intros _. exists t. split; [left |].
    by apply scan_none_mismatch in Ht.
Qed.

Lemma getNewTargets_fails_only_on_mismatch_witness :
  let hw_ids : gmap string HardwareIdentifier := {["S1" := "H_real"]} in
  let installed_images : gmap string string := {["S1" := "old.img"]} in
  let t := mkTarget "new.img" [("S1", "H_wrong")] [] 0 "binary" in
  exists t', t' ∈ [t] /\ names_mismatch hw_ids t'.
Proof.
  intros hw_ids installed_images t.
  apply (getNewTargets_fails_only_on_mismatch hw_ids installed_images [t] []).
  reflexivity.
Defined.

End TargetSelectionMore.

(** ** Metadata checks: order, network use and the Root walk *)

Module MetaMore.

Import Client ClientFacts CallLog Observed.

(** Replaces a boolean known through its negation by its value. *)
Ltac settle_negb :=
  repeat match goal with
         | H : negb ?b = _ |- _ => destruct b; simpl in H; try discriminate H; clear H
         end.

Section Facts.

Context `{C : Collaborators}.

Lemma root_only_no_checks d :
  forallb root_only d = true -> List.filter is_check d = [].
Proof.
  induction d as [| c d IH]; [done |]. simpl.
  intros [Hc Hd]%andb_prop. rewrite (IH Hd).
  by destruct c as [| | | | | | | | |].
Qed.

Lemma passes_after_proceed_if (c k : M bool) l1 l2 :
  passes_after c l1 -> passes_after k l2 ->
  passes_after (proceed_if c k) (l1 ++ l2).
Proof.
  intros Hc Hk s. rewrite proceed_if_run.
  destruct (fst (c s)) eqn:Hok; [| done]. intros Hpass.
  destruct (Hc s Hok) as (d1 & Hd1 & Hf1).
  destruct (Hk (snd (c s)) Hpass) as (d2 & Hd2 & Hf2).
  exists (d1 ++ d2). split.
  - by rewrite Hd2, Hd1, app_assoc.
  - by rewrite List.filter_app, Hf1, Hf2.
Qed.

Lemma passes_after_bind {A} (c : M A) (k : A -> M bool) l :
  (forall s, calls (snd (c s)) = calls s) ->
  (forall a, passes_after (k a) l) ->
  passes_after (bind c k) l.
Proof.
  intros Hc Hk s. rewrite bind_run. intros Hpass.
  destruct (Hk _ _ Hpass) as (d & Hd & Hf).
  exists d. by rewrite Hd, Hc.
Qed.

Lemma passes_after_loadInitialRoot r : passes_after (loadInitialRoot r) [].
Proof.
  intros s _. destruct (loadInitialRoot r s) as [ok s'] eqn:Hrun.
  apply loadInitialRoot_spec in Hrun as (d & Hd & Hp & _).
  exists d. split; [done | by apply root_only_no_checks].
Qed.

Lemma passes_after_updateRoot r :
  passes_after (updateRoot r) [CExpired r Root false].
Proof.
  intros s. unfold updateRoot. rewrite bind_run. unfold fetchLatestRole.
  destruct (fetcher_fetchLatestRole kMaxRootSize r Root (net s)) as [[root |] n'];
    simpl; [| done].
  rewrite bind_run. unfold rootVersion. simpl. rewrite proceed_if_run.
  match goal with
  | |- context [rootRotation _ ?k ?v ?s1] =>
      destruct (rootRotation r k v s1) as [walked s2] eqn:Hrot
  end.
  apply rootRotation_spec in Hrot as (d & Hd & Hall & _).
  simpl in *. destruct walked; simpl; [| done].
  unfold bind, roleExpired, setLastException, ret. simpl.
  destruct (repo_rootExpired r (get_repo r s2)); simpl; [done |].
  intros _. eexists. split; [rewrite Hd; rewrite <- !app_assoc; reflexivity |].
  rewrite !List.filter_app, (root_only_no_checks _ Hall). reflexivity.
Qed.

Lemma passes_after_updateRole r role maxsize :
  role <> Root ->
  passes_after (updateRole r role maxsize)
    [CVerifyRole r role true; CExpired r role false].
Proof.
  intros Hrole s. unfold updateRole.
  destruct r, role; try done; run_block; intros Hpass; try discriminate;
    settle_negb; log_delta; reflexivity.
Qed.

Lemma passes_after_checkRootOffline r :
  passes_after (checkRootOffline r) [CExpired r Root false].
Proof.
  intros s. unfold checkRootOffline.
  destruct r; run_block; intros Hpass; try discriminate; settle_negb;
    log_delta; reflexivity.
Qed.

Lemma passes_after_checkRoleOffline r role :
  role <> Root ->
  passes_after (checkRoleOffline r role)
    [CVerifyRole r role true; CExpired r role false].
Proof.
  intros Hrole s. unfold checkRoleOffline.
  destruct r, role; try done; run_block; intros Hpass; try discriminate;
    settle_negb; log_delta; reflexivity.
Qed.

Lemma passes_after_run_check k : passes_after (run_check k) (passing_checks k).
Proof.
  destruct k; unfold passing_checks; simpl.
  - unfold updateDirectorMeta.
    apply passes_after_bind; [intros s; apply resetMeta_run | intros _].
    apply (passes_after_proceed_if _ _ []); [apply passes_after_loadInitialRoot |].
    apply (passes_after_proceed_if _ _ [_]); [apply passes_after_updateRoot |].
    by apply passes_after_updateRole.
  - unfold updateImagesMeta.
    apply passes_after_bind; [intros s; apply resetMeta_run | intros _].
    apply (passes_after_proceed_if _ _ []); [apply passes_after_loadInitialRoot |].
    apply (passes_after_proceed_if _ _ [_]); [apply passes_after_updateRoot |].
    apply (passes_after_proceed_if _ _ [_; _]); [by apply passes_after_updateRole |].
    apply (passes_after_proceed_if _ _ [_; _]).
    + apply passes_after_bind; [done | intros size; by apply passes_after_updateRole].
    + apply passes_after_bind; [done | intros size; by apply passes_after_updateRole].
  - unfold checkDirectorMetaOffline.
    apply passes_after_bind; [intros s; apply resetMeta_run | intros _].
    apply (passes_after_proceed_if _ _ [_]); [apply passes_after_checkRootOffline |].
    by apply passes_after_checkRoleOffline.
  - unfold checkImagesMetaOffline.
    apply passes_after_bind; [intros s; apply resetMeta_run | intros _].
    apply (passes_after_proceed_if _ _ [_]); [apply passes_after_checkRootOffline |].
    apply (passes_after_proceed_if _ _ [_; _]); [by apply passes_after_checkRoleOffline |].
    apply (passes_after_proceed_if _ _ [_; _]); by apply passes_after_checkRoleOffline.
Qed.

End Facts.

(** X4: a metadata check (online refresh or offline check, Director or
    Images) returns [true] only after this exact sequence of verifications
    and expiry checks, each with a good answer: the Root is found not
    expired, then each of the repository's other roles, in the order
    Timestamp, Snapshot, Targets (Targets alone for the Director), is
    verified and found not expired.  No verification fails and no expiry
    check answers "expired" in a run that passes. *)
Theorem passing_check_made_every_check_in_order
    `{C : Collaborators} (k : MetaCheck) (s : State) :
  fst (run_check k s) = true ->
  List.filter is_check (called_by (run_check k) s) = passing_checks k.
Proof.
  intros Hpass. destruct (passes_after_run_check k s Hpass) as (d & Hd & Hf).
  by rewrite (called_by_steps _ _ _ Hd).
Qed.

Lemma passing_check_made_every_check_in_order_witness :
  List.filter is_check
    (called_by (run_check OnlineDirector) Reference.rollback_after_rotation_state)
  = passing_checks OnlineDirector.
Proof.
  apply (passing_check_made_every_check_in_order
           OnlineDirector Reference.rollback_after_rotation_state).
  reflexivity.
Defined.

Section Offline.

Context `{C : Collaborators}.

Lemma offline_ret {A} (a : A) : offline (ret a).
Proof. intros s. repeat split. exists []. by rewrite app_nil_r. Qed.

Lemma offline_bind {A B} (c : M A) (k : A -> M B) :
  offline c -> (forall a, offline (k a)) -> offline (bind c k).
Proof.
  intros Hc Hk s. rewrite bind_run.
  destruct (Hc s) as (Hn1 & Hs1 & d1 & Hd1 & Hp1).
  destruct (Hk (fst (c s)) (snd (c s))) as (Hn2 & Hs2 & d2 & Hd2 & Hp2).
  split; [by rewrite Hn2 |]. split; [by rewrite Hs2 |].
  exists (d1 ++ d2). split; [by rewrite Hd2, Hd1, app_assoc |].
  by rewrite forallb_app, Hp1, Hp2.
Qed.

Lemma offline_proceed_if (c k : M bool) :
  offline c -> offline k -> offline (proceed_if c k).
Proof.
  intros Hc Hk. apply offline_bind; [done |].
  intros []; [done | apply offline_ret].
Qed.

Lemma offline_resetMeta r : offline (resetMeta r).
Proof. intros s. destruct r; repeat split; exists []; by rewrite app_nil_r. Qed.

Lemma offline_checkRootOffline r : offline (checkRootOffline r).
Proof.
  intros s. unfold checkRootOffline.
  destruct r; run_block; (split; [done |]; split; [done |]); log_delta; reflexivity.
Qed.

Lemma offline_checkRoleOffline r role : offline (checkRoleOffline r role).
Proof.
  intros s. unfold checkRoleOffline.
  destruct r, role; run_block; (split; [done |]; split; [done |]);
    log_delta; reflexivity.
Qed.

Lemma offline_checkDirectorMetaOffline : offline checkDirectorMetaOffline.
Proof.
  unfold checkDirectorMetaOffline.
  apply offline_bind; [apply offline_resetMeta | intros _].
  apply offline_proceed_if;
    [apply offline_checkRootOffline | apply offline_checkRoleOffline].
Qed.

Lemma offline_checkImagesMetaOffline : offline checkImagesMetaOffline.
Proof.
  unfold checkImagesMetaOffline.
  apply offline_bind; [apply offline_resetMeta | intros _].
  apply offline_proceed_if; [apply offline_checkRootOffline |].
  repeat (apply offline_proceed_if; [apply offline_checkRoleOffline |]).
  apply offline_checkRoleOffline.
Qed.

End Offline.

(** X5: the offline iteration behind [CheckUpdates] works from the device
    alone: [uptaneOfflineIteration], with both offline checks it runs,
    makes no fetch and leaves the fetcher's side and the storage exactly
    as they were. *)
Theorem offline_iteration_uses_neither_network_nor_storage
    `{C : Collaborators} (targets : list Target) (s : State) :
  net (snd (uptaneOfflineIteration targets s)) = net s /\
  storage (snd (uptaneOfflineIteration targets s)) = storage s /\
  forall c, c ∈ called_by (uptaneOfflineIteration targets) s -> is_fetch c = false.
Proof.
  assert (Hoff : offline (uptaneOfflineIteration targets)).
  { unfold uptaneOfflineIteration.
    apply offline_bind; [apply offline_checkDirectorMetaOffline |].
    intros []; simpl; [| apply offline_ret].
    apply offline_bind.
    { intros s'. repeat split. exists []. by rewrite app_nil_r. }
    intros [[] tmp_targets]; simpl; [| apply offline_ret].
    destruct tmp_targets; [apply offline_ret |].
    apply offline_bind; [apply offline_checkImagesMetaOffline |].
    intros []; apply offline_ret. }
  destruct (Hoff s) as (Hnet & Hst & d & Hd & Hp).
  repeat split; [done.. |].
  rewrite (called_by_steps _ _ _ Hd). intros c Hc.
  apply (forallb_elem _ _ _ Hp) in Hc. by destruct (is_fetch c).
Qed.

Section Walk.

Context `{C : Collaborators}.

Lemma stored_root_versions_app r d1 d2 :
  stored_root_versions r (d1 ++ d2)
  = stored_root_versions r d1 ++ stored_root_versions r d2.
Proof.
  induction d1 as [| c d1 IH]; [done |]. simpl.
  destruct c; try done. case_decide; simpl; by rewrite IH.
Qed.

Lemma rootRotation_stores r n version s ok s' :
  rootRotation r n version s = (ok, s') ->
  exists d k,
    calls s' = calls s ++ d /\
    (k <= n)%nat /\
    stored_root_versions r d = versions_from version k /\
    length (List.filter (accepts_root r) d) = k /\
    (ok = true -> k = n) /\
    (roots (storage s') r).*1
    = rev (versions_from version k) ++ (roots (storage s) r).*1.
Proof.
  revert version s. induction n as [| n IH]; intros version s; simpl.
  - intros [= <- <-]. exists [], 0%nat. rewrite app_nil_r. by repeat split.
  - destruct r; run_block;
      try (intros [= <- <-]; eexists; exists 0%nat; split; [simpl; grown |];
           repeat split; try done; try lia; fail).
    all: intros (d & k & Hd & Hk & Hst & Hacc & Hok & Hroots)%IH.
    all: eexists; exists (S k); split; [rewrite Hd; simpl; grown |].
    all: rewrite ?stored_root_versions_app, ?List.filter_app, ?length_app.
    all: simpl in *.
    all: repeat split; [lia | by rewrite Hst | by rewrite Hacc | intros H; by rewrite Hok |].
    all: rewrite Hroots; by rewrite <- app_assoc.
Qed.


Lemma updateRoot_run r s :
  updateRoot r s
  = match fetcher_fetchLatestRole kMaxRootSize r Root (net s) with
    | (None, n') =>
        (false, set_calls (calls s ++ [CFetchLatestRole r Root false]) (set_net n' s))
    | (Some root, n') =>
        proceed_if
          (rootRotation r
             (Z.to_nat (extractVersionUntrusted root - repo_rootVersion r (get_repo r s)))
             (repo_rootVersion r (get_repo r s) + 1))
          (bind (roleExpired r Root)
             (fun expired : bool =>
                if expired
                then bind (setLastException (ExpiredMetadata (reponame r) "root"))
                       (fun _ => ret false)
                else ret true))
          (set_calls (calls s ++ [CFetchLatestRole r Root true]) (set_net n' s))
    end.
Proof.
  unfold updateRoot. rewrite bind_run. unfold fetchLatestRole.
  destruct (fetcher_fetchLatestRole kMaxRootSize r Root (net s)) as [[root |] n'];
    simpl; [| done].
  rewrite bind_run. unfold rootVersion. simpl. by destruct r.
Qed.

End Walk.

(** X6: when the latest Root the server hands out is not newer than the
    Root the repository holds, the "Update Root Metadata" step fetches,
    verifies and stores no Root at all.  Its only calls are the fetch of
    the latest Root and the expiry check of the Root already held, and it
    succeeds exactly when that Root has not expired; storage and repository
    stay as they were. *)
Theorem updateRoot_without_newer_root_only_checks_expiry
    `{C : Collaborators} (r : RepositoryType) (s : State) (root : Blob) :
  fst (fetcher_fetchLatestRole kMaxRootSize r Root (net s)) = Some root ->
  extractVersionUntrusted root <= repo_rootVersion r (get_repo r s) ->
  called_by (updateRoot r) s
  = [CFetchLatestRole r Root true;
     CExpired r Root (repo_rootExpired r (get_repo r s))] /\
  fst (updateRoot r s) = negb (repo_rootExpired r (get_repo r s)) /\
  storage (snd (updateRoot r s)) = storage s /\
  get_repo r (snd (updateRoot r s)) = get_repo r s.
Proof.
  intros Hfetch Hold. unfold called_by. rewrite updateRoot_run.
  destruct (fetcher_fetchLatestRole kMaxRootSize r Root (net s)) as [fetched n'].
  simpl in Hfetch. subst fetched.
  assert (Hnone : Z.to_nat (extractVersionUntrusted root
                             - repo_rootVersion r (get_repo r s)) = 0%nat) by lia.
  rewrite Hnone.
  destruct r; run_block; rewrite <- ?app_assoc, ?drop_app_length; by repeat split.
Qed.

Lemma updateRoot_without_newer_root_only_checks_expiry_witness :
  let s := before_walk Director Reference.rollback_state in
  called_by (updateRoot Director) s
  = [CFetchLatestRole Director Root true;
     CExpired Director Root (repo_rootExpired Director (get_repo Director s))] /\
  fst (updateRoot Director s)
  = negb (repo_rootExpired Director (get_repo Director s)) /\
  storage (snd (updateRoot Director s)) = storage s /\
  get_repo Director (snd (updateRoot Director s)) = get_repo Director s.
Proof.
  apply (updateRoot_without_newer_root_only_checks_expiry
           Director (before_walk Director Reference.rollback_state)
           (Reference.root_v 1)).
  - reflexivity.
  - vm_compute. discriminate.
Defined.

(** X7: the Root walk accepts and stores Roots strictly one version at a
    time.  The versions under which [updateRoot] stores Roots are the
    consecutive versions [local + 1, local + 2, ...] in this order, one for
    each Root that [verifyRoot] accepted and none for any other; they are
    put in front of the stored Roots; and the step succeeds only if the
    walk reached the version advertised by the server's latest Root. *)
Theorem root_walk_stores_consecutive_verified_roots
    `{C : Collaborators} (r : RepositoryType) (s : State) :
  exists k : nat,
    (k <= advertised_distance r s)%nat /\
    stored_root_versions r (called_by (updateRoot r) s)
    = versions_from (repo_rootVersion r (get_repo r s) + 1) k /\
    length (List.filter (accepts_root r) (called_by (updateRoot r) s)) = k /\
    (fst (updateRoot r s) = true -> k = advertised_distance r s) /\
    (roots (storage (snd (updateRoot r s))) r).*1
    = rev (versions_from (repo_rootVersion r (get_repo r s) + 1) k)
      ++ (roots (storage s) r).*1.
Proof.
  unfold called_by, advertised_distance. rewrite updateRoot_run.
  destruct (fetcher_fetchLatestRole kMaxRootSize r Root (net s)) as [[root |] n'];
    simpl.
  2: { exists 0%nat. rewrite drop_app_length. by repeat split. }
  rewrite proceed_if_run.
  match goal with
  | |- context [rootRotation _ ?k ?v ?s1] =>
      destruct (rootRotation r k v s1) as [walked s2] eqn:Hrot
  end.
  apply rootRotation_stores in Hrot as (d & k & Hd & Hk & Hst & Hacc & Hok & Hroots).
  simpl in Hd, Hroots. exists k. destruct walked; simpl.
  - unfold bind, roleExpired, setLastException, ret. simpl.
    destruct (repo_rootExpired r (get_repo r s2)); simpl.
    all: rewrite Hd, <- !app_assoc, drop_app_length.
    all: rewrite ?stored_root_versions_app, ?List.filter_app, ?length_app; simpl.
    all: rewrite ?app_nil_r, ?Nat.add_0_r.
    all: repeat split; try done; intros _; by apply Hok.
  - rewrite Hd, <- !app_assoc, drop_app_length.
    rewrite ?stored_root_versions_app, ?List.filter_app, ?length_app; simpl.
    by repeat split.
Qed.

Section Stores.
Context `{C : Collaborators}.

Lemma updateRole_store r role maxsize s :
  role <> Root ->
  let s' := snd (updateRole r role maxsize s) in
  roots (storage s') = roots (storage s) /\
  (forall r' role', (r', role') <> (r, role) ->
     non_root (storage s') r' role' = non_root (storage s) r' role') /\
  (storage s' = storage s \/
   exists meta,
     fst (fetcher_fetchLatestRole maxsize r role (net s)) = Some meta /\
     non_root (storage s') r role = Some meta /\
     CVerifyRole r role true ∈ called_by (updateRole r role maxsize) s /\
     stored_version r role (storage s) < extractVersionUntrusted meta).
Proof.
  intros Hrole. unfold called_by, updateRole, stored_version.
  destruct r, role; try done; run_block.
  all: split; [done |].
  all: split;
         [first [done | intros r' role' Hne; case_decide; [destruct_and!; by subst | done]] |].
  all: try (by left).
  all: right; eexists; split; [done |].
  all: split; [first [done | by rewrite decide_True] |].
  all: rewrite <- ?app_assoc, drop_app_length.
  all: split; [settle_negb; is_among | lia].
Qed.


Lemma for_repo_loadInitialRoot r : logs_only (for_repo r) (loadInitialRoot r).
Proof.
  intros s. unfold loadInitialRoot. destruct r; run_block; log_delta; reflexivity.
Qed.

Lemma for_repo_rootRotation r n version :
  logs_only (for_repo r) (rootRotation r n version).
Proof.
  revert version. induction n as [| n IH]; intros version; simpl.
  - apply logs_only_ret.
  - intros s. destruct r; run_block; try (log_delta; reflexivity).
    all: match goal with
         | |- context [rootRotation _ _ ?v ?s1] =>
             destruct (IH v s1) as (d & Hd & Hp)
         end.
    all: eexists; split; [rewrite Hd; simpl; rewrite <- !app_assoc; reflexivity |].
    all: simpl; by rewrite Hp.
Qed.

Lemma for_repo_updateRoot r : logs_only (for_repo r) (updateRoot r).
Proof.
  unfold updateRoot. apply logs_only_bind.
  { intros s. destruct r; run_block; log_delta; reflexivity. }
  intros [root |]; [| apply logs_only_ret].
  apply logs_only_bind; [intros s; exists []; by rewrite app_nil_r |].
  intros local. apply logs_only_proceed_if; [apply for_repo_rootRotation |].
  intros s. destruct r; run_block; log_delta; reflexivity.
Qed.

Lemma for_repo_updateRole r role maxsize :
  logs_only (for_repo r) (updateRole r role maxsize).
Proof.
  intros s. unfold updateRole. destruct r, role; run_block; log_delta; reflexivity.
Qed.

Lemma for_repo_checkRootOffline r : logs_only (for_repo r) (checkRootOffline r).
Proof.
  intros s. unfold checkRootOffline. destruct r; run_block; log_delta; reflexivity.
Qed.

Lemma for_repo_checkRoleOffline r role :
  logs_only (for_repo r) (checkRoleOffline r role).
Proof.
  intros s. unfold checkRoleOffline. destruct r, role; run_block; log_delta; reflexivity.
Qed.

Lemma logs_only_quiet p {A} (c : M A) :
  (forall s, calls (snd (c s)) = calls s) -> logs_only p c.
Proof. intros Hc s. exists []. by rewrite app_nil_r. Qed.

Lemma for_repo_run_check k : logs_only (for_repo (check_repo k)) (run_check k).
Proof.
  destruct k; simpl.
  - unfold updateDirectorMeta.
    apply logs_only_bind; [by apply logs_only_quiet | intros _].
    apply logs_only_proceed_if; [apply for_repo_loadInitialRoot |].
    apply logs_only_proceed_if; [apply for_repo_updateRoot |].
    apply for_repo_updateRole.
  - unfold updateImagesMeta.
    apply logs_only_bind; [by apply logs_only_quiet | intros _].
    apply logs_only_proceed_if; [apply for_repo_loadInitialRoot |].
    apply logs_only_proceed_if; [apply for_repo_updateRoot |].
    apply logs_only_proceed_if; [apply for_repo_updateRole |].
    apply logs_only_proceed_if.
    + apply logs_only_bind; [by apply logs_only_quiet | intros size].
      apply for_repo_updateRole.
    + apply logs_only_bind; [by apply logs_only_quiet | intros size].
      apply for_repo_updateRole.
  - unfold checkDirectorMetaOffline.
    apply logs_only_bind; [by apply logs_only_quiet | intros _].
    apply logs_only_proceed_if; [apply for_repo_checkRootOffline |].
    apply for_repo_checkRoleOffline.
  - unfold checkImagesMetaOffline.
    apply logs_only_bind; [by apply logs_only_quiet | intros _].
    apply logs_only_proceed_if; [apply for_repo_checkRootOffline |].
    repeat (apply logs_only_proceed_if; [apply for_repo_checkRoleOffline |]).
    apply for_repo_checkRoleOffline.
Qed.

End Stores.

(** X8: refreshing Timestamp, Snapshot or Targets never lowers the version
    of the stored document of that role and touches nothing else in the
    storage: the stored Roots and the documents of every other role and
    repository stay.  When the stored document changes, the new one is the
    document just fetched, [verifyRole] accepted it in this run, and its
    version is strictly higher than the one stored before ([-1] when none
    was stored). *)
Theorem updateRole_stores_only_a_verified_newer_document
    `{C : Collaborators} (r : RepositoryType) (role : Role) (maxsize : Z)
    (s : State) :
  role <> Root ->
  let s' := snd (updateRole r role maxsize s) in
  stored_version r role (storage s) <= stored_version r role (storage s') /\
  roots (storage s') = roots (storage s) /\
  (forall r' role', (r', role') <> (r, role) ->
     non_root (storage s') r' role' = non_root (storage s) r' role') /\
  (non_root (storage s') r role <> non_root (storage s) r role ->
   exists meta,
     fst (fetcher_fetchLatestRole maxsize r role (net s)) = Some meta /\
     non_root (storage s') r role = Some meta /\
     CVerifyRole r role true ∈ called_by (updateRole r role maxsize) s /\
     stored_version r role (storage s) < extractVersionUntrusted meta).
Proof.
  intros Hrole s'.
  destruct (updateRole_store r role maxsize s Hrole) as (Hroots & Hothers & Hthis).
  fold s' in Hroots, Hothers, Hthis.
  split; [| split; [done | split; [done |]]].
  - destruct Hthis as [Hsame | (meta & _ & Hnew & _ & Hlt)].
    + by rewrite Hsame.
    + unfold stored_version at 2. rewrite Hnew. lia.
  - intros Hchanged. destruct Hthis as [Hsame | Hthis]; [| done].
    by rewrite Hsame in Hchanged.
Qed.

Lemma updateRole_stores_only_a_verified_newer_document_witness :
  let s := before_targets Reference.rollback_after_rotation_state in
  let s' := snd (updateRole Director Targets kMaxDirectorTargetsSize s) in
  stored_version Director Targets (storage s)
  <= stored_version Director Targets (storage s') /\
  roots (storage s') = roots (storage s) /\
  (forall r' role', (r', role') <> (Director, Targets) ->
     non_root (storage s') r' role' = non_root (storage s) r' role') /\
  (non_root (storage s') Director Targets <> non_root (storage s) Director Targets ->
   exists meta,
     fst (fetcher_fetchLatestRole kMaxDirectorTargetsSize Director Targets (net s))
     = Some meta /\
     non_root (storage s') Director Targets = Some meta /\
     CVerifyRole Director Targets true
     ∈ called_by (updateRole Director Targets kMaxDirectorTargetsSize) s /\
     stored_version Director Targets (storage s) < extractVersionUntrusted meta).
Proof.
  apply (updateRole_stores_only_a_verified_newer_document
           Director Targets kMaxDirectorTargetsSize
           (before_targets Reference.rollback_after_rotation_state)).
  discriminate.
Defined.

(** X9: one online iteration talks to the Director first and to the Images
    repository only afterwards.  The calls of [uptaneIteration] are those
    of [updateDirectorMeta], all for the Director, followed by calls for
    the Images repository only; and any call for the Images repository is
    made only after the Director refresh succeeded and the selection
    returned at least one target. *)
Theorem uptaneIteration_contacts_images_after_director
    `{C : Collaborators} (s : State) :
  exists d_images,
    called_by uptaneIteration s = called_by updateDirectorMeta s ++ d_images /\
    forallb (for_repo Director) (called_by updateDirectorMeta s) = true /\
    forallb (for_repo Images) d_images = true /\
    (d_images <> [] ->
     fst (updateDirectorMeta s) = true /\
     exists t rest,
       fst (getNewTargets [] (snd (updateDirectorMeta s))) = (true, t :: rest)).
Proof.
  destruct (for_repo_run_check OnlineDirector s) as (d1 & Hd1 & Hp1).
  simpl in Hd1, Hp1. rewrite (called_by_steps _ _ _ Hd1).
  unfold called_by, uptaneIteration. rewrite proceed_if_run.
  destruct (fst (updateDirectorMeta s)) eqn:Hdir.
  2: { exists []. simpl. rewrite Hd1, drop_app_length, app_nil_r. by repeat split. }
  rewrite bind_run. unfold getNewTargets. simpl.
  destruct (TargetSelection.getNewTargets _ _ _ _) as [[] [| t rest]] eqn:Hsel; simpl.
  2: { destruct (for_repo_run_check OnlineImages (snd (updateDirectorMeta s)))
         as (d2 & Hd2 & Hp2).
       simpl in Hd2, Hp2. exists d2. rewrite proceed_if_run.
       assert (Hcalls : calls (snd (if fst (updateImagesMeta (snd (updateDirectorMeta s)))
                               then ret true (snd (updateImagesMeta (snd (updateDirectorMeta s))))
                               else (false, snd (updateImagesMeta (snd (updateDirectorMeta s))))))
                        = calls s ++ d1 ++ d2).
       { destruct (fst (updateImagesMeta _)); simpl; by rewrite Hd2, Hd1, app_assoc. }
       rewrite Hcalls, drop_app_length. repeat split; try done.
       by exists t, rest. }
  all: exists []; rewrite Hd1, drop_app_length, app_nil_r; by repeat split.
Qed.

End MetaMore.

(** ** The command loop: order, shutdown and what is announced *)

Module LoopMore.

Import Client ClientFacts CallLog Observed Authorisation.

Section Flags.
Context `{C : Collaborators}.

Lemma keeps_running_ret {A} (a : A) : keeps_running (ret a).
Proof. by intros s. Qed.

Lemma keeps_running_bind {A B} (c : M A) (k : A -> M B) :
  keeps_running c -> (forall a, keeps_running (k a)) -> keeps_running (bind c k).
Proof. intros Hc Hk s. rewrite bind_run. by rewrite Hk, Hc. Qed.

Lemma keeps_running_proceed_if (c k : M bool) :
  keeps_running c -> keeps_running k -> keeps_running (proceed_if c k).
Proof.
  intros Hc Hk. apply keeps_running_bind; [done |].
  intros []; [done | apply keeps_running_ret].
Qed.

Lemma keeps_running_rootRotation r n version :
  keeps_running (rootRotation r n version).
Proof.
  revert version. induction n as [| n IH]; intros version s; simpl; [done |].
  destruct r; run_block; try reflexivity; by rewrite IH.
Qed.

Lemma keeps_running_updateRoot r : keeps_running (updateRoot r).
Proof.
  unfold updateRoot. apply keeps_running_bind.
  { intros s. unfold fetchLatestRole. by destruct (fetcher_fetchLatestRole _ _ _ _). }
  intros [root |]; [| apply keeps_running_ret].
  apply keeps_running_bind; [by intros s |]. intros local_version.
  apply keeps_running_proceed_if; [apply keeps_running_rootRotation |].
  intros s. destruct r; run_block; reflexivity.
Qed.

Lemma keeps_running_run_check k : keeps_running (run_check k).
Proof.
  assert (Hreset : forall r, keeps_running (resetMeta r)) by (by intros [] s).
  assert (Hinit : forall r, keeps_running (loadInitialRoot r)).
  { intros r s. unfold loadInitialRoot. destruct r; run_block; reflexivity. }
  assert (Hrole : forall r role maxsize, keeps_running (updateRole r role maxsize)).
  { intros r role maxsize s. unfold updateRole.
    destruct r, role; run_block; reflexivity. }
  assert (Hroot : forall r, keeps_running (checkRootOffline r)).
  { intros r s. unfold checkRootOffline. destruct r; run_block; reflexivity. }
  assert (Hoff : forall r role, keeps_running (checkRoleOffline r role)).
  { intros r role s. unfold checkRoleOffline.
    destruct r, role; run_block; reflexivity. }
  destruct k; simpl.
  - unfold updateDirectorMeta.
    apply keeps_running_bind; [done | intros _].
    apply keeps_running_proceed_if; [done |].
    apply keeps_running_proceed_if; [apply keeps_running_updateRoot | done].
  - unfold updateImagesMeta.
    apply keeps_running_bind; [done | intros _].
    apply keeps_running_proceed_if; [done |].
    apply keeps_running_proceed_if; [apply keeps_running_updateRoot |].
    apply keeps_running_proceed_if; [done |].
    apply keeps_running_proceed_if;
      (apply keeps_running_bind; [by intros s | intros size; done]).
  - unfold checkDirectorMetaOffline.
    apply keeps_running_bind; [done | intros _].
    by apply keeps_running_proceed_if.
  - unfold checkImagesMetaOffline.
    apply keeps_running_bind; [done | intros _].
    repeat (apply keeps_running_proceed_if; [done |]). done.
Qed.

Lemma keeps_running_uptaneIteration : keeps_running uptaneIteration.
Proof.
  unfold uptaneIteration.
  apply keeps_running_proceed_if; [apply (keeps_running_run_check OnlineDirector) |].
  apply keeps_running_bind; [by intros s |]. intros [[] targets]; simpl.
  - destruct targets; [apply keeps_running_ret |].
    apply keeps_running_proceed_if;
      [apply (keeps_running_run_check OnlineImages) | apply keeps_running_ret].
  - apply keeps_running_ret.
Qed.

Lemma keeps_running_uptaneOfflineIteration targets :
  keeps_running (uptaneOfflineIteration targets).
Proof.
  unfold uptaneOfflineIteration.
  apply keeps_running_bind; [apply (keeps_running_run_check OfflineDirector) |].
  intros []; simpl; [| apply keeps_running_ret].
  apply keeps_running_bind; [by intros s |]. intros [[] tmp_targets]; simpl.
  - destruct tmp_targets; [apply keeps_running_ret |].
    apply keeps_running_bind; [apply (keeps_running_run_check OfflineImages) |].
    intros []; apply keeps_running_ret.
  - apply keeps_running_ret.
Qed.

Lemma keeps_running_PackageInstallSetResult target :
  keeps_running (PackageInstallSetResult target).
Proof.
  intros s. unfold PackageInstallSetResult, PackageInstall, bind, ret,
    storeInstallationResult, saveInstalledVersion.
  destruct (negb (IsOstree target) && bool_decide (pacman_type s = kOstree));
    [done |].
  destruct (env_install target (env s)) as [[outcome | what] e]; simpl;
    try case_decide; reflexivity.
Qed.

Lemma keeps_runningx_retx {A} (a : A) : keeps_runningx (retx a).
Proof. by intros s. Qed.

Lemma keeps_runningx_bindx {A B} (c : MX A) (k : A -> MX B) :
  keeps_runningx c -> (forall a, keeps_runningx (k a)) -> keeps_runningx (bindx c k).
Proof.
  intros Hc Hk s. unfold bindx. specialize (Hc s).
  destruct (c s) as [[a | what] s1]; simpl in *; [| done].
  by rewrite Hk.
Qed.

Lemma keeps_runningx_lift {A} (c : M A) : keeps_running c -> keeps_runningx (lift c).
Proof. intros Hc s. unfold lift. specialize (Hc s). by destruct (c s). Qed.

Lemma keeps_runningx_liftEnv {A} (f : Env -> Result A * Env) :
  keeps_runningx (liftEnv f).
Proof. intros s. unfold liftEnv. by destruct (f (env s)). Qed.

Lemma keeps_runningx_putManifest : keeps_runningx putManifest.
Proof.
  unfold putManifest. apply keeps_runningx_bindx.
  { intros s. unfold AssembleManifest.
    by destruct (env_AssembleManifest (storage s) (env s)) as [[res images] e]. }
  intros manifest.
  destruct (negb _); [apply keeps_runningx_liftEnv | apply keeps_runningx_retx].
Qed.

Lemma keeps_runningx_downloadEach targets downloaded :
  keeps_runningx (downloadEach targets downloaded).
Proof.
  revert downloaded. induction targets as [| t rest IH]; intros downloaded s;
    simpl; [done |].
  destruct (repo_getTarget Images (images_repo s) t); [| apply IH].
  destruct (fetcher_fetchVerifyTarget _ _) as [[ok | what] n]; [| done].
  by rewrite IH.
Qed.

Lemma keeps_running_sendDownloadReport : keeps_running sendDownloadReport.
Proof.
  intros s. unfold sendDownloadReport, bind, loadNonRoot.
  by destruct (non_root (storage s) Director Targets).
Qed.

Lemma keeps_runningx_handleRebootFlag : keeps_runningx handleRebootFlag.
Proof.
  intros s. unfold handleRebootFlag.
  destruct (env_rebootFlagExists (env s)) as [[] | what]; [| done..].
  destruct (env_rebootFlagRemove (env s)) as [[[] | what] e]; simpl; [| done].
  by destruct (env_parentIsInit _).
Qed.

Lemma keeps_runningx_runCommand command :
  command <> Shutdown -> keeps_runningx (runCommand command).
Proof.
  intros Hcommand.
  destruct command as [| | | | updates | updates |]; simpl; [.. | done].
  - repeat (apply keeps_runningx_bindx;
            [first [apply keeps_runningx_liftEnv | apply keeps_runningx_putManifest]
            | intros ?]).
    apply keeps_runningx_lift. by intros s.
  - apply keeps_runningx_bindx; [apply keeps_runningx_putManifest |].
    intros []; simpl; apply keeps_runningx_lift; by intros s.
  - apply keeps_runningx_bindx.
    { unfold updateMeta, reportNetworkInfo.
      apply keeps_runningx_bindx; [apply keeps_runningx_liftEnv | intros _].
      apply keeps_runningx_bindx; [apply keeps_runningx_putManifest |].
      intros []; simpl; [| apply keeps_runningx_retx].
      apply keeps_runningx_lift, keeps_running_uptaneIteration. }
    intros []; simpl; apply keeps_runningx_lift; by intros s.
  - apply keeps_runningx_bindx.
    { intros s. unfold AssembleManifest.
      by destruct (env_AssembleManifest (storage s) (env s)) as [[res images] e]. }
    intros _. apply keeps_runningx_bindx;
      [apply keeps_runningx_lift, keeps_running_uptaneOfflineIteration |].
    intros [[] updates]; simpl; [| apply keeps_runningx_retx].
    destruct updates; apply keeps_runningx_lift; by intros s.
  - apply keeps_runningx_bindx; [| intros; apply keeps_runningx_retx].
    unfold downloadImages.
    apply keeps_runningx_bindx; [apply keeps_runningx_downloadEach |].
    intros downloaded. destruct updates as [| t rest].
    + apply keeps_runningx_lift. by intros s.
    + destruct (_ =? _)%nat; [| apply keeps_runningx_retx].
      apply keeps_runningx_lift.
      apply keeps_running_bind; [by intros s | intros _].
      apply keeps_running_bind; [apply keeps_running_sendDownloadReport | intros _].
      apply keeps_running_ret.
  - apply keeps_runningx_bindx; [by intros s | intros primary].
    apply keeps_runningx_bindx; [intros s; apply keeps_runningx_liftEnv | intros _].
    apply keeps_runningx_bindx.
    { destruct (findForEcu updates primary) as [| it rest];
        [apply keeps_runningx_retx |].
      apply keeps_runningx_bindx.
      { intros s. unfold isInstalledOnPrimary. by destruct (bool_decide _). }
      intros []; simpl.
      - apply keeps_runningx_lift. by intros s.
      - apply keeps_runningx_bindx; [apply keeps_runningx_liftEnv | intros _].
        apply keeps_runningx_lift, keeps_running_PackageInstallSetResult. }
    intros _.
    apply keeps_runningx_bindx; [intros s; apply keeps_runningx_liftEnv | intros _].
    apply keeps_runningx_bindx; [apply keeps_runningx_lift; by intros s | intros _].
    apply keeps_runningx_handleRebootFlag.
Qed.

Lemma processCommand_keeps_running command :
  command <> Shutdown -> keeps_running (processCommand command).
Proof.
  intros Hcommand s. unfold processCommand.
  pose proof (keeps_runningx_runCommand command Hcommand s) as Hrun.
  by destruct (runCommand command s) as [[[] | what] s'].
Qed.

Lemma runForever_cons command rest s :
  runForever (command :: rest) s
  = let s' := snd (processCommand command s) in
    if shutdown s' || exited s' then (tt, s') else runForever rest s'.
Proof. simpl. rewrite bind_run. by destruct (processCommand command s) as [[] s']. Qed.

Lemma processCommand_Shutdown s :
  processCommand Shutdown s = (tt, set_shutdown true s).
Proof. reflexivity. Qed.

End Flags.

(** X10: the command loop ends at the first [Shutdown] it reads: whatever
    follows it on the channel is never processed.  Running the loop over
    [before ++ Shutdown :: after] ends in the same state as running it over
    [before ++ [Shutdown]]. *)
Theorem runForever_ends_at_shutdown
    `{C : Collaborators} (before after : list Command) (s : State) :
  runForever (before ++ Shutdown :: after) s = runForever (before ++ [Shutdown]) s.
Proof.
  revert s. induction before as [| command before IH]; intros s.
  - simpl. by rewrite !bind_run.
  - rewrite <- !app_comm_cons, !runForever_cons. simpl.
    destruct (_ || _); [done | apply IH].
Qed.

(** X11: commands are processed one after the other, each from the state
    the one before it left, and no command other than [Shutdown] sets the
    [shutdown] member.  For a loop started with [shutdown] unset in a
    running process, after commands none of which is [Shutdown] the member
    is still unset, and the loop goes on with the commands that follow
    unless the process has exited (the reboot flag was found under
    [init]). *)
Theorem runForever_runs_commands_in_sequence
    `{C : Collaborators} (commands rest : list Command) (s : State) :
  shutdown s = false ->
  exited s = false ->
  Forall (fun command => command <> Shutdown) commands ->
  let s' := snd (runForever commands s) in
  shutdown s' = false /\
  runForever (commands ++ rest) s
  = if exited s' then (tt, s') else runForever rest s'.
Proof.
  intros Hrunning Hexit Hcommands. revert s Hrunning Hexit.
  induction Hcommands as [| command commands Hcommand _ IH]; intros s Hrunning Hexit.
  - simpl. by rewrite Hexit.
  - rewrite <- app_comm_cons, !runForever_cons. simpl.
    pose proof (processCommand_keeps_running command Hcommand s) as Hkeeps.
    rewrite Hrunning in Hkeeps. rewrite Hkeeps. simpl.
    destruct (exited (snd (processCommand command s))) eqn:Hexited; simpl.
    + by rewrite Hexited.
    + by apply IH.
Qed.

Lemma runForever_runs_commands_in_sequence_witness :
  let commands := [CheckUpdates; PutManifest] in
  let rest := [FetchMeta; Shutdown; SendDeviceData] in
  let s' := snd (runForever commands Reference.blank_state) in
  shutdown s' = false /\
  runForever (commands ++ rest) Reference.blank_state
  = if exited s' then (tt, s') else runForever rest s'.
Proof.
  apply (runForever_runs_commands_in_sequence
           [CheckUpdates; PutManifest] [FetchMeta; Shutdown; SendDeviceData]
           Reference.blank_state).
  - reflexivity.
  - reflexivity.
  - repeat constructor; discriminate.
Defined.

Section Loop.
Context `{C : Collaborators}.

Lemma downloadEach_run targets downloaded s :
  match fst (downloadEach targets downloaded s) with
  | Ret result => result = downloaded ++ List.filter (has_image s) targets
  | Throw _ => True
  end.
Proof.
  revert downloaded s. induction targets as [| t rest IH]; intros downloaded s; simpl.
  - by rewrite app_nil_r.
  - unfold has_image at 1.
    destruct (repo_getTarget Images (images_repo s) t) as [images_target |] eqn:Hget.
    + rewrite bool_decide_true by done.
      destruct (fetcher_fetchVerifyTarget images_target (net s)) as [[ok | what] n];
        [| done].
      specialize (IH (downloaded ++ [t]) (set_net n s)).
      destruct (fst (downloadEach rest _ _)); [| done].
      rewrite IH, <- app_assoc. done.
    + rewrite bool_decide_false by (by intros [? ?]). apply IH.
Qed.

Lemma filter_all_length {A} (p : A -> bool) (l : list A) :
  length (List.filter p l) = length l -> List.filter p l = l.
Proof.
  induction l as [| a l IH]; [done |]. simpl.
  destruct (p a) eqn:Hp; simpl.
  - intros [= Hlen]. by rewrite IH.
  - intros Hlen. pose proof (List.filter_length_le p l). lia.
Qed.

Lemma filter_all_forallb {A} (p : A -> bool) (l : list A) :
  forallb p l = bool_decide (length l = length (List.filter p l)).
Proof.
  induction l as [| a l IH]; [done |]. simpl.
  destruct (p a) eqn:Hp; simpl.
  - rewrite IH. apply bool_decide_ext. lia.
  - pose proof (List.filter_length_le p l).
    rewrite bool_decide_false; [done | lia].
Qed.

End Loop.

(** X12: the loop only appends to the events channel, what was on the
    channel stays in front, and it writes at most one event for each
    command it has read, two for an [UptaneInstall]: never more than the
    sum of [max_events] over the commands. *)
Theorem runForever_writes_a_bounded_number_of_events
    `{C : Collaborators} (commands : list Command) (s : State) :
  exists ev,
    events_channel (snd (runForever commands s)) = events_channel s ++ ev /\
    (length ev <= sum_list (max_events <$> commands))%nat.
Proof.
  revert s. induction commands as [| command commands IH]; intros s.
  - exists []. by rewrite app_nil_r.
  - rewrite fmap_cons.
    change (sum_list (max_events command :: (max_events <$> commands)))
      with (max_events command + sum_list (max_events <$> commands))%nat.
    cbn [runForever]. rewrite bind_run.
    destruct (processCommand_events command s) as (ev1 & Hev1 & Hlen1).
    apply command_events_short in Hlen1.
    destruct (_ || _).
    + exists ev1. split; [done | lia].
    + destruct (IH (snd (processCommand command s))) as (ev2 & Hev2 & Hlen2).
      exists (ev1 ++ ev2). rewrite Hev2, Hev1, app_assoc, length_app.
      split; [done | lia].
Qed.

(** X13: [downloadImages] never returns [false], and what it announces
    depends only on the Images metadata.  When it returns for a non-empty
    list it writes [DownloadComplete] with exactly the targets it was given
    if every one of them has a matching target in the Images repository,
    and nothing otherwise; the answer of [fetchVerifyTarget] plays no part.
    For an empty list it writes [UptaneTimestampUpdated]; when the fetcher
    throws it writes nothing itself. *)
Theorem downloadImages_announces_only_when_every_target_has_an_image
    `{C : Collaborators} (targets : list Target) (s : State) :
  fst (downloadImages targets s) <> Ret false /\
  emitted_by (downloadImages targets) s
  = match fst (downloadImages targets s) with
    | Throw _ => []
    | Ret _ =>
        match targets with
        | [] => [UptaneTimestampUpdated]
        | _ :: _ =>
            if forallb (has_image s) targets then [DownloadComplete targets] else []
        end
    end.
Proof.
  unfold emitted_by, downloadImages, bindx.
  pose proof (downloadEach_run targets [] s) as Hrun.
  pose proof (silentx_downloadEach targets [] s) as Hsilent.
  destruct (downloadEach targets [] s) as [[downloaded | what] s1]; simpl in *.
  2: { rewrite Hsilent, drop_all. by split. }
  subst downloaded. rewrite (filter_all_forallb (has_image s)).
  destruct targets as [| t rest].
  { simpl. rewrite Hsilent, drop_app_length. by split. }
  destruct (Nat.eqb_spec (length (t :: rest))
              (length (List.filter (has_image s) (t :: rest)))) as [Hlen | Hlen].
  - rewrite bool_decide_true by done.
    rewrite (filter_all_length _ _ (eq_sym Hlen)).
    unfold lift, bind, emit, ret. simpl.
    pose proof (silent_sendDownloadReport
                  (set_events_channel
                     (events_channel s1 ++ [DownloadComplete (t :: rest)]) s1)) as Hrep.
    destruct (sendDownloadReport _) as [[] s2]. simpl in *.
    rewrite Hrep, Hsilent, drop_app_length. by split.
  - rewrite bool_decide_false by done. simpl.
    rewrite Hsilent, drop_all. by split.
Qed.



(** X21: [FetchMeta] refreshes nothing unless the manifest was put first.
    When [reportNetworkInfo] returns and [putManifest] returns [false] (the
    PUT was refused, or an installation is still pending and nothing was
    sent), the run of the command has an empty call log: no [fetchRole] or
    [fetchLatestRole], no [initRoot], [verifyRoot] or verification of
    another role, no expiry check, no [storeRoot], [storeNonRoot] or
    [clearNonRootMeta] and no install.  The state of the metadata fetcher,
    the content of the storage and the two repositories are what they were,
    and the one event written is [Error "Could not update metadata."].
    What [AssembleManifest] reads from the storage and the PUT itself are
    part of the run and are not in the call log. *)
Theorem FetchMeta_fetches_nothing_unless_the_manifest_was_put
    `{C : Collaborators} (s : State) (s1 : State) :
  reportNetworkInfo s = (Ret tt, s1) ->
  fst (putManifest s1) = Ret false ->
  called_by (processCommand FetchMeta) s = [] /\
  emitted_by (processCommand FetchMeta) s = [Error "Could not update metadata."] /\
  net (snd (processCommand FetchMeta s)) = net s /\
  storage (snd (processCommand FetchMeta s)) = storage s /\
  director_repo (snd (processCommand FetchMeta s)) = director_repo s /\
  images_repo (snd (processCommand FetchMeta s)) = images_repo s.
Proof.
  intros Hreport Hput.
  assert (Hrun : processCommand FetchMeta s
                 = emit (Error "Could not update metadata.") (snd (putManifest s1))).
  { unfold processCommand, runCommand, updateMeta.
    unfold bindx at 1. unfold bindx at 1. rewrite Hreport. unfold bindx at 1.
    destruct (putManifest s1) as [res s2]. simpl in Hput. by subst res. }
  assert (Hs1 : calls s1 = calls s /\ events_channel s1 = events_channel s /\
                net s1 = net s /\ storage s1 = storage s /\
                director_repo s1 = director_repo s /\
                images_repo s1 = images_repo s).
  { revert Hreport. unfold reportNetworkInfo, liftEnv.
    destruct (env_reportNetworkInfo (env s)) as [res e]. by intros [= _ <-]. }
  assert (Hs2 : calls (snd (putManifest s1)) = calls s1 /\
                events_channel (snd (putManifest s1)) = events_channel s1 /\
                net (snd (putManifest s1)) = net s1 /\
                storage (snd (putManifest s1)) = storage s1 /\
                director_repo (snd (putManifest s1)) = director_repo s1 /\
                images_repo (snd (putManifest s1)) = images_repo s1).
  { clear. unfold putManifest, bindx, AssembleManifest, liftEnv, retx.
    destruct (env_AssembleManifest (storage s1) (env s1)) as [[[manifest | what] images] e];
      simpl; [| done].
    destruct (negb _); simpl; [| done].
    by destruct (env_putSignedManifest manifest e) as [res e']. }
  destruct Hs1 as (Hc1 & He1 & Hn1 & Hst1 & Hd1 & Hi1).
  destruct Hs2 as (Hc2 & He2 & Hn2 & Hst2 & Hd2 & Hi2).
  unfold called_by, emitted_by. rewrite Hrun. unfold emit. simpl.
  rewrite Hc2, Hc1, He2, He1, Hn2, Hn1, Hst2, Hst1, Hd2, Hd1, Hi2, Hi1,
    drop_all, drop_app_length.
  done.
Qed.

Lemma FetchMeta_fetches_nothing_unless_the_manifest_was_put_witness :
  called_by (processCommand FetchMeta) Scenarios.refused_state = [] /\
  emitted_by (processCommand FetchMeta) Scenarios.refused_state
  = [Error "Could not update metadata."] /\
  net (snd (processCommand FetchMeta Scenarios.refused_state)) = net Scenarios.refused_state /\
  storage (snd (processCommand FetchMeta Scenarios.refused_state)) = storage Scenarios.refused_state /\
  director_repo (snd (processCommand FetchMeta Scenarios.refused_state))
  = director_repo Scenarios.refused_state /\
  images_repo (snd (processCommand FetchMeta Scenarios.refused_state))
  = images_repo Scenarios.refused_state.
Proof.
  apply (FetchMeta_fetches_nothing_unless_the_manifest_was_put
           Scenarios.refused_state Scenarios.refused_state); reflexivity.
Defined.

Section Announce.

Context `{C : Collaborators}.

(** The offline checks read the inventory and the installed images but
    leave them as they are. *)
Lemma checkDirectorMetaOffline_inventory s :
  hw_ids (snd (checkDirectorMetaOffline s)) = hw_ids s /\
  installed_images (snd (checkDirectorMetaOffline s)) = installed_images s /\
  events_channel (snd (checkDirectorMetaOffline s)) = events_channel s.
Proof.
  unfold checkDirectorMetaOffline, checkRootOffline, checkRoleOffline.
  run_block; by repeat split.
Qed.

Lemma uptaneOfflineIteration_selected targets s ok updates s' :
  uptaneOfflineIteration targets s = (ok, updates, s') ->
  ok = true ->
  let s1 := snd (checkDirectorMetaOffline s) in
  fst (checkDirectorMetaOffline s) = true /\
  updates
  = filter (authorised (hw_ids s1) (installed_images s1))
      (repo_getTargets Director (director_repo s1)) /\
  (updates <> [] -> fst (checkImagesMetaOffline s1) = true).
Proof.
  intros Hrun -> s1. revert Hrun. unfold uptaneOfflineIteration.
  rewrite bind_run. fold s1.
  destruct (fst (checkDirectorMetaOffline s)); simpl; [| done].
  rewrite bind_run. unfold getNewTargets. simpl.
  destruct (TargetSelectionMore.select_added (hw_ids s1) (installed_images s1)
              (repo_getTargets Director (director_repo s1)) [])
    as (added & Hout & _ & _ & Hexact).
  destruct (TargetSelection.getNewTargets _ _ _ _) as [selected tmp_targets].
  simpl in Hout, Hexact. subst tmp_targets.
  destruct selected; simpl; [| done].
  rewrite Hexact by done. clear Hexact.
  destruct (filter _ _) as [| t rest] eqn:Hfilter.
  - intros [= <- _]. by repeat split.
  - rewrite bind_run.
    destruct (fst (checkImagesMetaOffline s1)); simpl; [| done].
    intros [= <- _]. by repeat split.
Qed.

End Announce.

(** X23: [CheckUpdates] announces updates only from metadata that passed.
    When it writes [UpdateAvailable], the offline check of the Director
    metadata and then that of the Images metadata have both returned
    [true], and the targets announced are exactly the Director targets all
    of whose ECUs are in the inventory with the declared hardware
    identifier and have an installed image on record after
    [AssembleManifest], in the Director's order. *)
Theorem CheckUpdates_announces_exactly_the_authorised_targets
    `{C : Collaborators} (s : State) (updates : list Target) :
  emitted_by (processCommand CheckUpdates) s = [UpdateAvailable updates] ->
  let s0 := snd (AssembleManifest s) in
  let s1 := snd (checkDirectorMetaOffline s0) in
  fst (checkDirectorMetaOffline s0) = true /\
  fst (checkImagesMetaOffline s1) = true /\
  updates <> [] /\
  updates
  = filter (authorised (hw_ids s) (installed_images s0))
      (repo_getTargets Director (director_repo s1)).
Proof.
  intros Hev s0 s1. revert Hev.
  unfold emitted_by, processCommand, runCommand. unfold bindx at 1.
  pose proof (silentx_AssembleManifest s) as Hsilent0.
  assert (Hhw : hw_ids s0 = hw_ids s).
  { subst s0. unfold AssembleManifest.
    by destruct (env_AssembleManifest (storage s) (env s)) as [[res images] e]. }
  fold s0 in Hsilent0.
  destruct (AssembleManifest s) as [[manifest | what] s0'] eqn:Hmanifest;
    simpl in s0, Hsilent0; subst s0.
  2: { unfold emit. simpl. rewrite Hsilent0, drop_app_length. discriminate. }
  unfold bindx at 1. unfold lift at 1.
  pose proof (silent_uptaneOfflineIteration [] s0') as Hsilent.
  destruct (uptaneOfflineIteration [] s0') as [[ok selected] s2] eqn:Hrun.
  simpl in Hsilent.
  destruct ok; simpl.
  2: { rewrite Hsilent, Hsilent0, drop_all. discriminate. }
  destruct (uptaneOfflineIteration_selected _ _ _ _ _ Hrun eq_refl)
    as (Hdirector & Hselected & Himages).
  destruct (checkDirectorMetaOffline_inventory s0') as (Hhw1 & Himg1 & _).
  fold s1 in Hdirector, Hselected, Himages, Hhw1, Himg1.
  rewrite Hhw1, Himg1, Hhw in Hselected.
  destruct selected as [| t rest]; unfold lift, emit; simpl;
    rewrite Hsilent, Hsilent0, drop_app_length; [discriminate |].
  intros [= <-]. split; [done |]. split; [by apply Himages |]. by split.
Qed.

Lemma CheckUpdates_announces_exactly_the_authorised_targets_witness :
  let s := Scenarios.provisioned_state in
  let s0 := snd (AssembleManifest s) in
  let s1 := snd (checkDirectorMetaOffline s0) in
  fst (checkDirectorMetaOffline s0) = true /\
  fst (checkImagesMetaOffline s1) = true /\
  [Reference.ostree_target] <> [] /\
  [Reference.ostree_target]
  = filter (authorised (hw_ids s) (installed_images s0))
      (repo_getTargets Director (director_repo s1)).
Proof.
  apply (CheckUpdates_announces_exactly_the_authorised_targets
           Scenarios.provisioned_state [Reference.ostree_target]).
  reflexivity.
Defined.

End LoopMore.

(** ** The packages file *)

Module PackagesMore.

Import Client Packages.

Lemma append_empty s : EmptyString +:+ s = s.
Proof. reflexivity. Qed.

Lemma append_String a s1 s2 : String a s1 +:+ s2 = String a (s1 +:+ s2).
Proof. reflexivity. Qed.

Lemma find_char_app c s1 s2 :
  find_char c (s1 +:+ s2)
  = match find_char c s1 with
    | Some pos => Some pos
    | None => (fun pos => (String.length s1 + pos)%nat) <$> find_char c s2
    end.
Proof.
  induction s1 as [| a s1 IH]; rewrite ?append_empty, ?append_String; simpl.
  - by destruct (find_char c s2).
  - destruct (Ascii.eqb a c); [done |]. rewrite IH.
    destruct (find_char c s1); [done |]. by destruct (find_char c s2).
Qed.

Lemma split_lines_line line rest :
  find_char line_feed line = None ->
  split_lines (line +:+ String line_feed rest) = line :: split_lines rest.
Proof.
  induction line as [| a line IH]; rewrite ?append_empty, ?append_String; simpl.
  - by intros _.
  - destruct (Ascii.eqb a line_feed); [done |].
    destruct (find_char line_feed line); [done |]. intros _. by rewrite IH.
Qed.

Lemma substring_whole s : String.substring 0 (String.length s) s = s.
Proof. induction s as [| a s IH]; simpl; [done | by rewrite IH]. Qed.

Lemma substring_front s1 s2 :
  String.substring 0 (String.length s1) (s1 +:+ s2) = s1.
Proof.
  induction s1 as [| a s1 IH]; rewrite ?append_empty, ?append_String; simpl;
    [by destruct s2 | by rewrite IH].
Qed.

Lemma substr_from_back s1 s2 :
  substr_from (String.length s1) (s1 +:+ s2) = s2.
Proof.
  unfold substr_from.
  induction s1 as [| a s1 IH]; rewrite ?append_empty, ?append_String; simpl.
  - rewrite Nat.sub_0_r. apply substring_whole.
  - apply IH.
Qed.

Lemma length_app_string s1 s2 :
  String.length (s1 +:+ s2) = (String.length s1 + String.length s2)%nat.
Proof.
  induction s1 as [| a s1 IH]; rewrite ?append_empty, ?append_String; simpl;
    [done | by rewrite IH].
Qed.

Lemma append_assoc s1 s2 s3 : (s1 +:+ s2) +:+ s3 = s1 +:+ (s2 +:+ s3).
Proof.
  induction s1 as [| a s1 IH]; rewrite ?append_empty, ?append_String;
    [done | by rewrite IH].
Qed.

Lemma package_line_read p :
  find_char space (name p) = None ->
  package_line p <> EmptyString /\
  find_char space (package_line p) = Some (String.length (name p)) /\
  String.substring 0 (String.length (name p)) (package_line p) = name p /\
  substr_from (String.length (name p) + 1) (package_line p) = version p.
Proof.
  intros Hname. unfold package_line. repeat split.
  - destruct (name p); discriminate.
  - rewrite find_char_app, Hname. simpl. by rewrite Nat.add_0_r.
  - apply substring_front.
  - rewrite <- append_assoc.
    replace (String.length (name p) + 1)%nat with (String.length (name p +:+ " ")).
    + apply substr_from_back.
    + rewrite length_app_string. simpl. lia.
Qed.

Lemma parse_packages_file packages acc :
  Forall writable packages ->
  parse_lines (split_lines (packages_file packages)) acc = Ret (acc ++ packages).
Proof.
  intros Hall. revert acc. induction Hall as [| p rest (Hspace & Hname & Hversion) _ IH];
    intros acc; simpl.
  - by rewrite app_nil_r.
  - rewrite split_lines_line.
    2: { unfold package_line. rewrite !find_char_app, Hname. simpl.
         by rewrite Hversion. }
    destruct (package_line_read p Hspace) as (Hne & Hpos & Hn & Hv).
    simpl. rewrite decide_False by done. rewrite Hpos, Hn, Hv, IH.
    rewrite <- app_assoc. by destruct p.
Qed.

Lemma parse_lines_result package_lines acc :
  match parse_lines package_lines acc with
  | Throw what =>
      what = "Wrong packages file format" /\
      exists line, line ∈ package_lines /\ line <> EmptyString /\
                   find_char space line = None
  | Ret packages =>
      Forall (fun line => line = EmptyString \/ is_Some (find_char space line))
        package_lines /\
      exists read,
        packages = acc ++ read /\
        length read = length (filter (fun line => line <> EmptyString) package_lines) /\
        Forall (fun p => find_char space (name p) = None) read
  end.
Proof.
  revert acc. induction package_lines as [| line rest IH]; intros acc; simpl.
  - split; [done |]. exists []. by rewrite app_nil_r.
  - destruct (decide (line = EmptyString)) as [-> | Hline].
    + specialize (IH acc). destruct (parse_lines rest acc) as [packages | what].
      * destruct IH as (Hall & read & -> & Hlen & Hnames). split.
        { constructor; [by left | done]. }
        exists read. rewrite filter_cons_False by (by intros H). done.
      * destruct IH as (-> & bad & Hin & Hne & Hbad). split; [done |].
        exists bad. split; [by right | done].
    + destruct (find_char space line) as [pos |] eqn:Hpos.
      * specialize (IH (acc ++ [mkPackage (String.substring 0 pos line)
                                  (substr_from (pos + 1) line)])).
        destruct (parse_lines rest _) as [packages | what].
        -- destruct IH as (Hall & read & -> & Hlen & Hnames). split.
           { constructor; [right; by rewrite Hpos | done]. }
           eexists (_ :: read). rewrite <- app_assoc. split; [done |].
           rewrite filter_cons_True by done. simpl. split; [by rewrite Hlen |].
           constructor; [| done]. simpl.
           clear -Hpos. revert pos Hpos. induction line as [| a line IHl];
             intros pos; simpl; [done |].
           destruct (Ascii.eqb a space) eqn:Ha.
           ++ by intros [= <-].
           ++ destruct (find_char space line) as [pos' |]; [| done].
              intros [= <-]. simpl. rewrite Ha. by rewrite (IHl pos').
        -- destruct IH as (-> & bad & Hin & Hne & Hbad). split; [done |].
           exists bad. split; [by right | done].
      * split; [done |]. exists line. split; [by left | done].
Qed.

(** X15: a packages file written with one line per package (name, one
    space, version, line feed) is read back as exactly these packages, in
    order, provided no name holds a space or a line feed and no version
    holds a line feed.  The name may be empty, and the version may hold
    spaces: a line is cut at its first space. *)
Theorem getInstalledPackages_reads_back_a_written_file
    (packages : list Package) :
  Forall writable packages ->
  getInstalledPackages (packages_file packages) = Ret packages.
Proof. intros Hall. unfold getInstalledPackages. by rewrite parse_packages_file. Qed.

Lemma getInstalledPackages_reads_back_a_written_file_witness :
  getInstalledPackages
    (packages_file [mkPackage "libc6" "2.31-13"; mkPackage "" "1.0 beta"])
  = Ret [mkPackage "libc6" "2.31-13"; mkPackage "" "1.0 beta"].
Proof.
  apply (getInstalledPackages_reads_back_a_written_file
           [mkPackage "libc6" "2.31-13"; mkPackage "" "1.0 beta"]).
  repeat constructor.
Defined.

(** X16: [getInstalledPackages] throws exactly when some non-empty line
    of the file has no space, always with the message
    ["Wrong packages file format"]; one such line rejects the whole file.
    Otherwise every line is empty or has a space, each non-empty line gives
    one package, and no package name holds a space. *)
Theorem getInstalledPackages_rejects_a_line_without_space
    (packages_str : string) :
  match getInstalledPackages packages_str with
  | Throw what =>
      what = "Wrong packages file format" /\
      exists line, line ∈ split_lines packages_str /\ line <> EmptyString /\
                   find_char space line = None
  | Ret packages =>
      Forall (fun line => line = EmptyString \/ is_Some (find_char space line))
        (split_lines packages_str) /\
      length packages
      = length (filter (fun line => line <> EmptyString) (split_lines packages_str)) /\
      Forall (fun p => find_char space (name p) = None) packages
  end.
Proof.
  unfold getInstalledPackages.
  pose proof (parse_lines_result (split_lines packages_str) []) as H.
  destruct (parse_lines _ _) as [packages | what]; [| done].
  destruct H as (Hall & read & -> & Hlen & Hnames). done.
Qed.

End PackagesMore.

(** ** Secondaries *)

Module SecondariesMore.

Import Client ClientFacts CallLog Secondaries.

Section Init.

Context `{C : Collaborators} `{!SecondaryInterface}.

Lemma map_insert_lookup {V} (k k' : string) (v : V) (m : gmap string V) :
  map_insert k v m !! k'
  = match m !! k' with
    | Some x => Some x
    | None => if decide (k' = k) then Some v else None
    end.
Proof.
  unfold map_insert. destruct (m !! k) as [x |] eqn:Hk.
  - destruct (m !! k') eqn:Hk'; [done |]. case_decide; [| done]. congruence.
  - destruct (decide (k' = k)) as [-> | Hne].
    + by rewrite lookup_insert_eq, Hk.
    + rewrite lookup_insert_ne by done. by destruct (m !! k').
Qed.

Lemma first_with_serial_cons it rest sec_serial :
  first_with_serial (it :: rest) sec_serial
  = if decide (getSerial (makeSecondary it) = sec_serial)
    then Some (makeSecondary it)
    else first_with_serial rest sec_serial.
Proof.
  unfold first_with_serial. simpl. case_decide.
  - by rewrite bool_decide_true.
  - by rewrite bool_decide_false.
Qed.

End Init.

(** X17: of the configured Secondaries that report the same serial only
    the first is registered; a Secondary already registered under a serial
    is never replaced; and a hardware identifier already on record for a
    serial is never overwritten.  Started from empty maps, as in the
    constructor, [secondaries] and [hw_ids] hold for every serial the first
    configured Secondary that reports it and its hardware identifier. *)
Theorem initSecondaries_first_secondary_of_a_serial_wins
    `{C : Collaborators} `{!SecondaryInterface}
    (secondary_configs : list SecondaryConfig) (inv : Inventory)
    (sec_serial : EcuSerial) :
  let inv' := initSecondaries secondary_configs inv in
  inv'.1 !! sec_serial
  = match inv.1 !! sec_serial with
    | Some sec => Some sec
    | None => first_with_serial secondary_configs sec_serial
    end /\
  inv'.2 !! sec_serial
  = match inv.2 !! sec_serial, inv.1 !! sec_serial with
    | Some hw_id, _ => Some hw_id
    | None, Some _ => None
    | None, None => getHwId <$> first_with_serial secondary_configs sec_serial
    end.
Proof.
  revert inv. induction secondary_configs as [| it rest IH]; intros inv; simpl.
  - unfold first_with_serial. simpl.
    split; [by destruct (inv.1 !! sec_serial) |].
    by repeat case_match.
  - rewrite first_with_serial_cons.
    destruct (inv.1 !! getSerial (makeSecondary it)) as [known |] eqn:Hknown.
    + destruct (IH inv) as [Hsec Hhw]. simpl in Hsec, Hhw. rewrite Hsec, Hhw.
      case_decide as Heq; [| done]. subst sec_serial. rewrite Hknown.
      split; [done |]. by destruct (inv.2 !! _).
    + match goal with
      | |- context [initSecondaries rest ?inv2] => destruct (IH inv2) as [Hsec Hhw]
      end.
      simpl in Hsec, Hhw. rewrite Hsec, Hhw. clear Hsec Hhw.
      rewrite map_insert_lookup.
      destruct (decide (getSerial (makeSecondary it) = sec_serial)) as [<- | Hne].
      * rewrite lookup_insert_eq, Hknown. rewrite decide_True by done.
        split; [done |]. by destruct (inv.2 !! _).
      * rewrite lookup_insert_ne by done. rewrite decide_False by done.
        split; [done |]. unfold EcuSerial in *. by repeat case_match.
Qed.

Section Verify.

Context `{C : Collaborators} `{!SecondaryInterface}.

Variable SerialCompare : EcuSerial -> EcuSerial * HardwareIdentifier -> bool.
Hypothesis SerialCompare_spec :
  forall sec_serial e, SerialCompare sec_serial e = true <-> e.1 = sec_serial.

Lemma found_in_none l : replicate (length l) false = found_in [] l.
Proof.
  unfold found_in. induction l as [| e l IH]; [done |]. simpl. by rewrite IH.
Qed.

Lemma found_in_ext seen seen' l :
  (forall e, e ∈ l -> e.1 ∈ seen <-> e.1 ∈ seen') ->
  found_in seen l = found_in seen' l.
Proof.
  intros Hext. unfold found_in. apply list_fmap_ext. intros i e Hi.
  apply bool_decide_ext, Hext. by eapply list_elem_of_lookup_2.
Qed.

Lemma found_in_insert seen l i e :
  NoDup l.*1 -> l !! i = Some e ->
  <[i := true]> (found_in seen l) = found_in (e.1 :: seen) l.
Proof.
  intros Hnodup Hi. apply list_eq. intros j. unfold found_in.
  destruct (decide (j = i)) as [-> | Hne].
  - rewrite list_lookup_insert_eq by (rewrite length_fmap; by eapply lookup_lt_Some).
    rewrite list_lookup_fmap, Hi. simpl.
    by rewrite bool_decide_true by (by left).
  - rewrite list_lookup_insert_ne by done. rewrite !list_lookup_fmap.
    destruct (l !! j) as [e' |] eqn:Hj; [| done]. simpl. f_equal.
    apply bool_decide_ext. rewrite elem_of_cons.
    split; [by right |]. intros [Heq | Hin]; [| done].
    exfalso. apply Hne.
    apply (NoDup_lookup l.*1 j i e'.1); [done | |].
    + by rewrite list_lookup_fmap, Hj.
    + by rewrite list_lookup_fmap, Hi, Heq.
Qed.

Lemma find_serial sec_serial l :
  match list_find (fun e => SerialCompare sec_serial e = true) l with
  | Some (i, e) => l !! i = Some e /\ e.1 = sec_serial
  | None => sec_serial ∉ l.*1
  end.
Proof.
  destruct (list_find _ l) as [[i e] |] eqn:Hfind.
  - apply list_find_Some in Hfind as (Hi & He & _).
    split; [done | by apply SerialCompare_spec].
  - apply list_find_None in Hfind. intros ((serial' & hw) & -> & Hin)%list_elem_of_fmap.
    rewrite Forall_forall in Hfind. apply (Hfind _ Hin). by apply SerialCompare_spec.
Qed.

Lemma check_secondaries_run serials secondaries misconfigured seen :
  NoDup serials.*1 ->
  foldl (check_secondary SerialCompare serials) (misconfigured, found_in seen serials)
    secondaries
  = (misconfigured
     ++ ((fun sec => mkMisconfiguredEcu (getSerial sec) (getHwId sec) kNotRegistered)
           <$> filter (fun sec => getSerial sec ∉ serials.*1) secondaries),
     found_in ((getSerial <$> secondaries) ++ seen) serials).
Proof.
  intros Hnodup. revert misconfigured seen.
  induction secondaries as [| sec rest IH]; intros misconfigured seen;
    cbn [foldl check_secondary].
  - by rewrite filter_nil, app_nil_r.
  - pose proof (find_serial (getSerial sec) serials) as Hfind.
    destruct (list_find _ serials) as [[i e] |].
    + destruct Hfind as [Hi He].
      assert (Hfound : (if default false (found_in seen serials !! i)
                        then (misconfigured, found_in seen serials)
                        else (misconfigured, <[i := true]> (found_in seen serials)))
                       = (misconfigured, found_in (getSerial sec :: seen) serials)).
      { unfold found_in at 1. rewrite list_lookup_fmap, Hi. simpl.
        case_bool_decide as Hseen.
        - f_equal. apply found_in_ext. intros e' _. rewrite elem_of_cons.
          split; [by right |]. intros [-> | Hx]; [by rewrite <- He | done].
        - by rewrite (found_in_insert _ _ _ _ Hnodup Hi), He. }
      rewrite Hfound, IH.
      rewrite filter_cons_False.
      2: { intros Hno. apply Hno. rewrite <- He.
           apply list_elem_of_fmap. exists e. split; [done |].
           by eapply list_elem_of_lookup_2. }
      f_equal. apply found_in_ext. intros e' _.
      rewrite fmap_cons, !elem_of_app, !elem_of_cons. tauto.
    + rewrite IH, filter_cons_True by done. rewrite fmap_cons, <- app_assoc.
      f_equal. apply found_in_ext. intros e' Hin.
      rewrite fmap_cons, !elem_of_app, elem_of_cons.
      split; [tauto |]. intros [[Heq | Hx] | Hx]; [| tauto..].
      exfalso. apply Hfind. rewrite <- Heq. apply list_elem_of_fmap. by exists e'.
Qed.

Lemma not_reported_found seen l :
  not_reported l (found_in seen l)
  = (fun e => mkMisconfiguredEcu e.1 e.2 kOld) <$> filter (fun e => e.1 ∉ seen) l.
Proof.
  unfold found_in, EcuSerials in *. induction l as [| e l IH]; [done |].
  rewrite fmap_cons. cbn [not_reported].
  case_bool_decide as Hseen.
  - rewrite filter_cons, decide_False by (intros Hno; by apply Hno). apply IH.
  - rewrite filter_cons, decide_True by done. rewrite fmap_cons. simpl. f_equal. apply IH.
Qed.

End Verify.

(** X18: when the stored serials are distinct and hold the Primary's, and
    [SerialCompare] compares serials, [verifySecondaries] stores exactly
    this list: each Secondary whose serial is not stored, as
    [kNotRegistered], in the order of [secondaries]; then each stored entry
    whose serial is neither the Primary's nor that of a Secondary, as
    [kOld], in the stored order.  An ECU that is both stored and known is
    never reported. *)
Theorem verifySecondaries_reports_exactly_the_unmatched_ecus
    `{C : Collaborators} `{!SecondaryInterface}
    (SerialCompare : EcuSerial -> EcuSerial * HardwareIdentifier -> bool)
    (serials : EcuSerials) (primary : EcuSerial) (secondaries : list Secondary) :
  (forall sec_serial e, SerialCompare sec_serial e = true <-> e.1 = sec_serial) ->
  NoDup serials.*1 ->
  primary ∈ serials.*1 ->
  verifySecondaries SerialCompare (Some serials) primary secondaries
  = StoreMisconfiguredEcus
      (((fun sec => mkMisconfiguredEcu (getSerial sec) (getHwId sec) kNotRegistered)
          <$> filter (fun sec => getSerial sec ∉ serials.*1) secondaries)
       ++ ((fun e => mkMisconfiguredEcu e.1 e.2 kOld)
             <$> filter (fun e => e.1 <> primary /\ e.1 ∉ getSerial <$> secondaries)
                   serials)).
Proof.
  intros Hcompare Hnodup Hprimary. unfold verifySecondaries, EcuSerials in *.
  destruct serials as [| e0 rest] eqn:Hserials; [by apply elem_of_nil in Hprimary |].
  rewrite <- Hserials in *. clear Hserials.
  pose proof (find_serial SerialCompare Hcompare primary serials) as Hfind.
  destruct (list_find _ serials) as [[i e] |]; [| done].
  destruct Hfind as [Hi He].
  rewrite found_in_none, (found_in_insert _ _ _ _ Hnodup Hi), He.
  rewrite (check_secondaries_run SerialCompare Hcompare) by done.
  rewrite not_reported_found.
  f_equal. f_equal. f_equal. apply list_filter_iff. intros x.
  rewrite elem_of_app, list_elem_of_singleton. tauto.
Qed.

Lemma verifySecondaries_reports_exactly_the_unmatched_ecus_witness :
  verifySecondaries Scenarios.serial_equal (Some Scenarios.stored_serials)
    "primary" Scenarios.configured_secondaries
  = StoreMisconfiguredEcus
      (((fun sec => mkMisconfiguredEcu (getSerial sec) (getHwId sec) kNotRegistered)
          <$> filter (fun sec => getSerial sec ∉ Scenarios.stored_serials.*1)
                Scenarios.configured_secondaries)
       ++ ((fun e => mkMisconfiguredEcu e.1 e.2 kOld)
             <$> filter (fun e => e.1 <> "primary" /\
                                  e.1 ∉ getSerial <$> Scenarios.configured_secondaries)
                   Scenarios.stored_serials)).
Proof.
  apply (verifySecondaries_reports_exactly_the_unmatched_ecus
           Scenarios.serial_equal Scenarios.stored_serials "primary"
           Scenarios.configured_secondaries).
  - intros sec_serial e. apply bool_decide_eq_true.
  - unfold Scenarios.stored_serials. simpl.
    repeat (constructor; [not_among |]). constructor.
  - unfold Scenarios.stored_serials. simpl. by left.
Defined.

Lemma bind_run_in {S A B} (c : ST S A) (k : A -> ST S B) (s : S) :
  bind c k s = k (c s).1 (c s).2.
Proof. unfold bind. by destruct (c s). Qed.

Section Rotate.

Context `{C : Collaborators} `{!SecondaryInterface}.

Lemma rotateLoop_run st repo n v l :
  exists (k : nat) new,
    sent (snd (rotateLoop st repo n v l)) = sent l ++ new /\
    (k <= n)%nat /\
    roots_from st repo v k new /\
    ((forall version, v <= version < v + Z.of_nat n ->
        is_Some (loadRoot st repo version)) ->
     k = n /\ link_net (snd (rotateLoop st repo n v l)) = link_net l).
Proof.
  revert v l. induction n as [| n IH]; intros v l.
  - exists 0%nat, []. simpl. rewrite app_nil_r. by repeat split.
  - cbn [rotateLoop].
    destruct (loadRoot st repo v) as [stored |] eqn:Hload.
    + destruct (putRoot stored _ (secondary l)) as [ok sec'] eqn:Hput.
      match goal with
      | |- context [rotateLoop st repo n (v + 1) ?l1] =>
          destruct (IH (v + 1) l1) as (k & new & Hsent & Hk & [Hversions Hroots] & Hall)
      end.
      simpl in Hsent, Hall.
      exists (S k), (SentRoot repo v stored ok :: new).
      split; [by rewrite Hsent, <- app_assoc |].
      split; [lia |]. split.
      * split; [simpl; f_equal; exact Hversions |].
        constructor; [| done]. exists v, stored, ok. split; [done |]. congruence.
      * intros Hstored. destruct Hall as [-> Hnet]; [| done].
        intros version Hversion. apply Hstored. lia.
    + destruct (fetcher_fetchRole kMaxRootSize repo Root v (link_net l))
        as [[root |] net'] eqn:Hfetch.
      * destruct (putRoot root _ (secondary l)) as [ok sec'] eqn:Hput.
        match goal with
        | |- context [rotateLoop st repo n (v + 1) ?l1] =>
            destruct (IH (v + 1) l1) as (k & new & Hsent & Hk & [Hversions Hroots] & Hall)
        end.
        simpl in Hsent, Hall.
        exists (S k), (SentRoot repo v root ok :: new).
        split; [by rewrite Hsent, <- app_assoc |].
        split; [lia |]. split.
        -- split; [simpl; f_equal; exact Hversions |].
           constructor; [| done]. exists v, root, ok. split; [done |]. congruence.
        -- intros Hstored. destruct (Hstored v) as [? Hv]; [lia | congruence].
      * exists 0%nat, []. simpl. rewrite app_nil_r.
        split; [done |]. split; [lia |]. split; [by split |].
        intros Hstored. destruct (Hstored v) as [? Hv]; [lia | congruence].
Qed.

End Rotate.

(** X19: the Roots sent to a Secondary in one rotation are Roots of
    consecutive versions, starting right after the version the Secondary
    reports, each the stored Root of its version when one is stored (the
    fetcher is asked only for versions that are not stored).  Nothing is
    sent when no Root is stored or the Secondary reports a negative
    version.  The number of Roots sent does not depend on the Secondary's
    answers: when every version up to the latest stored Root's is stored,
    all of them are sent, a refused one included, without any fetch. *)
Theorem rotateSecondaryRoot_sends_consecutive_roots
    `{C : Collaborators} `{!SecondaryInterface}
    (st : Storage) (repo : RepositoryType) (l : Link) :
  let sec_root_version :=
    getRootVersion (bool_decide (repo = Director)) (secondary l) in
  let l' := snd (rotateSecondaryRoot st repo l) in
  exists (k : nat) new,
    sent l' = sent l ++ new /\
    roots_from st repo (sec_root_version + 1) k new /\
    (sec_root_version < 0 -> k = 0%nat) /\
    match latest_root (roots st repo) with
    | None => k = 0%nat
    | Some (_, latest) =>
        let last_root_version := extractVersionUntrusted latest in
        (k <= Z.to_nat (last_root_version - sec_root_version))%nat /\
        (0 <= sec_root_version ->
         (forall version, sec_root_version < version <= last_root_version ->
            is_Some (loadRoot st repo version)) ->
         k = Z.to_nat (last_root_version - sec_root_version) /\
         link_net l' = link_net l)
    end.
Proof.
  intros sec_root_version l'. subst l'. unfold rotateSecondaryRoot.
  fold sec_root_version.
  destruct (latest_root (roots st repo)) as [[version latest] |].
  2: { exists 0%nat, []. rewrite app_nil_r. by repeat split. }
  destruct (Z.leb_spec 0 sec_root_version) as [Hsec | Hsec].
  - destruct (rotateLoop_run st repo
                (Z.to_nat (extractVersionUntrusted latest - sec_root_version))
                (sec_root_version + 1) l) as (k & new & Hsent & Hk & Hroots & Hall).
    exists k, new. split; [done |]. split; [done |]. split; [lia |].
    split; [done |]. intros _ Hstored. apply Hall.
    intros v Hv. apply Hstored. lia.
  - exists 0%nat, []. rewrite app_nil_r.
    split; [done |]. split; [by split |]. split; [done |].
    split; [lia |]. intros Hpos. lia.
Qed.

Section Send.

Context `{C : Collaborators} `{!SecondaryInterface}.

Lemma rotateSecondaryRoot_roots st repo l :
  exists new,
    sent (snd (rotateSecondaryRoot st repo l)) = sent l ++ new /\
    Forall (fun x => exists repo version root ok, x = SentRoot repo version root ok)
           new.
Proof.
  unfold rotateSecondaryRoot.
  destruct (latest_root (roots st repo)) as [[version latest] |].
  2: { exists []. by rewrite app_nil_r. }
  destruct (0 <=? _).
  2: { exists []. by rewrite app_nil_r. }
  match goal with
  | |- context [rotateLoop st repo ?n ?v l] =>
      destruct (rotateLoop_run st repo n v l) as (k & new & Hsent & _ & [_ Hroots] & _)
  end.
  exists new. split; [done |].
  eapply Forall_impl; [exact Hroots |].
  intros x (version' & root & ok & -> & _). by exists repo, version', root, ok.
Qed.

Lemma sendToEcu_run st meta ecu_serial f :
  let f' := snd (sendToEcu st meta ecu_serial f) in
  (forall k, is_Some (secondaries f' !! k) <-> is_Some (secondaries f !! k)) /\
  match secondaries f !! ecu_serial with
  | None => f' = f
  | Some _ =>
      exists chunk,
        fleet_sent f' = fleet_sent f ++ chunk /\ transmission meta ecu_serial chunk
  end.
Proof.
  unfold sendToEcu, EcuSerial in *.
  destruct (secondaries f !! ecu_serial) as [sec |] eqn:Hsec; [| done].
  rewrite bind_run_in.
  destruct (rotateSecondaryRoot_roots st Director (mkLink sec (fleet_net f) []))
    as (new1 & Hsent1 & Hroots1).
  set (l1 := snd (rotateSecondaryRoot st Director (mkLink sec (fleet_net f) []))) in *.
  destruct (rotateSecondaryRoot_roots st Images l1) as (new2 & Hsent2 & Hroots2).
  set (l2 := snd (rotateSecondaryRoot st Images l1)) in *.
  destruct (putMetadata meta (secondary l2)) as [ok sec'] eqn:Hput. simpl.
  split.
  - intros k. destruct (decide (k = ecu_serial)) as [-> | Hne].
    + rewrite lookup_insert_eq, Hsec. split; by eexists.
    + by rewrite lookup_insert_ne.
  - eexists. split; [done |].
    exists ((fun x => (ecu_serial, x)) <$> sent l2), ok. split; [done |].
    rewrite Hsent2, Hsent1. simpl. apply Forall_fmap, Forall_app.
    split; (eapply Forall_impl; [eassumption |]);
      intros x (repo & version & root & ok' & ->);
      by exists repo, version, root, ok'.
Qed.

Lemma send_each_run st meta (serials : list EcuSerial) f :
  let f' := snd (for_each (sendToEcu st meta) serials f) in
  (forall k, is_Some (secondaries f' !! k) <-> is_Some (secondaries f !! k)) /\
  exists chunks,
    fleet_sent f' = fleet_sent f ++ concat chunks /\
    Forall2 (transmission meta)
      (filter (fun ecu_serial => is_Some (secondaries f !! ecu_serial)) serials)
      chunks.
Proof.
  revert f. induction serials as [| ecu_serial rest IH]; intros f; simpl.
  - split; [done |]. exists []. rewrite app_nil_r. split; [done | constructor].
  - rewrite bind_run_in.
    destruct (sendToEcu_run st meta ecu_serial f) as [Hdom Hone].
    set (f1 := snd (sendToEcu st meta ecu_serial f)) in *.
    destruct (IH f1) as (Hdom' & chunks & Hsent & Hchunks). simpl in *.
    split; [intros k; by rewrite Hdom', Hdom |].
    assert (Hfilter : filter (fun s => is_Some (secondaries f1 !! s)) rest
                      = filter (fun s => is_Some (secondaries f !! s)) rest).
    { apply list_filter_iff. intros s. apply Hdom. }
    rewrite Hfilter in Hchunks. rewrite filter_cons.
    destruct (secondaries f !! ecu_serial) as [sec |] eqn:Hsec.
    + destruct Hone as (chunk & Hchunk & Htrans).
      rewrite decide_True by (by eexists).
      exists (chunk :: chunks). simpl. rewrite Hsent, Hchunk, <- app_assoc.
      split; [done | by constructor].
    + rewrite decide_False by (by intros [? ?]).
      exists chunks. by rewrite Hsent, Hone.
Qed.

Lemma for_each_flat {S A B} (body : B -> ST S unit) (g : A -> list B) (l : list A) s :
  for_each (fun a => for_each body (g a)) l s = for_each body (flat_map g l) s.
Proof.
  revert s. induction l as [| a l IH]; intros s; simpl; [done |].
  rewrite bind_run_in, IH. clear IH.
  generalize (g a). intros bs. revert s.
  induction bs as [| b bs IHb]; intros s; simpl; [done |].
  rewrite !bind_run_in. apply IHb.
Qed.

End Send.

(** X20: [sendMetadataToEcus] sends nothing at all, Roots included,
    unless all six documents of the metadata pack are stored.  Otherwise
    it goes through the ECU entries of the targets in order, and each entry
    whose serial is a registered Secondary is sent first Roots and then the
    one metadata pack built from the stored documents; entries with other
    serials are skipped, and a Secondary named several times is sent the
    pack each time.  Roots for a Secondary always come before its metadata,
    and a refusal stops nothing. *)
Theorem sendMetadataToEcus_sends_roots_then_metadata
    `{C : Collaborators} `{!SecondaryInterface}
    (st : Storage) (targets : list Target) (f : Fleet) :
  let f' := snd (sendMetadataToEcus st targets f) in
  match loadMetaPack st with
  | None => f' = f
  | Some meta =>
      exists chunks,
        fleet_sent f' = fleet_sent f ++ concat chunks /\
        Forall2 (transmission meta) (recipients (secondaries f) targets) chunks
  end.
Proof.
  unfold sendMetadataToEcus.
  destruct (loadMetaPack st) as [meta |]; [| done]. simpl.
  rewrite (for_each_flat (fun e : EcuSerial * HardwareIdentifier =>
                            sendToEcu st meta e.1) ecus).
  assert (Hmap : forall (es : list (EcuSerial * HardwareIdentifier)) g,
             for_each (fun e => sendToEcu st meta e.1) es g
             = for_each (sendToEcu st meta) es.*1 g).
  { induction es as [| e es IH]; intros g; simpl; [done |].
    by rewrite !bind_run_in, IH. }
  rewrite Hmap.
  destruct (send_each_run st meta (flat_map ecus targets).*1 f) as (_ & chunks & Hsent & Hall).
  exists chunks. split; [done |].
  unfold recipients.
  replace (flat_map (fun t => (ecus t).*1) targets) with (flat_map ecus targets).*1; [done |].
  clear. induction targets as [| t rest IH]; simpl; [done |].
  by rewrite fmap_app, IH.
Qed.

End SecondariesMore.

(** ** Network telemetry *)

Module TelemetryMore.

Import Telemetry.

Lemma report_each_reported {Json} `{EqDecision Json} (network_info : Json)
    (responses : list bool) (r : Reporter Json) :
  network_info = last_network_info_reported r ->
  report_each network_info responses r = r.
Proof.
  intros Hsame. induction responses as [| ok rest IH]; [done |].
  unfold report_each in *. simpl. unfold reportNetworkInfo at 2.
  destruct (report_network r); [| done].
  by rewrite decide_False by (intros Hne; by apply Hne).
Qed.

(** X22: network information that is new is PUT on every call until one
    PUT is answered well, and never again while it stays the same: over
    successive calls with the same information the bodies sent are one per
    call up to and including the first success.  With telemetry switched
    off nothing is ever sent. *)
Theorem reportNetworkInfo_repeats_until_a_put_succeeds
    {Json} `{EqDecision Json} (network_info : Json) (responses : list bool)
    (r : Reporter Json) :
  network_info <> last_network_info_reported r ->
  network_puts (report_each network_info responses r)
  = network_puts r
    ++ if report_network r then replicate (attempts responses) network_info else [].
Proof.
  intros Hnew. revert r Hnew.
  induction responses as [| ok rest IH]; intros r Hnew.
  - simpl. destruct (report_network r); by rewrite app_nil_r.
  - unfold report_each in *. cbn [foldl attempts]. unfold reportNetworkInfo at 2.
    destruct (report_network r) eqn:Hon.
    + rewrite decide_True by done. destruct ok.
      * fold (report_each network_info rest
                (mkReporter true network_info (network_puts r ++ [network_info]))).
        by rewrite report_each_reported.
      * rewrite IH by done. simpl. by rewrite <- app_assoc.
    + rewrite IH by done. by rewrite Hon.
Qed.

Lemma reportNetworkInfo_repeats_until_a_put_succeeds_witness :
  network_puts
    (report_each "eth0 up" [false; false; true; true]
       (mkReporter true "" ["lo up"]))
  = ["lo up"] ++ replicate (attempts [false; false; true; true]) "eth0 up".
Proof.
  apply (reportNetworkInfo_repeats_until_a_put_succeeds
           "eth0 up" [false; false; true; true] (mkReporter true "" ["lo up"])).
  discriminate.
Defined.

End TelemetryMore.
